(** * TrustWeb3Provider: request correlation and dispatch engine

    A shallow embedding of the in-page provider of
    [src/src/index.js] (module [IndexJs]) and of its older variant
    [src/unnamed/part_000] (module [Part000]), together with the helpers of
    [src/src/utils.js].

    JavaScript values are an inductive type, objects are association lists of
    fields, the two registry [Map]s are finite maps keyed by the numeric
    internal id, and every effect of the provider (settling a promise,
    posting to the host channel, calling the upstream RPC client, drawing an
    id from [Utils.genId]) is a change of an explicit [world].  Console
    output is not modelled. *)

From Stdlib Require Import ZArith String Ascii List DecimalString HexadecimalString.
From Stdlib Require HexadecimalN DecimalZ DecimalPos.
From stdpp Require Import gmap strings list.

Set Warnings "-register-all".

Open Scope string_scope.
Open Scope Z_scope.

(** ** JavaScript values *)

(** Numbers are the integers the provider handles (ids, chain ids, lengths).
    A JavaScript number is a double, so [VNum n] stands for a number of the
    program when [n] is a safe integer ([safe_integer] below); the printing,
    parsing and arithmetic of numbers in this file are those of JavaScript on
    the safe integers, and the properties that depend on them say so.
    [VErr c m] is an [Error] object with message [m]; [c] is the [code] of a
    [ProviderRpcError] and [None] for a plain [Error] or [TypeError]. *)
Inductive value : Type :=
| VUndefined
| VNull
| VBool (b : bool)
| VNum (n : Z)
| VStr (s : string)
| VArr (xs : list value)
| VObj (fs : list (string * value))
| VErr (code : option Z) (msg : string).

(** An object as the code sees it: named fields, in insertion order. *)
Abbreviation obj := (list (string * value)).

(** Evaluation of a statement either completes or throws. *)
Inductive res (A : Type) : Type :=
| Ok (a : A)
| Throw (e : value).
Arguments Ok {A} a.
Arguments Throw {A} e.

Definition bind {A B} (r : res A) (k : A -> res B) : res B :=
  match r with
  | Ok a => k a
  | Throw e => Throw e
  end.

Notation "'do' x <- r ; k" := (bind r (fun x => k))
  (at level 10, x pattern, r at level 100, k at level 200).

(** The [TypeError] of a property read on [undefined] or [null], or of a call
    of something that is not a function. *)
Definition TypeError : value := VErr None "TypeError".

(** The [RangeError] of [new Array(n)] for a length it cannot have. *)
Definition RangeError : value := VErr None "RangeError".

(** Modelled from the spec: [new ProviderRpcError(code, message)] of
    [./error], which is not among the sources; the spec describes rejections
    as error objects carrying [{code, message}], and [sendError] is handed
    these objects where it tests [instanceof Error]. *)
Definition ProviderRpcError (code : Z) (message : string) : value :=
  VErr (Some code) message.

(** ToBoolean. *)
Definition truthy (v : value) : bool :=
  match v with
  | VUndefined | VNull => false
  | VBool b => b
  | VNum n => negb (n =? 0)
  | VStr s => negb (String.eqb s "")
  | VArr _ | VObj _ | VErr _ _ => true
  end.

(** [a || b]. *)
Definition js_or (a b : value) : value := if truthy a then a else b.

(** [typeof v === "object"]. *)
Definition typeof_object (v : value) : bool :=
  match v with
  | VNull | VArr _ | VObj _ | VErr _ _ => true
  | _ => false
  end.

(** [Number.isSafeInteger(n)]: beyond [2^53 - 1] in absolute value sums
    and parsed digits are rounded to the nearest double, and from [10^21] on
    a number is printed in exponent notation. *)
Definition safe_integer (n : Z) : bool := (- 2 ^ 53 <? n) && (n <? 2 ^ 53).

(** [n.toString()] for a safe integer: its decimal digits. *)
Definition dec_string (n : Z) : string :=
  DecimalString.NilZero.string_of_int (Z.to_int n).

(** [n.toString(16)] for a safe integer: lower-case digits, a leading minus
    for negatives. *)
Definition hex_string (n : Z) : string :=
  if n <? 0
  then "-" +:+ HexadecimalString.NilZero.string_of_uint (N.to_hex_uint (Z.to_N (- n)))
  else HexadecimalString.NilZero.string_of_uint (N.to_hex_uint (Z.to_N n)).

(** ["" + v]. *)
Fixpoint to_string (v : value) : string :=
  match v with
  | VUndefined => "undefined"
  | VNull => "null"
  | VBool true => "true"
  | VBool false => "false"
  | VNum n => dec_string n
  | VStr s => s
  | VArr xs =>
      (fix join (l : list value) : string :=
         match l with
         | [] => ""
         | x :: r =>
             let e := match x with
                      | VUndefined | VNull => ""
                      | _ => to_string x
                      end in
             match r with
             | [] => e
             | _ => e +:+ "," +:+ join r
             end
         end) xs
  | VObj _ => "[object Object]"
  | VErr _ m => if String.eqb m "" then "Error" else "Error: " +:+ m
  end.

Fixpoint field (k : string) (fs : obj) : value :=
  match fs with
  | [] => VUndefined
  | (k', v) :: r => if String.eqb k k' then v else field k r
  end.

(** [o.k = v]: overwrite in place or append. *)
Fixpoint set_field (k : string) (v : value) (fs : obj) : obj :=
  match fs with
  | [] => [(k, v)]
  | (k', v') :: r =>
      if String.eqb k k' then (k, v) :: r else (k', v') :: set_field k v r
  end.

(** [v.k]; throws on [undefined] and [null]. *)
Definition get_prop (v : value) (k : string) : res value :=
  match v with
  | VUndefined | VNull => Throw TypeError
  | VObj fs => Ok (field k fs)
  | VErr c m =>
      if String.eqb k "message" then Ok (VStr m)
      else if String.eqb k "code"
           then Ok (match c with Some n => VNum n | None => VUndefined end)
           else Ok VUndefined
  | VArr xs =>
      if String.eqb k "length" then Ok (VNum (Z.of_nat (length xs)))
      else Ok VUndefined
  | VStr s =>
      if String.eqb k "length" then Ok (VNum (Z.of_nat (String.length s)))
      else Ok VUndefined
  | _ => Ok VUndefined
  end.

(** [v[i]]; throws on [undefined] and [null]. *)
Definition get_index (v : value) (i : nat) : res value :=
  match v with
  | VUndefined | VNull => Throw TypeError
  | VArr xs => Ok (nth i xs VUndefined)
  | VStr s =>
      Ok (match String.get i s with
          | Some c => VStr (String c EmptyString)
          | None => VUndefined
          end)
  | VObj fs => Ok (field (dec_string (Z.of_nat i)) fs)
  | _ => Ok VUndefined
  end.

(** [s.toLowerCase()] on the ASCII letters, which is all an address has. *)
Definition lower_ascii (c : ascii) : ascii :=
  let n := nat_of_ascii c in
  if (65 <=? n)%nat && (n <=? 90)%nat then ascii_of_nat (n + 32) else c.

Fixpoint toLowerCase (s : string) : string :=
  match s with
  | EmptyString => EmptyString
  | String c r => String (lower_ascii c) (toLowerCase r)
  end.

Definition is_upper (c : ascii) : bool :=
  let n := nat_of_ascii c in (65 <=? n)%nat && (n <=? 90)%nat.

Fixpoint is_lowercase (s : string) : bool :=
  match s with
  | EmptyString => true
  | String c r => negb (is_upper c) && is_lowercase r
  end.

Fixpoint starts_with (p s : string) : bool :=
  match p, s with
  | EmptyString, _ => true
  | String a p', String b s' => Ascii.eqb a b && starts_with p' s'
  | String _ _, EmptyString => false
  end.

Fixpoint drop_chars (n : nat) (s : string) : string :=
  match n, s with
  | O, _ => s
  | S n', String _ r => drop_chars n' r
  | S _, EmptyString => EmptyString
  end.

(** ** Libraries the provider calls

    [Buffer] (package [buffer]), [isUtf8] (package [isutf8]) and
    [TypedDataUtils.sign] (package [eth-sig-util]) are not part of the
    repository.  The provider is modelled over any implementation of them. *)
Class Platform : Type := {
  (** [Buffer.from(s, "hex")]. *)
  buffer_from_hex : string -> list Byte.byte;
  (** [Buffer.from(v)], which throws on what it cannot convert. *)
  buffer_from : value -> res (list Byte.byte);
  (** [buf.toString("hex")]. *)
  buffer_to_hex : list Byte.byte -> string;
  (** [isUtf8(buf)]. *)
  isUtf8 : list Byte.byte -> bool;
  (** ["0x" + TypedDataUtils.sign(JSON.parse(raw), useV4).toString("hex")],
      where parsing and hashing may throw. *)
  typed_data_hash : value -> bool -> res string
}.

(** ** State *)

Inductive outcome : Type :=
| Resolved (v : value)
| Rejected (e : value).

(** How an operation ends: normally, or by throwing. *)
Inductive completion : Type :=
| Done
| Thrown (e : value).

(** What the host channel received. *)
Inductive host_msg : Type :=
| WebkitPost (message : value)
    (** [window.webkit.messageHandlers["ethWeb3"].postMessage(message)] *)
| EthWeb3Post (message : value)
    (** [window["ethWeb3"].postMessage(JSON.stringify(message))] *).

Record config : Type := {
  cfg_address : value;
  cfg_chainId : value;
  cfg_rpcUrl : value;
  cfg_isDebug : value;
  cfg_isProxyRPC : value
}.

(** The fields of a [TrustWeb3Provider].  [callbacks] maps an id to the
    promise whose [resolve]/[reject] pair the stored closure captures. *)
Record provider : Type := {
  address : string;
  selectedAddress : string;
  ready : bool;
  chainId : value;
  networkVersion : string;
  rpcUrl : value;
  isDebug : bool;
  isProxyRPC : bool;
  intIds : gmap Z value;
  callbacks : gmap Z nat;
  wrapResults : gmap Z value
}.

(** [rpc.call(payload)] together with what its continuation captures. *)
Record rpc_call : Type := {
  rpc_payload : obj;
  rpc_promise : nat;
  rpc_wrapResult : value
}.

(** Everything outside the provider object: the promises handed to callers
    (index = identity, [None] = pending) and the order in which they were
    settled, every invocation of a registered callback as
    [(promise, error, data)], the messages posted to the host,
    the upstream calls made, the results of successive [Utils.genId()] calls,
    and the page ([window.frames], origin, icon link). *)
Record world : Type := {
  promises : list (option outcome);
  history : list (nat * outcome);
  settlements : list (nat * value * value);
  host_log : list host_msg;
  rpc_log : list rpc_call;
  clock : nat -> Z;
  ticks : nat;
  frames : list (option provider);
  origin : string;
  icon : string
}.

Abbreviation st := (provider * world)%type.

Definition with_session (this : provider) (a sel : string) (r : bool)
    : provider :=
  {| address := a; selectedAddress := sel; ready := r;
     chainId := chainId this; networkVersion := networkVersion this;
     rpcUrl := rpcUrl this; isDebug := isDebug this;
     isProxyRPC := isProxyRPC this; intIds := intIds this;
     callbacks := callbacks this; wrapResults := wrapResults this |}.

Definition with_chain (this : provider) (c : value) (n : string) (u : value)
    (d px : bool) : provider :=
  {| address := address this; selectedAddress := selectedAddress this;
     ready := ready this; chainId := c; networkVersion := n; rpcUrl := u;
     isDebug := d; isProxyRPC := px; intIds := intIds this;
     callbacks := callbacks this; wrapResults := wrapResults this |}.

Definition with_intIds (this : provider) (m : gmap Z value) : provider :=
  {| address := address this; selectedAddress := selectedAddress this;
     ready := ready this; chainId := chainId this;
     networkVersion := networkVersion this; rpcUrl := rpcUrl this;
     isDebug := isDebug this; isProxyRPC := isProxyRPC this; intIds := m;
     callbacks := callbacks this; wrapResults := wrapResults this |}.

Definition with_callbacks (this : provider) (m : gmap Z nat) : provider :=
  {| address := address this; selectedAddress := selectedAddress this;
     ready := ready this; chainId := chainId this;
     networkVersion := networkVersion this; rpcUrl := rpcUrl this;
     isDebug := isDebug this; isProxyRPC := isProxyRPC this;
     intIds := intIds this; callbacks := m; wrapResults := wrapResults this |}.

Definition with_wrapResults (this : provider) (m : gmap Z value) : provider :=
  {| address := address this; selectedAddress := selectedAddress this;
     ready := ready this; chainId := chainId this;
     networkVersion := networkVersion this; rpcUrl := rpcUrl this;
     isDebug := isDebug this; isProxyRPC := isProxyRPC this;
     intIds := intIds this; callbacks := callbacks this; wrapResults := m |}.

Definition with_promises (w : world) (ps : list (option outcome))
    (hs : list (nat * outcome)) : world :=
  {| promises := ps; history := hs; settlements := settlements w;
     host_log := host_log w;
     rpc_log := rpc_log w; clock := clock w; ticks := ticks w;
     frames := frames w; origin := origin w; icon := icon w |}.

Definition with_settlements (w : world) (ss : list (nat * value * value))
    : world :=
  {| promises := promises w; history := history w; settlements := ss;
     host_log := host_log w;
     rpc_log := rpc_log w; clock := clock w; ticks := ticks w;
     frames := frames w; origin := origin w; icon := icon w |}.

Definition with_host_log (w : world) (l : list host_msg) : world :=
  {| promises := promises w; history := history w;
     settlements := settlements w; host_log := l;
     rpc_log := rpc_log w; clock := clock w; ticks := ticks w;
     frames := frames w; origin := origin w; icon := icon w |}.

Definition with_rpc_log (w : world) (l : list rpc_call) : world :=
  {| promises := promises w; history := history w;
     settlements := settlements w;
     host_log := host_log w; rpc_log := l; clock := clock w; ticks := ticks w;
     frames := frames w; origin := origin w; icon := icon w |}.

Definition with_ticks (w : world) (n : nat) : world :=
  {| promises := promises w; history := history w;
     settlements := settlements w;
     host_log := host_log w; rpc_log := rpc_log w; clock := clock w;
     ticks := n; frames := frames w; origin := origin w; icon := icon w |}.

Definition with_frames (w : world) (fs : list (option provider)) : world :=
  {| promises := promises w; history := history w;
     settlements := settlements w;
     host_log := host_log w; rpc_log := rpc_log w; clock := clock w;
     ticks := ticks w; frames := fs; origin := origin w; icon := icon w |}.

(** *** Promises *)

(** [new Promise(...)]: a fresh pending promise. *)
Definition new_promise (w : world) : nat * world :=
  (length (promises w), with_promises w (promises w ++ [None]) (history w)).

(** [resolve(v)] and [reject(e)] of promise [p]: only the first call of
    either has an effect. *)
Definition settle_promise (p : nat) (o : outcome) (w : world) : world :=
  match promises w !! p with
  | Some None =>
      with_promises w (<[p := Some o]> (promises w)) (history w ++ [(p, o)])
  | _ => w
  end.

Definition resolve (p : nat) (v : value) (w : world) : world :=
  settle_promise p (Resolved v) w.

Definition reject (p : nat) (e : value) (w : world) : world :=
  settle_promise p (Rejected e) w.

(** The closure stored in [callbacks] by [_request]:
    [(error, data) => { if (error) reject(error); else resolve(data); }]. *)
Definition callback (p : nat) (error data : value) (w : world) : world :=
  let w' := with_settlements w (settlements w ++ [(p, error, data)]) in
  if truthy error then reject p error w' else resolve p data w'.

Definition promise_state (w : world) (p : nat) : option outcome :=
  match promises w !! p with
  | Some o => o
  | None => None
  end.

(** How often the settlement function of promise [p] has been invoked. *)
Definition invocations (w : world) (p : nat) : nat :=
  length (List.filter (fun s => Nat.eqb (fst (fst s)) p) (settlements w)).

(** ** [Utils] ([src/src/utils.js]) *)

(** [Utils.genId()]: [new Date().getTime() + Math.floor(Math.random() * 1000)],
    the next value of the [clock]. *)
Definition genId (w : world) : Z * world :=
  (clock w (ticks w), with_ticks w (S (ticks w))).

(** [int.toString(16)]. *)
Definition toString16 (v : value) : string :=
  match v with
  | VNum n => hex_string n
  | _ => to_string v
  end.

Definition intToHex (int : value) : value :=
  match int with
  | VUndefined | VNull => int
  | _ => VStr ("0x" +:+ toString16 int)
  end.

Section Utils.
Context `{Platform}.

(** [Utils.messageToBuffer(message)]. *)
Definition messageToBuffer (message : value) : res (list Byte.byte) :=
  match message with
  | VStr s =>
      if starts_with "0x" s
      then Ok (buffer_from_hex (drop_chars 2 s))
      else buffer_from message
  | _ => buffer_from message
  end.

(** [Utils.bufferToHex(buf)] for a [Buffer] ([Buffer.from] copies it). *)
Definition bufferToHex (buf : list Byte.byte) : string :=
  "0x" +:+ buffer_to_hex buf.

(** [Utils.bufferToHex(message)] for a message value. *)
Definition bufferToHex_value (message : value) : res string :=
  do b <- buffer_from message; Ok ("0x" +:+ buffer_to_hex b).
End Utils.

(** [params.length < 2]. *)
Definition length_lt_2 (params : value) : bool :=
  match get_prop params "length" with
  | Ok (VNum n) => n <? 2
  | _ => false
  end.

(** [Utils.handleSignParams(address, params).data]. *)
Definition handleSignParams (address : string) (params : value) : res value :=
  if negb (truthy params) then Ok (VStr "")
  else if length_lt_2 params then get_index params 0
  else
    do p0 <- get_index params 0;
    match p0 with
    | VStr s =>
        if String.eqb (toLowerCase address) (toLowerCase s)
        then get_index params 1
        else Ok p0
    | _ => Throw TypeError
    end.

(** ** The two registry maps

    [_request] only ever stores under [payload.id] after it has been made a
    number (see [tryIntifyId_id] and [register_eq]), so the maps are keyed by [Z]; a [get],
    [has] or [delete] with a key that is not a number finds nothing, as
    [Map]'s key comparison never equates a number with anything else. *)
Definition map_get {A} (m : gmap Z A) (id : value) : option A :=
  match id with
  | VNum n => m !! n
  | _ => None
  end.

Definition map_set {A} (m : gmap Z A) (id : value) (x : A) : gmap Z A :=
  match id with
  | VNum n => <[n := x]> m
  | _ => m
  end.

Definition map_delete {A} (m : gmap Z A) (id : value) : gmap Z A :=
  match id with
  | VNum n => delete n m
  | _ => m
  end.

Definition map_has {A} (m : gmap Z A) (id : value) : bool :=
  match map_get m id with
  | Some _ => true
  | None => false
  end.

(** [m.get(id)] as a value: [undefined] when there is no entry. *)
Definition get_or_undefined (m : gmap Z value) (id : value) : value :=
  match map_get m id with
  | Some v => v
  | None => VUndefined
  end.

(** ** The id correlator ([IdMapping]) *)

(** Modelled from the spec: [idMapping.tryIntifyId(payload)] of
    [./id_mapping], which is not among the sources.  The spec's
    [normalize]: when the request carries an external id, a fresh
    internal id is minted, the entry [internal -> external] is recorded and
    the request's id is rewritten to the internal id; when it carries none, a
    fresh id is minted and used directly, without an entry.  Ids are minted by
    the provider's only id source, [Utils.genId]; the spec asks for them to be
    fresh, which theorems that need it assume of the [clock]. *)
Definition tryIntifyId (this : provider) (w : world) (payload : obj)
    : provider * world * obj :=
  let '(i, w1) := genId w in
  match field "id" payload with
  | VUndefined => (this, w1, set_field "id" (VNum i) payload)
  | external =>
      (with_intIds this (<[i := external]> (intIds this)), w1,
       set_field "id" (VNum i) payload)
  end.

(** Modelled from the spec: [idMapping.tryPopId(id)] of [./id_mapping].  The
    spec's [resolve_original] removes and returns the external id recorded
    for [id]; for an unknown id it reports "not found" ([undefined]) and the
    caller falls back to [id] itself. *)
Definition tryPopId (this : provider) (id : value) : provider * value :=
  match map_get (intIds this) id with
  | Some external => (with_intIds this (map_delete (intIds this) id), external)
  | None => (this, VUndefined)
  end.

(** [new Error(error)]. *)
Definition new_Error (error : value) : value :=
  match error with
  | VUndefined => VErr None ""
  | _ => VErr None (to_string error)
  end.

(** [error instanceof Error ? error : new Error(error)]. *)
Definition as_Error (error : value) : value :=
  match error with
  | VErr _ _ => error
  | _ => new_Error error
  end.

(** The methods of the dispatch [switch] of [_request]. *)
Inductive route : Type :=
| R_eth_accounts | R_eth_coinbase | R_net_version | R_eth_chainId
| R_eth_sign | R_personal_sign | R_personal_ecRecover
| R_eth_signTypedData_v3 | R_eth_signTypedData | R_eth_signTypedData_v4
| R_eth_sendTransaction | R_eth_requestAccounts | R_wallet_watchAsset
| R_wallet_addEthereumChain | R_wallet_switchEthereumChain
| R_wallet_getPermissions | R_wallet_requestPermissions
| R_unsupported | R_default.

Fixpoint lookup_route (m : string) (t : list (string * route)) : route :=
  match t with
  | [] => R_default
  | (k, r) :: t' => if String.eqb m k then r else lookup_route m t'
  end.

(** [payload.method] inside a template string. *)
Definition unsupported_message (brand : string) (method : value) : string :=
  brand +:+ " does not support calling " +:+ to_string method
        +:+ ". Please use your own solution".

(** What the [then] handler of an upstream call does when the call is
    fulfilled with [response] or fails with [e] ([.catch(reject)] also
    receives what the handler itself throws). *)
Definition rpc_fulfilled (c : rpc_call) (response : value) (w : world) : world :=
  if truthy (rpc_wrapResult c) then resolve (rpc_promise c) response w
  else match get_prop response "result" with
       | Ok r => resolve (rpc_promise c) r w
       | Throw e => reject (rpc_promise c) e w
       end.

Definition rpc_failed (c : rpc_call) (e : value) (w : world) : world :=
  reject (rpc_promise c) e w.

(** A parameter declared as [wrapResult = true]: a call that passes
    [undefined], or nothing, gets [true]. *)
Definition default_true (wrapResult : value) : value :=
  match wrapResult with
  | VUndefined => VBool true
  | _ => wrapResult
  end.

(** The part of [_request] that precedes the [switch], the same in both
    files: the id is normalised, the promise created, a missing id or
    [jsonrpc] filled in, and the call stored in [callbacks] and
    [wrapResults].  Yields the payload as mutated and the new promise. *)
Definition register (this : provider) (w : world) (payload : obj)
    (wrapResult : value) : provider * world * obj * nat :=
  let '(this1, w1, payload1) := tryIntifyId this w payload in
  let '(p, w2) := new_promise w1 in
  let '(w3, payload2) :=
    if negb (truthy (field "id" payload1))
    then let '(i, w') := genId w2 in (w', set_field "id" (VNum i) payload1)
    else (w2, payload1) in
  let payload3 :=
    if negb (truthy (field "jsonrpc" payload2))
    then set_field "jsonrpc" (VStr "2.0") payload2
    else payload2 in
  let this2 :=
    with_callbacks this1 (map_set (callbacks this1) (field "id" payload3) p) in
  let this3 :=
    with_wrapResults this2
      (map_set (wrapResults this2) (field "id" payload3) wrapResult) in
  (this3, w3, payload3, p).

(** ** The provider of [src/src/index.js] *)
Module IndexJs.

Definition route_table : list (string * route) :=
  [ ("eth_accounts", R_eth_accounts); ("eth_coinbase", R_eth_coinbase);
    ("net_version", R_net_version); ("eth_chainId", R_eth_chainId);
    ("eth_sign", R_eth_sign); ("personal_sign", R_personal_sign);
    ("personal_ecRecover", R_personal_ecRecover);
    ("eth_signTypedData_v3", R_eth_signTypedData_v3);
    ("eth_signTypedData", R_eth_signTypedData);
    ("eth_signTypedData_v4", R_eth_signTypedData_v4);
    ("eth_sendTransaction", R_eth_sendTransaction);
    ("eth_requestAccounts", R_eth_requestAccounts);
    ("wallet_watchAsset", R_wallet_watchAsset);
    ("wallet_addEthereumChain", R_wallet_addEthereumChain);
    ("wallet_switchEthereumChain", R_wallet_switchEthereumChain);
    ("wallet_getPermissions", R_wallet_getPermissions);
    ("wallet_requestPermissions", R_wallet_requestPermissions);
    ("eth_newFilter", R_unsupported); ("eth_newBlockFilter", R_unsupported);
    ("eth_newPendingTransactionFilter", R_unsupported);
    ("eth_uninstallFilter", R_unsupported); ("eth_subscribe", R_unsupported) ].

(** The [case] label that [payload.method] matches ([switch] compares with
    [===], so only a string can match). *)
Definition route_of (method : value) : route :=
  match method with
  | VStr m => lookup_route m route_table
  | _ => R_default
  end.

Definition setAddress (this : provider) (addr : value) : res provider :=
  match js_or addr (VStr "") with
  | VStr s =>
      let a := toLowerCase s in Ok (with_session this a a (truthy addr))
  | _ => Throw TypeError
  end.

Definition setConfig (this : provider) (c : config) : res provider :=
  do this1 <- setAddress this (cfg_address c);
  Ok (with_chain this1 (intToHex (cfg_chainId c))
        ("" +:+ to_string (cfg_chainId c)) (cfg_rpcUrl c)
        (truthy (cfg_isDebug c)) (truthy (cfg_isProxyRPC c))).

(** The object before the constructor body has run. *)
Definition blank : provider :=
  {| address := ""; selectedAddress := ""; ready := false;
     chainId := VUndefined; networkVersion := ""; rpcUrl := VUndefined;
     isDebug := false; isProxyRPC := false; intIds := ∅; callbacks := ∅;
     wrapResults := ∅ |}.

(** [new TrustWeb3Provider(config)]; the [connect] event has no listener
    yet. *)
Definition constructor (c : config) : res provider :=
  do this1 <- setConfig blank c;
  Ok (with_wrapResults (with_callbacks (with_intIds this1 ∅) ∅) ∅).

Definition eth_accounts (this : provider) : value :=
  if truthy (VStr (address this)) then VArr [VStr (address this)] else VArr [].

Definition eth_coinbase (this : provider) : value := VStr (address this).

Definition net_version (this : provider) : value := VStr (networkVersion this).

Definition eth_chainId (this : provider) : value := chainId this.

(** [sendError(id, error)]. *)
Definition sendError (this : provider) (w : world) (id error : value) : st :=
  match map_get (callbacks this) id with
  | Some p =>
      (with_callbacks this (map_delete (callbacks this) id),
       callback p (as_Error error) VNull w)
  | None => (this, w)
  end.

Definition allow_list : list string :=
  [ "requestAccounts"; "addEthereumChain"; "switchEthereumChain";
    "getPermissions"; "requestPermissions" ].

Definition allowed (handler : string) : bool :=
  existsb (String.eqb handler) allow_list.

(** The object handed to the host channel. *)
Definition host_message (w : world) (handler : string) (id data : value)
    : host_msg :=
  WebkitPost
    (VObj [ ("dapp", VObj [("origin", VStr (origin w)); ("icon", VStr (icon w))]);
            ("name", VStr handler);
            ("payload", data);
            ("id", VStr ("" +:+ to_string id)) ]).

(** [postMessage(handler, id, data)]. *)
Definition postMessage (this : provider) (w : world) (handler : string)
    (id data : value) : st :=
  if ready this || allowed handler
  then (this, with_host_log w (host_log w ++ [host_message w handler id data]))
  else sendError this w id (ProviderRpcError 4100 "provider is not ready").

(** [result != null && typeof result === "object" && result.jsonrpc &&
    result.result]. *)
Definition envelope_like (result : value) : bool :=
  match result with
  | VUndefined | VNull => false
  | _ =>
      typeof_object result
      && match get_prop result "jsonrpc", get_prop result "result" with
         | Ok j, Ok r => truthy j && truthy r
         | _, _ => false
         end
  end.

(** The object [data] that [sendResponse] builds. *)
Definition response_data (originId result : value) : value :=
  VObj [ ("jsonrpc", VStr "2.0"); ("id", originId);
         ("result",
          if envelope_like result
          then match get_prop result "result" with
               | Ok r => r
               | Throw _ => result
               end
          else result) ].

(** [sendResponse(id, result)] up to and including the branch taken when the
    callback is found; the flag tells whether it was. *)
Definition deliver (this : provider) (w : world) (id result : value)
    : st * bool :=
  let '(this1, popped) := tryPopId this id in
  let originId := js_or popped id in
  let wrapResult := get_or_undefined (wrapResults this1) id in
  let data := response_data originId result in
  match map_get (callbacks this1) id with
  | Some p =>
      ((with_callbacks this1 (map_delete (callbacks this1) id),
        if truthy wrapResult
        then callback p VNull data w
        else callback p VNull result w), true)
  | None => ((this1, w), false)
  end.

(** The loop over [window.frames]: a frame whose provider has the id gets
    [frame.ethereum.sendResponse(id, result)]; a frame without a reachable
    provider ([None]) throws inside the [try] and is skipped. *)
Fixpoint deliver_frames (fs : list (option provider)) (w : world)
    (id result : value) : list (option provider) * world :=
  match fs with
  | [] => ([], w)
  | None :: r =>
      let '(r', w') := deliver_frames r w id result in (None :: r', w')
  | Some fp :: r =>
      let '(fp1, w1) :=
        if map_has (callbacks fp) id
        then fst (deliver fp w id result)
        else (fp, w) in
      let '(r', w') := deliver_frames r w1 id result in (Some fp1 :: r', w')
  end.

(** [sendResponse(id, result)]. *)
Definition sendResponse (this : provider) (w : world) (id result : value) : st :=
  let '((this1, w1), found) := deliver this w id result in
  if found then (this1, w1)
  else
    let '(fs, w2) := deliver_frames (frames w1) w1 id result in
    (this1, with_frames w2 fs).

Definition wallet_rpcCall (this : provider) (w : world) (payload : obj) : st :=
  postMessage this w "rpcCall" (field "id" payload) (VObj payload).

Definition personal_ecRecover (this : provider) (w : world) (payload : obj)
    : st * completion :=
  match get_index (field "params" payload) 1, get_index (field "params" payload) 0 with
  | Ok sig, Ok msg =>
      (postMessage this w "ecRecover" (field "id" payload)
         (VObj [("signature", sig); ("message", msg)]), Done)
  | Throw e, _ | _, Throw e => ((this, w), Thrown e)
  end.

Definition eth_sendTransaction (this : provider) (w : world) (payload : obj)
    : st * completion :=
  match get_index (field "params" payload) 0 with
  | Ok tx => (postMessage this w "signTransaction" (field "id" payload) tx, Done)
  | Throw e => ((this, w), Thrown e)
  end.

Definition eth_requestAccounts (this : provider) (w : world) (payload : obj) : st :=
  postMessage this w "requestAccounts" (field "id" payload) (VObj []).

Definition wallet_watchAsset (this : provider) (w : world) (payload : obj)
    : st * completion :=
  match get_prop (field "params" payload) "options" with
  | Throw e => ((this, w), Thrown e)
  | Ok options =>
      match get_prop options "address", get_prop options "symbol",
            get_prop options "decimals", get_prop options "image" with
      | Ok a, Ok s, Ok d, Ok i =>
          (postMessage this w "watchAsset" (field "id" payload)
             (VObj [ ("type", field "type" payload); ("contract", a);
                     ("symbol", s); ("decimals", js_or d (VNum 0));
                     ("image", js_or i (VStr "")) ]), Done)
      | _, _, _, _ => ((this, w), Thrown TypeError)
      end
  end.

Definition wallet_addEthereumChain (this : provider) (w : world) (payload : obj)
    : st * completion :=
  match get_index (field "params" payload) 0 with
  | Ok c => (postMessage this w "addEthereumChain" (field "id" payload) c, Done)
  | Throw e => ((this, w), Thrown e)
  end.

Definition wallet_switchEthereumChain (this : provider) (w : world)
    (payload : obj) : st * completion :=
  match get_index (field "params" payload) 0 with
  | Ok c => (postMessage this w "switchEthereumChain" (field "id" payload) c, Done)
  | Throw e => ((this, w), Thrown e)
  end.

Definition wallet_getPermissions (this : provider) (w : world) (payload : obj)
    : st :=
  postMessage this w "getPermissions" (field "id" payload) (VObj []).

Definition wallet_requestPermissions (this : provider) (w : world)
    (payload : obj) : st :=
  postMessage this w "requestPermissions" (field "id" payload)
    (field "params" payload).

Section Methods.
Context `{Platform}.

Definition eth_sign (this : provider) (w : world) (payload : obj)
    : st * completion :=
  match handleSignParams (address this) (field "params" payload) with
  | Throw e => ((this, w), Thrown e)
  | Ok message =>
      match messageToBuffer message with
      | Throw e => ((this, w), Thrown e)
      | Ok buffer =>
          let hex := bufferToHex buffer in
          if isUtf8 buffer
          then (postMessage this w "signPersonalMessage" (field "id" payload)
                  (VObj [("data", VStr hex)]), Done)
          else (postMessage this w "signMessage" (field "id" payload)
                  (VObj [("data", VStr hex)]), Done)
      end
  end.

Definition personal_sign (this : provider) (w : world) (payload : obj)
    : st * completion :=
  match handleSignParams (address this) (field "params" payload) with
  | Throw e => ((this, w), Thrown e)
  | Ok message =>
      match messageToBuffer message with
      | Throw e => ((this, w), Thrown e)
      | Ok buffer =>
          if Nat.eqb (length buffer) 0
          then
            match bufferToHex_value message with
            | Throw e => ((this, w), Thrown e)
            | Ok hex =>
                (postMessage this w "signPersonalMessage"
                   (field "id" payload) (VObj [("data", VStr hex)]), Done)
            end
          else
            (postMessage this w "signPersonalMessage" (field "id" payload)
               (VObj [("data", message)]), Done)
      end
  end.

Definition eth_signTypedData (this : provider) (w : world) (payload : obj)
    (useV4 : bool) : st * completion :=
  match get_index (field "params" payload) 1 with
  | Throw e => ((this, w), Thrown e)
  | Ok raw =>
      match typed_data_hash raw useV4 with
      | Throw e => ((this, w), Thrown e)
      | Ok hash =>
          (postMessage this w "signTypedMessage" (field "id" payload)
             (VObj [ ("data", VStr hash); ("raw", raw);
                     ("method", field "method" payload) ]), Done)
      end
  end.

(** The [switch] of [_request], entered with the call registered; [p] is
    the promise under construction. *)
Definition dispatch (this : provider) (w : world) (payload : obj)
    (wrapResult : value) (p : nat) : st * completion :=
  let id := field "id" payload in
  match route_of (field "method" payload) with
  | R_eth_accounts => (sendResponse this w id (eth_accounts this), Done)
  | R_eth_coinbase => (sendResponse this w id (eth_coinbase this), Done)
  | R_net_version => (sendResponse this w id (net_version this), Done)
  | R_eth_chainId => (sendResponse this w id (eth_chainId this), Done)
  | R_eth_sign => eth_sign this w payload
  | R_personal_sign => personal_sign this w payload
  | R_personal_ecRecover => personal_ecRecover this w payload
  | R_eth_signTypedData_v3 => eth_signTypedData this w payload false
  | R_eth_signTypedData | R_eth_signTypedData_v4 =>
      eth_signTypedData this w payload true
  | R_eth_sendTransaction => eth_sendTransaction this w payload
  | R_eth_requestAccounts => (eth_requestAccounts this w payload, Done)
  | R_wallet_watchAsset => wallet_watchAsset this w payload
  | R_wallet_addEthereumChain => wallet_addEthereumChain this w payload
  | R_wallet_switchEthereumChain => wallet_switchEthereumChain this w payload
  | R_wallet_getPermissions => (wallet_getPermissions this w payload, Done)
  | R_wallet_requestPermissions =>
      (wallet_requestPermissions this w payload, Done)
  | R_unsupported =>
      ((this, w),
       Thrown (ProviderRpcError 4200
                 (unsupported_message "MathWallet" (field "method" payload))))
  | R_default =>
      if isProxyRPC this then (wallet_rpcCall this w payload, Done)
      else
        let this1 := with_callbacks this (map_delete (callbacks this) id) in
        let this2 := with_wrapResults this1 (map_delete (wrapResults this1) id) in
        ((this2,
          with_rpc_log w
            (rpc_log w ++ [ {| rpc_payload := payload; rpc_promise := p;
                               rpc_wrapResult := wrapResult |} ])), Done)
  end.

(** The body of [_request], entered with [wrapResult] bound: the new state,
    the promise returned and the payload object as the call leaves it.  What
    the executor throws rejects the promise. *)
Definition _request_body (this : provider) (w : world) (payload : obj)
    (wrapResult : value) : st * nat * obj :=
  let '(this3, w3, payload3, p) := register this w payload wrapResult in
  match dispatch this3 w3 payload3 wrapResult p with
  | (s, Done) => (s, p, payload3)
  | ((this4, w4), Thrown e) => ((this4, reject p e w4), p, payload3)
  end.

(** [_request(payload, wrapResult = true)]. *)
Definition _request (this : provider) (w : world) (payload : obj)
    (wrapResult : value) : st * nat * obj :=
  _request_body this w payload (default_true wrapResult).

(** [request(payload)]. *)
Definition request (this : provider) (w : world) (payload : obj)
    : st * nat * obj :=
  _request this w payload (VBool false).

(** [enable()]. *)
Definition enable (this : provider) (w : world) : st * nat * obj :=
  request this w [("method", VStr "eth_requestAccounts"); ("params", VArr [])].
End Methods.

(** The second argument of [send]: a function (the caller's callback [k]) or
    any other value ([null] when omitted). *)
Inductive send_arg : Type :=
| ArgFunction (k : nat)
| ArgValue (v : value).

(** How [send] ends: it returns [undefined] having chained
    [callbackOrParams(null, data)] on promise [p]; it returns a promise that
    follows [p]; or it throws. *)
Inductive send_result : Type :=
| SendCallback (p k : nat)
| SendPromise (p : nat)
| SendThrows (e : value).

Definition send_error (method : value) : value :=
  VErr None
    ("MathWallet does not support calling " +:+ to_string method
     +:+ " synchronously without a callback. Please provide a callback parameter to call "
     +:+ to_string method +:+ " asynchronously.").

(** What [sendAsync] was given: one payload or an array of them. *)
Inductive async_arg : Type :=
| Single (payload : obj)
| Batch (payloads : list obj).

(** The promise whose settlement reaches the caller's callback. *)
Inductive async_join : Type :=
| One (p : nat)
| All (ps : list nat).

Section EntryPoints.
Context `{Platform}.

(** [send(payloadOrMethod, callbackOrParams = null)]. *)
Definition send (this : provider) (w : world) (payloadOrMethod : value)
    (callbackOrParams : send_arg) : st * send_result :=
  match payloadOrMethod with
  | VStr method =>
      let '(i, w1) := genId w in
      match callbackOrParams with
      | ArgFunction _ => ((this, w1), SendThrows (send_error (VStr method)))
      | ArgValue params =>
          let response :=
            [ ("jsonrpc", VStr "2.0"); ("id", VNum i); ("method", VStr method);
              ("params", js_or params (VArr [])) ] in
          let '(s, p, _) := _request this w1 response (VBool true) in
          (s, SendPromise p)
      end
  | _ =>
      match get_prop payloadOrMethod "id", get_prop payloadOrMethod "method",
            get_prop payloadOrMethod "params" with
      | Ok id, Ok method, Ok params =>
          let '(id1, w1) :=
            if truthy id then (id, w)
            else let '(i, w') := genId w in (VNum i, w') in
          let response :=
            [ ("jsonrpc", VStr "2.0"); ("id", id1);
              ("method", js_or method (VStr ""));
              ("params", js_or params (VArr [])) ] in
          match callbackOrParams with
          | ArgFunction k =>
              let '(s, p, _) := _request this w1 response (VBool true) in
              (s, SendCallback p k)
          | ArgValue _ =>
              ((this, w1), SendThrows (send_error (js_or method (VStr ""))))
          end
      | _, _, _ => ((this, w), SendThrows TypeError)
      end
  end.

(** [payload.map(that._request.bind(that))]: [Array.prototype.map] calls
    its function with the element, the index and the array, so the index
    arrives as [wrapResult]. *)
Fixpoint map_request (this : provider) (w : world) (payloads : list obj)
    (index : nat) : st * list nat :=
  match payloads with
  | [] => ((this, w), [])
  | payload :: rest =>
      let '((this1, w1), p, _) :=
        _request this w payload (VNum (Z.of_nat index)) in
      let '(s, ps) := map_request this1 w1 rest (S index) in
      (s, p :: ps)
  end.

(** [sendAsync(payload, callback)]. *)
Definition sendAsync (this : provider) (w : world) (payload : async_arg)
    : st * async_join :=
  match payload with
  | Batch payloads =>
      let '(s, ps) := map_request this w payloads 0 in (s, All ps)
  | Single payload =>
      let '(s, p, _) := _request this w payload (VBool true) in (s, One p)
  end.
End EntryPoints.

(** *** What the callers observe *)

Fixpoint resolved_values (w : world) (ps : list nat) : option (list value) :=
  match ps with
  | [] => Some []
  | p :: r =>
      match promise_state w p, resolved_values w r with
      | Some (Resolved v), Some vs => Some (v :: vs)
      | _, _ => None
      end
  end.

Fixpoint first_rejection (h : list (nat * outcome)) (ps : list nat)
    : option value :=
  match h with
  | [] => None
  | (p, Rejected e) :: h' =>
      if existsb (Nat.eqb p) ps then Some e else first_rejection h' ps
  | (_, Resolved _) :: h' => first_rejection h' ps
  end.

(** The state of [Promise.all(ps)]. *)
Definition promise_all (w : world) (ps : list nat) : option outcome :=
  match first_rejection (history w) ps with
  | Some e => Some (Rejected e)
  | None =>
      match resolved_values w ps with
      | Some vs => Some (Resolved (VArr vs))
      | None => None
      end
  end.

Definition join_state (w : world) (j : async_join) : option outcome :=
  match j with
  | One p => promise_state w p
  | All ps => promise_all w ps
  end.

(** The arguments with which [sendAsync]'s [callback] is called, once the
    joined promise is settled:
    [.then((data) => callback(null, data)).catch((error) => callback(error, null))]. *)
Definition sendAsync_callback (w : world) (j : async_join)
    : option (value * value) :=
  match join_state w j with
  | Some (Resolved data) => Some (VNull, data)
  | Some (Rejected error) => Some (error, VNull)
  | None => None
  end.

(** The arguments with which the callback given to [send] is called.  On
    rejection the [catch] handler names an undefined variable and the callback
    is never called. *)
Definition send_callback (w : world) (p : nat) : option (value * value) :=
  match promise_state w p with
  | Some (Resolved data) => Some (VNull, data)
  | _ => None
  end.

End IndexJs.

(** ** The provider of [src/unnamed/part_000] *)
Module Part000.

Definition route_table : list (string * route) :=
  [ ("eth_accounts", R_eth_accounts); ("eth_coinbase", R_eth_coinbase);
    ("net_version", R_net_version); ("eth_chainId", R_eth_chainId);
    ("eth_sign", R_eth_sign); ("personal_sign", R_personal_sign);
    ("personal_ecRecover", R_personal_ecRecover);
    ("eth_signTypedData", R_eth_signTypedData);
    ("eth_signTypedData_v3", R_eth_signTypedData_v3);
    ("eth_sendTransaction", R_eth_sendTransaction);
    ("eth_requestAccounts", R_eth_requestAccounts);
    ("wallet_watchAsset", R_wallet_watchAsset);
    ("wallet_addEthereumChain", R_wallet_addEthereumChain);
    ("eth_newFilter", R_unsupported); ("eth_newBlockFilter", R_unsupported);
    ("eth_newPendingTransactionFilter", R_unsupported);
    ("eth_uninstallFilter", R_unsupported); ("eth_subscribe", R_unsupported) ].

Definition route_of (method : value) : route :=
  match method with
  | VStr m => lookup_route m route_table
  | _ => R_default
  end.

Definition setAddress (this : provider) (addr : value) : res provider :=
  match js_or addr (VStr "") with
  | VStr s =>
      Ok (with_session this (toLowerCase s) (selectedAddress this) (truthy addr))
  | _ => Throw TypeError
  end.

Definition setConfig (this : provider) (c : config) : res provider :=
  do this1 <- setAddress this (cfg_address c);
  Ok (with_chain this1 (intToHex (cfg_chainId c))
        ("" +:+ to_string (cfg_chainId c)) (cfg_rpcUrl c)
        (truthy (cfg_isDebug c)) (isProxyRPC this1)).

Definition constructor (c : config) : res provider :=
  do this1 <- setConfig IndexJs.blank c;
  Ok (with_wrapResults (with_callbacks (with_intIds this1 ∅) ∅) ∅).

Definition eth_accounts (this : provider) : value :=
  if truthy (VStr (address this)) then VArr [VStr (address this)] else VArr [].

Definition eth_coinbase (this : provider) : value := VStr (address this).

Definition net_version (this : provider) : value := VStr (networkVersion this).

Definition eth_chainId (this : provider) : value := chainId this.

Definition send_error (method : value) : value :=
  ProviderRpcError 4200
    ("Trust does not support calling " +:+ to_string method
     +:+ " synchronously without a callback. Please provide a callback parameter to call "
     +:+ to_string method +:+ " asynchronously.").

(** [send(payload)]: the response object, or the error thrown. *)
Definition send (this : provider) (payload : obj) : res value :=
  let response r :=
    Ok (VObj [("jsonrpc", VStr "2.0"); ("id", field "id" payload); ("result", r)]) in
  match route_of (field "method" payload) with
  | R_eth_accounts => response (eth_accounts this)
  | R_eth_coinbase => response (eth_coinbase this)
  | R_net_version => response (net_version this)
  | R_eth_chainId => response (eth_chainId this)
  | _ => Throw (send_error (field "method" payload))
  end.

Definition sendError (this : provider) (w : world) (id error : value) : st :=
  match map_get (callbacks this) id with
  | Some p =>
      (with_callbacks this (map_delete (callbacks this) id),
       callback p (as_Error error) VNull w)
  | None => (this, w)
  end.

Definition allow_list : list string := [ "requestAccounts"; "addEthereumChain" ].

Definition allowed (handler : string) : bool :=
  existsb (String.eqb handler) allow_list.

(** The object that is serialised and handed to the host channel. *)
Definition host_message (handler : string) (id data : value) : host_msg :=
  EthWeb3Post (VObj [("name", VStr handler); ("payload", data); ("id", id)]).

Definition postMessage (this : provider) (w : world) (handler : string)
    (id data : value) : st :=
  if ready this || allowed handler
  then (this, with_host_log w (host_log w ++ [host_message handler id data]))
  else sendError this w id (ProviderRpcError 4100 "provider is not ready").

(** [typeof result === "object" && result.jsonrpc && result.result], which
    reads a property of [null] when [result] is [null]. *)
Definition envelope_like (result : value) : res bool :=
  if typeof_object result
  then
    do j <- get_prop result "jsonrpc";
    if truthy j then do r <- get_prop result "result"; Ok (truthy r)
    else Ok false
  else Ok false.

Definition response_data (originId result : value) : res value :=
  do unwrap <- envelope_like result;
  do inner <- (if unwrap : bool then get_prop result "result" else Ok result);
  Ok (VObj [("jsonrpc", VStr "2.0"); ("id", originId); ("result", inner)]).

Definition deliver (this : provider) (w : world) (id result : value)
    : st * completion * bool :=
  let '(this1, popped) := tryPopId this id in
  let originId := js_or popped id in
  let wrapResult := get_or_undefined (wrapResults this1) id in
  match response_data originId result with
  | Throw e => ((this1, w), Thrown e, false)
  | Ok data =>
      match map_get (callbacks this1) id with
      | Some p =>
          ((with_callbacks this1 (map_delete (callbacks this1) id),
            if truthy wrapResult
            then callback p VNull data w
            else callback p VNull result w), Done, true)
      | None => ((this1, w), Done, false)
      end
  end.

(** The loop over [window.frames]; what a frame's [sendResponse] throws is
    caught. *)
Fixpoint deliver_frames (fs : list (option provider)) (w : world)
    (id result : value) : list (option provider) * world :=
  match fs with
  | [] => ([], w)
  | None :: r =>
      let '(r', w') := deliver_frames r w id result in (None :: r', w')
  | Some fp :: r =>
      let '(fp1, w1) :=
        if map_has (callbacks fp) id
        then fst (fst (deliver fp w id result))
        else (fp, w) in
      let '(r', w') := deliver_frames r w1 id result in (Some fp1 :: r', w')
  end.

Definition sendResponse (this : provider) (w : world) (id result : value)
    : st * completion :=
  match deliver this w id result with
  | (s, Thrown e, _) => (s, Thrown e)
  | (s, Done, true) => (s, Done)
  | ((this1, w1), Done, false) =>
      let '(fs, w2) := deliver_frames (frames w1) w1 id result in
      ((this1, with_frames w2 fs), Done)
  end.

Definition personal_ecRecover (this : provider) (w : world) (payload : obj)
    : st * completion :=
  match get_index (field "params" payload) 1, get_index (field "params" payload) 0 with
  | Ok sig, Ok msg =>
      (postMessage this w "ecRecover" (field "id" payload)
         (VObj [("signature", sig); ("message", msg)]), Done)
  | Throw e, _ | _, Throw e => ((this, w), Thrown e)
  end.

Definition eth_signTypedData (this : provider) (w : world) (payload : obj)
    : st * completion :=
  match get_index (field "params" payload) 1 with
  | Ok d =>
      (postMessage this w "signTypedMessage" (field "id" payload)
         (VObj [("data", d)]), Done)
  | Throw e => ((this, w), Thrown e)
  end.

Definition eth_sendTransaction (this : provider) (w : world) (payload : obj)
    : st * completion :=
  match get_index (field "params" payload) 0 with
  | Ok tx => (postMessage this w "signTransaction" (field "id" payload) tx, Done)
  | Throw e => ((this, w), Thrown e)
  end.

Definition eth_requestAccounts (this : provider) (w : world) (payload : obj) : st :=
  postMessage this w "requestAccounts" (field "id" payload) (VObj []).

Definition wallet_watchAsset (this : provider) (w : world) (payload : obj)
    : st * completion :=
  match get_prop (field "params" payload) "options" with
  | Throw e => ((this, w), Thrown e)
  | Ok options =>
      match get_prop options "address", get_prop options "symbol",
            get_prop options "decimals" with
      | Ok a, Ok s, Ok d =>
          (postMessage this w "watchAsset" (field "id" payload)
             (VObj [ ("type", field "type" payload); ("contract", a);
                     ("symbol", s); ("decimals", js_or d (VNum 0)) ]), Done)
      | _, _, _ => ((this, w), Thrown TypeError)
      end
  end.

Definition wallet_addEthereumChain (this : provider) (w : world) (payload : obj)
    : st * completion :=
  match get_index (field "params" payload) 0 with
  | Ok c => (postMessage this w "addEthereumChain" (field "id" payload) c, Done)
  | Throw e => ((this, w), Thrown e)
  end.

Section Methods.
Context `{Platform}.

Definition eth_sign (this : provider) (w : world) (payload : obj)
    : st * completion :=
  match get_index (field "params" payload) 1 with
  | Throw e => ((this, w), Thrown e)
  | Ok message =>
      match messageToBuffer message with
      | Throw e => ((this, w), Thrown e)
      | Ok buffer =>
          let hex := bufferToHex buffer in
          if isUtf8 buffer
          then (postMessage this w "signPersonalMessage" (field "id" payload)
                  (VObj [("data", VStr hex)]), Done)
          else (postMessage this w "signMessage" (field "id" payload)
                  (VObj [("data", VStr hex)]), Done)
      end
  end.

Definition personal_sign (this : provider) (w : world) (payload : obj)
    : st * completion :=
  match get_index (field "params" payload) 0 with
  | Throw e => ((this, w), Thrown e)
  | Ok message =>
      match messageToBuffer message with
      | Throw e => ((this, w), Thrown e)
      | Ok buffer =>
          if Nat.eqb (length buffer) 0
          then
            match bufferToHex_value message with
            | Throw e => ((this, w), Thrown e)
            | Ok hex =>
                (postMessage this w "signPersonalMessage"
                   (field "id" payload) (VObj [("data", VStr hex)]), Done)
            end
          else
            (postMessage this w "signPersonalMessage" (field "id" payload)
               (VObj [("data", message)]), Done)
      end
  end.

Definition dispatch (this : provider) (w : world) (payload : obj)
    (wrapResult : value) (p : nat) : st * completion :=
  let id := field "id" payload in
  match route_of (field "method" payload) with
  | R_eth_accounts => sendResponse this w id (eth_accounts this)
  | R_eth_coinbase => sendResponse this w id (eth_coinbase this)
  | R_net_version => sendResponse this w id (net_version this)
  | R_eth_chainId => sendResponse this w id (eth_chainId this)
  | R_eth_sign => eth_sign this w payload
  | R_personal_sign => personal_sign this w payload
  | R_personal_ecRecover => personal_ecRecover this w payload
  | R_eth_signTypedData | R_eth_signTypedData_v3 =>
      eth_signTypedData this w payload
  | R_eth_sendTransaction => eth_sendTransaction this w payload
  | R_eth_requestAccounts => (eth_requestAccounts this w payload, Done)
  | R_wallet_watchAsset => wallet_watchAsset this w payload
  | R_wallet_addEthereumChain => wallet_addEthereumChain this w payload
  | R_unsupported =>
      ((this, w),
       Thrown (ProviderRpcError 4200
                 (unsupported_message "Trust" (field "method" payload))))
  | _ =>
      let this1 := with_callbacks this (map_delete (callbacks this) id) in
      let this2 := with_wrapResults this1 (map_delete (wrapResults this1) id) in
      ((this2,
        with_rpc_log w
          (rpc_log w ++ [ {| rpc_payload := payload; rpc_promise := p;
                             rpc_wrapResult := wrapResult |} ])), Done)
  end.

Definition _request_body (this : provider) (w : world) (payload : obj)
    (wrapResult : value) : st * nat * obj :=
  let '(this3, w3, payload3, p) := register this w payload wrapResult in
  match dispatch this3 w3 payload3 wrapResult p with
  | (s, Done) => (s, p, payload3)
  | ((this4, w4), Thrown e) => ((this4, reject p e w4), p, payload3)
  end.

(** [_request(payload, wrapResult = true)]. *)
Definition _request (this : provider) (w : world) (payload : obj)
    (wrapResult : value) : st * nat * obj :=
  _request_body this w payload (default_true wrapResult).

Definition request (this : provider) (w : world) (payload : obj)
    : st * nat * obj :=
  _request this w payload (VBool false).
End Methods.

Section EntryPoints.
Context `{Platform}.

Fixpoint map_request (this : provider) (w : world) (payloads : list obj)
    (index : nat) : st * list nat :=
  match payloads with
  | [] => ((this, w), [])
  | payload :: rest =>
      let '((this1, w1), p, _) :=
        _request this w payload (VNum (Z.of_nat index)) in
      let '(s, ps) := map_request this1 w1 rest (S index) in
      (s, p :: ps)
  end.

(** [sendAsync(payload, callback)], as in [index.js]. *)
Definition sendAsync (this : provider) (w : world)
    (payload : IndexJs.async_arg) : st * IndexJs.async_join :=
  match payload with
  | IndexJs.Batch payloads =>
      let '(s, ps) := map_request this w payloads 0 in (s, IndexJs.All ps)
  | IndexJs.Single payload =>
      let '(s, p, _) := _request this w payload (VBool true) in (s, IndexJs.One p)
  end.

Definition enable (this : provider) (w : world) : st * nat * obj :=
  request this w [("method", VStr "eth_requestAccounts"); ("params", VArr [])].
End EntryPoints.

End Part000.

(** ** A platform to run the model on

    A direct implementation of the library calls, used to evaluate the
    provider on concrete requests.  Typed-data hashing is not implemented: it
    throws. *)
Module Sample.

Definition hex_digit (c : ascii) : option N :=
  let n := N_of_ascii c in
  if ((48 <=? n) && (n <=? 57))%N then Some (n - 48)%N
  else if ((97 <=? n) && (n <=? 102))%N then Some (n - 87)%N
  else if ((65 <=? n) && (n <=? 70))%N then Some (n - 55)%N
  else None.

Definition byte_of_N (n : N) : Byte.byte :=
  match Byte.of_N n with
  | Some b => b
  | None => Byte.x00
  end.

(** Pairs of hex digits, up to the first pair that is not one. *)
Fixpoint hex_decode (s : string) : list Byte.byte :=
  match s with
  | String a (String b r) =>
      match hex_digit a, hex_digit b with
      | Some x, Some y => byte_of_N (16 * x + y) :: hex_decode r
      | _, _ => []
      end
  | _ => []
  end.

Definition hex_char (n : N) : ascii :=
  if (n <? 10)%N then ascii_of_N (n + 48) else ascii_of_N (n + 87).

Fixpoint hex_encode (bs : list Byte.byte) : string :=
  match bs with
  | [] => ""
  | b :: r =>
      let n := Byte.to_N b in
      String (hex_char (n / 16)) (String (hex_char (n mod 16)) (hex_encode r))
  end.

Definition in_range (lo hi n : N) : bool := ((lo <=? n) && (n <=? hi))%N.

(** Well-formed UTF-8: shortest forms only, no surrogates, at most U+10FFFF. *)
Fixpoint utf8 (bs : list N) : bool :=
  match bs with
  | [] => true
  | a :: r =>
      if (a <? 128)%N then utf8 r
      else
        match r with
        | b :: r1 =>
            if in_range 194 223 a then in_range 128 191 b && utf8 r1
            else
              match r1 with
              | c :: r2 =>
                  if in_range 224 239 a
                  then
                    (if (a =? 224)%N then in_range 160 191 b
                     else if (a =? 237)%N then in_range 128 159 b
                     else in_range 128 191 b)
                    && in_range 128 191 c && utf8 r2
                  else
                    match r2 with
                    | d :: r3 =>
                        in_range 240 244 a
                        && (if (a =? 240)%N then in_range 144 191 b
                            else if (a =? 244)%N then in_range 128 143 b
                            else in_range 128 191 b)
                        && in_range 128 191 c && in_range 128 191 d && utf8 r3
                    | [] => false
                    end
              | [] => false
              end
        | [] => false
        end
  end.

Fixpoint bytes_of_values (xs : list value) : option (list Byte.byte) :=
  match xs with
  | [] => Some []
  | VNum n :: r =>
      match bytes_of_values r with
      | Some bs => Some (byte_of_N (Z.to_N (n mod 256)) :: bs)
      | None => None
      end
  | _ :: _ => None
  end.

Definition from (v : value) : res (list Byte.byte) :=
  match v with
  | VStr s => Ok (list_byte_of_string s)
  | VArr xs =>
      match bytes_of_values xs with
      | Some bs => Ok bs
      | None => Throw TypeError
      end
  | _ => Throw TypeError
  end.

#[global] Instance platform : Platform := {|
  buffer_from_hex := hex_decode;
  buffer_from := from;
  buffer_to_hex := hex_encode;
  isUtf8 := fun bs => utf8 (map Byte.to_N bs);
  typed_data_hash := fun _ _ => Throw (VErr None "not implemented")
|}.

(** A page whose successive [genId()] results are 1000, 1001, ... *)
Definition page : world :=
  {| promises := []; history := []; settlements := []; host_log := [];
     rpc_log := []; clock := fun n => 1000 + Z.of_nat n; ticks := 0;
     frames := []; origin := "https://dapp.example";
     icon := "https://dapp.example/favicon.ico" |}.

Definition cfg (addr chain : value) : config :=
  {| cfg_address := addr; cfg_chainId := chain; cfg_rpcUrl := VStr "https://rpc";
     cfg_isDebug := VUndefined; cfg_isProxyRPC := VUndefined |}.

(** A provider as the constructor leaves it, for configuration
    [{address, chainId}]. *)
Definition provider_of (addr chain : value) : provider :=
  match IndexJs.constructor (cfg addr chain) with
  | Ok this => this
  | Throw _ => IndexJs.blank
  end.

End Sample.

(** ** Properties stated about the provider *)

(** The session state of the provider. *)
Definition session (this : provider) : string * bool * value * string :=
  (address this, ready this, chainId this, networkVersion this).


(** The four methods answered from the session state. *)
Definition local_value (this : provider) (r : route) : option value :=
  match r with
  | R_eth_accounts =>
      Some (if String.eqb (address this) "" then VArr []
            else VArr [VStr (address this)])
  | R_eth_coinbase => Some (VStr (address this))
  | R_net_version => Some (VStr (networkVersion this))
  | R_eth_chainId => Some (chainId this)
  | _ => None
  end.

(** The reply envelope [{jsonrpc: "2.0", id, result}]. *)
Definition envelope (id result : value) : value :=
  VObj [("jsonrpc", VStr "2.0"); ("id", id); ("result", result)].

(** ** The provider as a state machine *)

Inductive variant : Type :=
| Index    (** [src/src/index.js] *)
| Legacy   (** [src/unnamed/part_000] *).

(** The operations of a provider object. *)
Inductive op : Type :=
| Construct (c : config)
| SetAddress (a : value)
| SetConfig (c : config)
| Request (payload : obj)
| RawRequest (payload : obj) (wrapResult : value)
| Enable
| Send (payloadOrMethod : value) (arg : IndexJs.send_arg)
| SendAsync (payload : IndexJs.async_arg)
| SendResponse (id result : value)
| SendError (id error : value)
| PostMessage (handler : string) (id data : value).

(** The explicit configuration calls. *)
Definition is_configuration (o : op) : bool :=
  match o with
  | Construct _ | SetAddress _ | SetConfig _ => true
  | _ => false
  end.

(** The address an operation supplies, if it is a configuration call. *)
Definition supplied_address (o : op) : value :=
  match o with
  | Construct c | SetConfig c => cfg_address c
  | SetAddress a => a
  | _ => VUndefined
  end.

Definition configure (r : res provider) (s : st) : st * completion :=
  match r with
  | Ok this' => ((this', snd s), Done)
  | Throw e => (s, Thrown e)
  end.

Section Run.
Context `{Platform}.

(** One operation on the provider [fst s] in the page [snd s]. *)
Definition run (v : variant) (o : op) (s : st) : st * completion :=
  let '(this, w) := s in
  match v, o with
  | Index, Construct c => configure (IndexJs.constructor c) s
  | Index, SetAddress a => configure (IndexJs.setAddress this a) s
  | Index, SetConfig c => configure (IndexJs.setConfig this c) s
  | Index, Request payload => (fst (fst (IndexJs.request this w payload)), Done)
  | Index, RawRequest payload wr =>
      (fst (fst (IndexJs._request this w payload wr)), Done)
  | Index, Enable => (fst (fst (IndexJs.enable this w)), Done)
  | Index, Send pm arg =>
      match IndexJs.send this w pm arg with
      | (s', IndexJs.SendThrows e) => (s', Thrown e)
      | (s', _) => (s', Done)
      end
  | Index, SendAsync payload => (fst (IndexJs.sendAsync this w payload), Done)
  | Index, SendResponse id result => (IndexJs.sendResponse this w id result, Done)
  | Index, SendError id error => (IndexJs.sendError this w id error, Done)
  | Index, PostMessage h id data => (IndexJs.postMessage this w h id data, Done)
  | Legacy, Construct c => configure (Part000.constructor c) s
  | Legacy, SetAddress a => configure (Part000.setAddress this a) s
  | Legacy, SetConfig c => configure (Part000.setConfig this c) s
  | Legacy, Request payload => (fst (fst (Part000.request this w payload)), Done)
  | Legacy, RawRequest payload wr =>
      (fst (fst (Part000._request this w payload wr)), Done)
  | Legacy, Enable => (fst (fst (Part000.enable this w)), Done)
  | Legacy, Send pm _ =>
      match get_prop pm "id" with
      | Throw e => (s, Thrown e)
      | Ok _ =>
          match Part000.send this (match pm with VObj fs => fs | _ => [] end) with
          | Ok _ => (s, Done)
          | Throw e => (s, Thrown e)
          end
      end
  | Legacy, SendAsync payload => (fst (Part000.sendAsync this w payload), Done)
  | Legacy, SendResponse id result => Part000.sendResponse this w id result
  | Legacy, SendError id error => (Part000.sendError this w id error, Done)
  | Legacy, PostMessage h id data => (Part000.postMessage this w h id data, Done)
  end.
End Run.

(** The session-state invariant: the address is lower-case and [ready] says
    whether there is one. *)
Definition session_ok (this : provider) : Prop :=
  is_lowercase (address this) = true
  /\ (ready this = true <-> address this <> "").


(** The internal id under which [register] stores a call: the first [genId]
    result, or the second when the first is [0] (which [!payload.id] takes
    for a missing id). *)
Definition reg_id (w : world) : Z :=
  if clock w (ticks w) =? 0 then clock w (S (ticks w)) else clock w (ticks w).

(** ** The readiness gate of both files *)

(** The action names that occur in the [postMessage] calls of [part_000]. *)
Definition legacy_actions : list string :=
  [ "signPersonalMessage"; "signMessage"; "ecRecover"; "signTypedMessage";
    "signTransaction"; "requestAccounts"; "watchAsset"; "addEthereumChain" ].

Definition postMessage_of (v : variant) : provider → world → string → value →
    value → st :=
  match v with
  | Index => IndexJs.postMessage
  | Legacy => Part000.postMessage
  end.

(** The allow-list as the specification gives it. *)
Definition bootstrap_actions : list string :=
  [ "requestAccounts"; "addEthereumChain"; "switchEthereumChain";
    "getPermissions"; "requestPermissions" ].

(** The allow-list of each file's gate: the specification's for [index.js],
    its first two names for [part_000]. *)
Definition gate_allows (v : variant) : list string :=
  match v with
  | Index => bootstrap_actions
  | Legacy => [ "requestAccounts"; "addEthereumChain" ]
  end.

(** No provider of a nested frame has a call stored under [id]. *)
Definition no_frame_owns (w : world) (id : value) : Prop :=
  Forall (fun f => match f with
                   | Some fp => map_get (callbacks fp) id = None
                   | None => True
                   end) (frames w).

(** ** Comparing the two files *)

Section Compare.
Context `{Platform}.

(** The two files behave alike on a request: the promise handed back is
    settled alike and the host channel receives the same messages. *)
Definition same_behaviour (this : provider) (w : world) (payload : obj)
    (wrapResult : value) : Prop :=
  let '(_, w1, p1, _) := IndexJs._request this w payload wrapResult in
  let '(_, w2, p2, _) := Part000._request this w payload wrapResult in
  promise_state w1 p1 = promise_state w2 p2 /\ host_log w1 = host_log w2.
End Compare.

(** ** Reply ids *)

(** The [id] field of the reply with which promise [p] was resolved. *)
Definition reply_id (w : world) (p : nat) : option value :=
  match promise_state w p with
  | Some (Resolved v) =>
      match get_prop v "id" with
      | Ok i => Some i
      | Throw _ => None
      end
  | _ => None
  end.

(** The id a reply is expected to carry: the caller's own, or the generated
    one when the caller supplied none. *)
Definition expected_reply_id (payload : obj) (w : world) : value :=
  match field "id" payload with
  | VUndefined => VNum (reg_id w)
  | external => external
  end.

(** ** Footprints *)

(** [this'] differs from [this] at most in the entries stored under [id]. *)
Definition touches_only (id : value) (this this' : provider) : Prop :=
  forall k, VNum k <> id →
    callbacks this' !! k = callbacks this !! k
    /\ intIds this' !! k = intIds this !! k
    /\ wrapResults this' !! k = wrapResults this !! k.

(** [w'] has the id source and the promises of [w], except that pending
    promises may have been settled. *)
Definition page_kept (w w' : world) : Prop :=
  clock w' = clock w
  /\ ticks w' = ticks w
  /\ length (promises w') = length (promises w)
  /\ (forall q, promises w' !! q = Some None → promises w !! q = Some None).

(** What [sendResponse] hands to the call stored under the internal id [i]:
    the envelope around [result] (shaped by [response_data]) with the
    correlator's id, or the raw result. *)
Definition reply_for (this : provider) (i : Z) (result : value) : value :=
  if truthy (get_or_undefined (wrapResults this) (VNum i))
  then IndexJs.response_data
         (js_or (get_or_undefined (intIds this) (VNum i)) (VNum i)) result
  else result.

(** ** The remaining helpers of [Utils] *)

(** [Utils.intRange(from, to)] on integers:
    [new Array(to - from).fill().map((_, i) => i + from)], empty when
    [from >= to].  [new Array(n)] throws a [RangeError] when [n] is not below
    [2^32]. *)
Definition intRange (from to : Z) : res (list Z) :=
  if to <=? from then Ok []
  else if 2 ^ 32 <=? to - from then Throw RangeError
  else Ok (List.map (fun i => Z.of_nat i + from) (seq 0 (Z.to_nat (to - from)))).

(** [[].concat(...results)]: an array among the arguments contributes its
    elements, any other value contributes itself. *)
Fixpoint concat_spread (results : list value) : list value :=
  match results with
  | [] => []
  | VArr xs :: r => (xs ++ concat_spread r)%list
  | v :: r => v :: concat_spread r
  end.

(** [array.map(func)] from index [i] on: [func] receives the element and
    its index. *)
Fixpoint map_from (func : value -> Z -> value) (i : Z) (array : list value)
    : list value :=
  match array with
  | [] => []
  | x :: r => func x i :: map_from func (i + 1) r
  end.

(** [Utils.flatMap(array, func)]. *)
Definition flatMap (array : list value) (func : value -> Z -> value)
    : list value :=
  concat_spread (map_from func 0 array).

(** What [Number.parseInt] yields: a number, [NaN], or, for digits whose
    value [n] is beyond the safe integers, the double nearest to [n]. *)
Inductive parsed : Type :=
| Parsed (v : value)
| NaN
| Rounded (n : Z).

Definition hex_digit_value (c : ascii) : option Z :=
  let n := Z.of_nat (nat_of_ascii c) in
  if (48 <=? n) && (n <=? 57) then Some (n - 48)
  else if (97 <=? n) && (n <=? 102) then Some (n - 87)
  else if (65 <=? n) && (n <=? 70) then Some (n - 55)
  else None.

(** The value of the longest prefix of hex digits; [None] when it is empty
    ([seen] says that a digit has been read). *)
Fixpoint hex_prefix (s : string) (acc : Z) (seen : bool) : option Z :=
  match s with
  | EmptyString => if seen then Some acc else None
  | String c r =>
      match hex_digit_value c with
      | Some d => hex_prefix r (16 * acc + d) true
      | None => if seen then Some acc else None
      end
  end.

(** The white space [parseInt] skips, among the ASCII characters. *)
Definition is_space (c : ascii) : bool :=
  let n := nat_of_ascii c in
  (Nat.eqb n 32 || ((9 <=? n)%nat && (n <=? 13)%nat))%bool.

Fixpoint skip_space (s : string) : string :=
  match s with
  | String c r => if is_space c then skip_space r else s
  | EmptyString => s
  end.

(** [Number.parseInt(s, 16)]: leading white space, a sign, a [0x] or [0X]
    prefix, then the longest run of hex digits; [None] is [NaN]. *)
Definition parseInt16 (s : string) : option Z :=
  let s1 := skip_space s in
  let '(sign, s2) :=
    match s1 with
    | String c r =>
        if Ascii.eqb c "-" then (-1, r)
        else if Ascii.eqb c "+" then (1, r)
        else (1, s1)
    | EmptyString => (1, s1)
    end in
  let s3 :=
    if starts_with "0x" s2 || starts_with "0X" s2 then drop_chars 2 s2 else s2 in
  match hex_prefix s3 0 false with
  | Some n => Some (sign * n)
  | None => None
  end.

(** [Utils.hexToInt(hexString)]: [Number.parseInt(hexString, 16)], which is
    the value of the digits when that is a safe integer. *)
Definition hexToInt (hexString : value) : parsed :=
  match hexString with
  | VUndefined | VNull => Parsed hexString
  | _ =>
      match parseInt16 (to_string hexString) with
      | Some n => if safe_integer n then Parsed (VNum n) else Rounded n
      | None => NaN
      end
  end.

(** [s.indexOf(needle)]; [None] is [-1]. *)
Fixpoint index_of (needle s : string) : option nat :=
  if starts_with needle s then Some 0%nat
  else match s with
       | EmptyString => None
       | String _ r =>
           match index_of needle r with
           | Some i => Some (S i)
           | None => None
           end
       end.

(** A [<link>] element: what [getAttribute] gives for [rel], [href] and
    [sizes] ([None] is [null]). *)
Record link : Type := {
  link_rel : option string;
  link_href : option string;
  link_sizes : option string
}.

(** The loop of [Utils.getIconLink]: the [{url, sizes}] of every link whose
    [rel] is [icon] or [shortcut icon] and whose [href] is not [null]. *)
Fixpoint favicons (nodeList : list link) : list (string * option string) :=
  match nodeList with
  | [] => []
  | node :: r =>
      match link_rel node, link_href node with
      | Some rel, Some url =>
          if String.eqb rel "icon" || String.eqb rel "shortcut icon"
          then (url, link_sizes node) :: favicons r
          else favicons r
      | _, _ => favicons r
      end
  end.

(** [Utils.getIconLink()] in a page with origin [origin] and links
    [nodeList]. *)
Definition getIconLink (origin : string) (nodeList : list link) : string :=
  match favicons nodeList with
  | [] => origin +:+ "/favicon.ico"
  | (url, _) :: _ =>
      match index_of "://" url with
      | Some (S _) => url
      | _ =>
          origin
          +:+ (match index_of "/" url with Some O => "" | _ => "/" end)
          +:+ url
      end
  end.

(** A link that [getIconLink] takes for an icon. *)
Definition is_favicon (node : link) : bool :=
  match link_rel node, link_href node with
  | Some rel, Some _ => String.eqb rel "icon" || String.eqb rel "shortcut icon"
  | _, _ => false
  end.

(** ** Settlement in either file *)


(** One settlement attempt of [index.js]: [sendResponse(id, result)] or
    [sendError(id, error)]. *)
Inductive settle_op : Type :=
| ByResponse (result : value)
| ByError (error : value).

Definition settle (o : settle_op) (id : value) (s : st) : st :=
  match o with
  | ByResponse result => IndexJs.sendResponse (fst s) (snd s) id result
  | ByError error => IndexJs.sendError (fst s) (snd s) id error
  end.

(** A settled promise of [w] has the same outcome in [w']. *)
Definition outcome_kept (w w' : world) : Prop :=
  forall p o, promise_state w p = Some o → promise_state w' p = Some o.

(** Every call in [callbacks] has its shape flag in [wrapResults]. *)
Definition registry_ok (this : provider) : Prop :=
  forall k, is_Some (callbacks this !! k) → is_Some (wrapResults this !! k).

(** What the environment does to a pending upstream call. *)
Inductive rpc_event : Type :=
| Fulfilled (response : value)
| Failed (e : value).

Definition rpc_settle (c : rpc_call) (ev : rpc_event) (w : world) : world :=
  match ev with
  | Fulfilled response => rpc_fulfilled c response w
  | Failed e => rpc_failed c e w
  end.

(** Every call of [this'] was already a call of [this], with the same shape
    flag. *)
Definition registry_shrinks (this this' : provider) : Prop :=
  forall k, is_Some (callbacks this' !! k) →
    is_Some (callbacks this !! k)
    /\ wrapResults this' !! k = wrapResults this !! k.

(** * Properties *)

(** ** Objects and registration *)

Lemma field_set_field_eq k v (fs : obj) : field k (set_field k v fs) = v.
Proof.
  induction fs as [|[k' v'] r IH]; simpl.
  - by rewrite String.eqb_refl.
  - destruct (String.eqb k k') eqn:E; simpl; rewrite ?String.eqb_refl, ?E; done.
Qed.

Lemma field_set_field_ne k k' v (fs : obj) :
  k ≠ k' → field k (set_field k' v fs) = field k fs.
Proof.
  intros Hne. induction fs as [|[k2 v2] r IH]; simpl.
  - destruct (String.eqb k k') eqn:E; [apply String.eqb_eq in E; done|done].
  - destruct (String.eqb k' k2) eqn:E; simpl.
    + apply String.eqb_eq in E; subst k2.
      destruct (String.eqb k k') eqn:E2; [apply String.eqb_eq in E2; done|done].
    + destruct (String.eqb k k2); done.
Qed.

(** The correlator always leaves a number in [payload.id]. *)
Lemma tryIntifyId_id this w payload :
  field "id" (snd (tryIntifyId this w payload)) = VNum (clock w (ticks w)).
Proof.
  unfold tryIntifyId, genId.
  destruct (field "id" payload); simpl; apply field_set_field_eq.
Qed.

Ltac field_simpl :=
  repeat first [ rewrite field_set_field_eq
               | rewrite field_set_field_ne by discriminate ].

(** What [register] does, field by field. *)
Lemma register_eq this w payload wrapResult :
  exists this3 w3 payload3,
    register this w payload wrapResult = (this3, w3, payload3, length (promises w))
    /\ field "id" payload3 = VNum (reg_id w)
    /\ field "method" payload3 = field "method" payload
    /\ field "params" payload3 = field "params" payload
    /\ callbacks this3 = <[reg_id w := length (promises w)]> (callbacks this)
    /\ wrapResults this3 = <[reg_id w := wrapResult]> (wrapResults this)
    /\ intIds this3 = match field "id" payload with
                      | VUndefined => intIds this
                      | e => <[clock w (ticks w) := e]> (intIds this)
                      end
    /\ session this3 = session this
    /\ isProxyRPC this3 = isProxyRPC this
    /\ promises w3 = (promises w ++ [None])%list
    /\ history w3 = history w
    /\ settlements w3 = settlements w
    /\ host_log w3 = host_log w
    /\ rpc_log w3 = rpc_log w
    /\ frames w3 = frames w.
Proof.
  unfold register, tryIntifyId, genId, new_promise, reg_id.
  set (i := clock w (ticks w)).
  assert (Hid : forall v, field "id" (set_field "id" v payload) = v)
    by (intros; apply field_set_field_eq).
  destruct (field "id" payload) eqn:Hext; simpl; rewrite !Hid; simpl;
    destruct (i =? 0) eqn:Hi; simpl.
  all: match goal with
       | |- context [if negb (truthy (field "jsonrpc" ?pl)) then _ else _] =>
           destruct (negb (truthy (field "jsonrpc" pl))) eqn:Hj
       end.
  all: do 3 eexists; split; [reflexivity|].
  all: simpl; field_simpl; simpl.
  all: repeat split; try done.
Qed.

(** ** Promises *)

(** Proofs about [_request] work on its body, for the flag that the
    parameter default yields. *)
Ltac enter_request wr :=
  unfold IndexJs._request, Part000._request;
  generalize (default_true wr); clear wr; intros wr.

Lemma default_true_truthy wrapResult :
  truthy (default_true wrapResult) = true <-> (wrapResult = VUndefined \/ truthy wrapResult = true).
Proof.
  destruct wrapResult; simpl; split; intros; try tauto; try (by right);
    try (destruct H as [H|H]; done).
Qed.


Lemma settle_pending p o w :
  promises w !! p = Some None →
  promise_state (settle_promise p o w) p = Some o.
Proof.
  intros Hp. unfold settle_promise, promise_state. rewrite Hp. simpl.
  rewrite list_lookup_insert_eq; [done|]. by eapply lookup_lt_Some.
Qed.

Lemma settle_logs p o w :
  host_log (settle_promise p o w) = host_log w
  /\ rpc_log (settle_promise p o w) = rpc_log w
  /\ settlements (settle_promise p o w) = settlements w
  /\ frames (settle_promise p o w) = frames w.
Proof. unfold settle_promise. by destruct (promises w !! p) as [[|]|]. Qed.

Lemma callback_logs p e d w :
  host_log (callback p e d w) = host_log w
  /\ rpc_log (callback p e d w) = rpc_log w
  /\ settlements (callback p e d w) = (settlements w ++ [(p, e, d)])%list
  /\ frames (callback p e d w) = frames w.
Proof.
  unfold callback, reject, resolve.
  destruct (truthy e);
    match goal with |- context [settle_promise ?p ?o ?w] =>
      destruct (settle_logs p o w) as (-> & -> & -> & ->) end; done.
Qed.

Lemma callback_resolves p d w :
  promises w !! p = Some None →
  promise_state (callback p VNull d w) p = Some (Resolved d).
Proof. intros Hp. unfold callback. simpl. by apply settle_pending. Qed.

Lemma callback_rejects p c m d w :
  promises w !! p = Some None →
  promise_state (callback p (VErr c m) d w) p = Some (Rejected (VErr c m)).
Proof. intros Hp. unfold callback. simpl. by apply settle_pending. Qed.

(** ** The response sink of [index.js] *)

Lemma tryPopId_keeps this id :
  callbacks (fst (tryPopId this id)) = callbacks this
  /\ wrapResults (fst (tryPopId this id)) = wrapResults this
  /\ session (fst (tryPopId this id)) = session this
  /\ isProxyRPC (fst (tryPopId this id)) = isProxyRPC this.
Proof. unfold tryPopId. by destruct (map_get (intIds this) id). Qed.

(** With the callback registered, [sendResponse] invokes it once, with the
    envelope or with the raw result, and removes it. *)
Lemma sendResponse_found this w id result p :
  map_get (callbacks this) id = Some p →
  IndexJs.sendResponse this w id result =
    (with_callbacks (fst (tryPopId this id)) (map_delete (callbacks this) id),
     callback p VNull
       (if truthy (get_or_undefined (wrapResults this) id)
        then IndexJs.response_data (js_or (snd (tryPopId this id)) id) result
        else result) w).
Proof.
  intros Hp. unfold IndexJs.sendResponse, IndexJs.deliver.
  destruct (tryPopId_keeps this id) as (Hc & Hw & _).
  destruct (tryPopId this id) as [this1 popped]; simpl in *.
  rewrite Hc, Hw, Hp. by destruct (truthy _).
Qed.

Lemma response_data_plain originId result :
  IndexJs.envelope_like result = false →
  IndexJs.response_data originId result = envelope originId result.
Proof. intros E. unfold IndexJs.response_data. by rewrite E. Qed.


(** The code's four local answers are the ones the specification lists. *)
Lemma local_value_code this :
  local_value this R_eth_accounts = Some (IndexJs.eth_accounts this)
  /\ local_value this R_eth_coinbase = Some (IndexJs.eth_coinbase this)
  /\ local_value this R_net_version = Some (IndexJs.net_version this)
  /\ local_value this R_eth_chainId = Some (IndexJs.eth_chainId this).
Proof.
  unfold local_value, IndexJs.eth_accounts. simpl.
  by destruct (String.eqb (address this) "").
Qed.


Section LocalMethods.
Context `{Platform}.

(** For a local route the [switch] of [_request] is one [sendResponse]. *)
Lemma dispatch_local this w payload wrapResult p v :
  local_value this (IndexJs.route_of (field "method" payload)) = Some v →
  IndexJs.dispatch this w payload wrapResult p =
    (IndexJs.sendResponse this w (field "id" payload) v, Done).
Proof.
  intros Hv. unfold IndexJs.dispatch.
  destruct (local_value_code this) as (Ha & Hb & Hc & Hd).
  destruct (IndexJs.route_of (field "method" payload));
    try solve [simpl in Hv; discriminate]; congruence.
Qed.


End LocalMethods.


(** A flag of [undefined] is the default [true]: the caller gets the
    envelope. *)
Example undefined_flag_gives_envelope :
  let this := Sample.provider_of (VStr "0xabc") (VNum 1) in
  let '(_, w', p, _) :=
    IndexJs._request this Sample.page [("method", VStr "eth_chainId")] VUndefined in
  promise_state w' p = Some (Resolved (envelope (VNum 1000) (VStr "0x1"))).
Proof. vm_compute. reflexivity. Qed.

(** ** Session state *)

Lemma lower_ascii_not_upper c : is_upper (lower_ascii c) = false.
Proof. by destruct c as [[] [] [] [] [] [] [] []]. Qed.

Lemma toLowerCase_is_lowercase s : is_lowercase (toLowerCase s) = true.
Proof.
  induction s as [|c r IH]; simpl; [done|].
  by rewrite lower_ascii_not_upper, IH.
Qed.

Lemma toLowerCase_empty s : toLowerCase s = "" <-> s = "".
Proof. by destruct s. Qed.

Lemma truthy_VStr s : truthy (VStr s) = true <-> s <> "".
Proof.
  simpl. destruct (String.eqb s "") eqn:E; simpl.
  - apply String.eqb_eq in E. split; [done|intros; done].
  - apply String.eqb_neq in E. done.
Qed.

(** What both [setAddress] bodies establish. *)
Lemma setAddress_fields addr s :
  js_or addr (VStr "") = VStr s →
  is_lowercase (toLowerCase s) = true
  /\ (truthy addr = true <-> toLowerCase s <> "")
  /\ (addr = VUndefined → toLowerCase s = "").
Proof.
  intros Hor. split; [apply toLowerCase_is_lowercase|].
  unfold js_or in Hor. destruct (truthy addr) eqn:Ht.
  - subst addr. apply truthy_VStr in Ht. rewrite toLowerCase_empty.
    split; [done|discriminate].
  - injection Hor as <-. simpl. split; [split; [done|intros; done]|done].
Qed.

Ltac crunch_session :=
  repeat match goal with
         | |- context [match ?x with _ => _ end] => destruct x eqn:?; simpl
         end; try done.

Lemma sendError_session this w id error :
  session (fst (IndexJs.sendError this w id error)) = session this.
Proof. unfold IndexJs.sendError. crunch_session. Qed.

Lemma postMessage_session this w h id data :
  session (fst (IndexJs.postMessage this w h id data)) = session this.
Proof.
  unfold IndexJs.postMessage.
  destruct (ready this || IndexJs.allowed h); [done|apply sendError_session].
Qed.

Lemma sendResponse_session this w id result :
  session (fst (IndexJs.sendResponse this w id result)) = session this.
Proof.
  unfold IndexJs.sendResponse, IndexJs.deliver.
  destruct (tryPopId_keeps this id) as (_ & _ & Hs & _).
  destruct (tryPopId this id) as [this1 popped]; simpl in *.
  destruct (map_get (callbacks this1) id); simpl; [done|].
  by destruct (IndexJs.deliver_frames _ _ _ _).
Qed.

Lemma legacy_sendError_session this w id error :
  session (fst (Part000.sendError this w id error)) = session this.
Proof. unfold Part000.sendError. crunch_session. Qed.

Lemma legacy_postMessage_session this w h id data :
  session (fst (Part000.postMessage this w h id data)) = session this.
Proof.
  unfold Part000.postMessage.
  destruct (ready this || Part000.allowed h); [done|apply legacy_sendError_session].
Qed.

Lemma legacy_sendResponse_session this w id result :
  session (fst (fst (Part000.sendResponse this w id result))) = session this.
Proof.
  unfold Part000.sendResponse, Part000.deliver.
  destruct (tryPopId_keeps this id) as (_ & _ & Hs & _).
  destruct (tryPopId this id) as [this1 popped]; simpl in *.
  destruct (Part000.response_data _ _); simpl; [|done].
  destruct (map_get (callbacks this1) id); simpl; [done|].
  by destruct (Part000.deliver_frames _ _ _ _).
Qed.

Section Session.
Context `{Platform}.

Ltac crunch_handler :=
  repeat match goal with
         | |- context [IndexJs.postMessage ?a ?b ?c ?d ?e] =>
             generalize (postMessage_session a b c d e);
             generalize (IndexJs.postMessage a b c d e); intros ? ?
         | |- context [Part000.postMessage ?a ?b ?c ?d ?e] =>
             generalize (legacy_postMessage_session a b c d e);
             generalize (Part000.postMessage a b c d e); intros ? ?
         | |- context [match ?x with _ => _ end] => destruct x eqn:?; simpl
         end; try done.

Lemma dispatch_session this w payload wrapResult p :
  session (fst (fst (IndexJs.dispatch this w payload wrapResult p))) = session this.
Proof.
  unfold IndexJs.dispatch.
  destruct (IndexJs.route_of (field "method" payload)); simpl;
    try apply sendResponse_session; try apply postMessage_session; try done.
  all: unfold IndexJs.eth_sign, IndexJs.personal_sign, IndexJs.personal_ecRecover,
         IndexJs.eth_signTypedData, IndexJs.eth_sendTransaction,
         IndexJs.wallet_watchAsset, IndexJs.wallet_addEthereumChain,
         IndexJs.wallet_switchEthereumChain, IndexJs.wallet_rpcCall.
  all: crunch_handler.
Qed.

Lemma _request_session this w payload wrapResult :
  session (fst (fst (fst (IndexJs._request this w payload wrapResult))))
  = session this.
Proof.
  enter_request wrapResult.
  unfold IndexJs._request_body.
  destruct (register_eq this w payload wrapResult)
    as (this3 & w3 & payload3 & -> & _ & _ & _ & _ & _ & _ & Hs & _).
  pose proof (dispatch_session this3 w3 payload3 wrapResult (length (promises w))) as Hd.
  destruct (IndexJs.dispatch _ _ _ _ _) as [[this4 w4] [|e]]; simpl in *; congruence.
Qed.

Lemma map_request_session payloads : forall this w index,
  session (fst (fst (IndexJs.map_request this w payloads index))) = session this.
Proof.
  induction payloads as [|payload rest IH]; intros this w index; simpl; [done|].
  pose proof (_request_session this w payload (VNum (Z.of_nat index))) as Hr.
  destruct (IndexJs._request _ _ _ _) as [[[this1 w1] p] pl]; simpl in Hr.
  specialize (IH this1 w1 (S index)).
  destruct (IndexJs.map_request _ _ _ _) as [[this2 w2] ps]; simpl in *. congruence.
Qed.

Lemma send_session this w pm arg :
  session (fst (fst (IndexJs.send this w pm arg))) = session this.
Proof.
  unfold IndexJs.send.
  repeat match goal with
         | |- context [IndexJs._request ?a ?b ?c ?d] =>
             generalize (_request_session a b c d);
             generalize (IndexJs._request a b c d); intros [[[? ?] ?] ?] ?
         | |- context [match ?x with _ => _ end] => destruct x eqn:?; simpl in *
         end; try done.
Qed.

Lemma legacy_dispatch_session this w payload wrapResult p :
  session (fst (fst (Part000.dispatch this w payload wrapResult p))) = session this.
Proof.
  unfold Part000.dispatch.
  destruct (Part000.route_of (field "method" payload)); simpl;
    try apply legacy_sendResponse_session; try apply legacy_postMessage_session;
    try done.
  all: unfold Part000.eth_sign, Part000.personal_sign, Part000.personal_ecRecover,
         Part000.eth_signTypedData, Part000.eth_sendTransaction,
         Part000.wallet_watchAsset, Part000.wallet_addEthereumChain.
  all: crunch_handler.
Qed.

Lemma legacy_request_session this w payload wrapResult :
  session (fst (fst (fst (Part000._request this w payload wrapResult))))
  = session this.
Proof.
  enter_request wrapResult.
  unfold Part000._request_body.
  destruct (register_eq this w payload wrapResult)
    as (this3 & w3 & payload3 & -> & _ & _ & _ & _ & _ & _ & Hs & _).
  pose proof (legacy_dispatch_session this3 w3 payload3 wrapResult (length (promises w))) as Hd.
  destruct (Part000.dispatch _ _ _ _ _) as [[this4 w4] [|e]]; simpl in *; congruence.
Qed.

Lemma legacy_map_request_session payloads : forall this w index,
  session (fst (fst (Part000.map_request this w payloads index))) = session this.
Proof.
  induction payloads as [|payload rest IH]; intros this w index; simpl; [done|].
  pose proof (legacy_request_session this w payload (VNum (Z.of_nat index))) as Hr.
  destruct (Part000._request _ _ _ _) as [[[this1 w1] p] pl]; simpl in Hr.
  specialize (IH this1 w1 (S index)).
  destruct (Part000.map_request _ _ _ _) as [[this2 w2] ps]; simpl in *. congruence.
Qed.

(** C9. After the constructor, [setConfig] or [setAddress] has run, the
    address is a lower-case string, empty when no address was supplied, and
    [ready] is true exactly when the address is not empty; every other
    operation of either provider leaves the address, [ready], the chain id
    and the network version as they were, also when it throws. *)
Theorem session_state_invariant v o this w this' w' c :
  run v o (this, w) = ((this', w'), c) →
  if is_configuration o
  then c = Done →
       session_ok this'
       /\ (supplied_address o = VUndefined → address this' = "")
  else session this' = session this.
Proof.
  intros Hrun.
  destruct (is_configuration o) eqn:Hcfg.
  - intros ->.
    destruct v; destruct o; try discriminate; simpl in *.
    all: unfold IndexJs.constructor, IndexJs.setConfig, IndexJs.setAddress,
           Part000.constructor, Part000.setConfig, Part000.setAddress,
           configure, bind in Hrun.
    all: match type of Hrun with
         | context [js_or ?a (VStr "")] =>
             destruct (js_or a (VStr "")) eqn:Hor; simpl in Hrun;
               try discriminate;
             injection Hrun as <- <-; simpl;
             destruct (setAddress_fields _ _ Hor) as (Hl & Hr & Hu);
             unfold session_ok; simpl; by repeat split; try apply Hr
         end.
  - assert (Hthis : this' = fst (fst (run v o (this, w)))) by by rewrite Hrun.
    subst this'. clear Hrun.
    destruct v;
      destruct o as [c0|a|c0|payload|payload wr| |pm arg|payload|id result
                    |id error|h id data]; try discriminate; simpl.
    all: try first
           [ apply _request_session | apply sendResponse_session
           | apply sendError_session | apply postMessage_session
           | apply legacy_request_session | apply legacy_sendError_session
           | apply legacy_postMessage_session | apply legacy_sendResponse_session ].
    + pose proof (send_session this w pm arg) as Hs.
      by destruct (IndexJs.send _ _ _ _) as [[this1 w1] []].
    + unfold IndexJs.sendAsync. destruct payload as [payload|payloads].
      * pose proof (_request_session this w payload (VBool true)).
        by destruct (IndexJs._request _ _ _ _) as [[[? ?] ?] ?].
      * pose proof (map_request_session payloads this w 0%nat).
        by destruct (IndexJs.map_request _ _ _ _) as [[? ?] ?].
    + destruct (get_prop _ _); [|done]. by destruct (Part000.send _ _).
    + unfold Part000.sendAsync. destruct payload as [payload|payloads].
      * pose proof (legacy_request_session this w payload (VBool true)).
        by destruct (Part000._request _ _ _ _) as [[[? ?] ?] ?].
      * pose proof (legacy_map_request_session payloads this w 0%nat).
        by destruct (Part000.map_request _ _ _ _) as [[? ?] ?].
Qed.

End Session.

(** The constructor called with [{address: "0xAbC", chainId: 1}]. *)
Lemma session_state_invariant_witness :
  session_ok (Sample.provider_of (VStr "0xAbC") (VNum 1))
  /\ address (Sample.provider_of (VStr "0xAbC") (VNum 1)) = "0xabc".
Proof.
  split; [|reflexivity].
  apply (session_state_invariant Index
           (Construct (Sample.cfg (VStr "0xAbC") (VNum 1)))
           IndexJs.blank Sample.page
           (Sample.provider_of (VStr "0xAbC") (VNum 1)) Sample.page Done
           eq_refl eq_refl).
Defined.

(** ** The readiness gate *)

Lemma sendError_found this w id error p :
  map_get (callbacks this) id = Some p →
  IndexJs.sendError this w id error =
    (with_callbacks this (map_delete (callbacks this) id),
     callback p (as_Error error) VNull w).
Proof. intros Hp. unfold IndexJs.sendError. by rewrite Hp. Qed.

Lemma in_allow_list h :
  IndexJs.allowed h = true <-> In h bootstrap_actions.
Proof.
  unfold IndexJs.allowed, IndexJs.allow_list, bootstrap_actions.
  rewrite existsb_exists. split.
  - intros (x & Hin & Heq). apply String.eqb_eq in Heq. by subst.
  - intros Hin. exists h. split; [done|apply String.eqb_refl].
Qed.

Lemma legacy_in_allow_list h :
  Part000.allowed h = true <-> In h (gate_allows Legacy).
Proof.
  unfold Part000.allowed, Part000.allow_list, gate_allows.
  rewrite existsb_exists. split.
  - intros (x & Hin & Heq). apply String.eqb_eq in Heq. by subst.
  - intros Hin. exists h. split; [done|apply String.eqb_refl].
Qed.

(** C3, amended. An action posted for a call that is registered and pending.
    In [index.js] the allow-list is requestAccounts, addEthereumChain,
    switchEthereumChain, getPermissions, requestPermissions; in [part_000]
    it is requestAccounts and addEthereumChain only.  If the action's name is
    in the file's allow-list, the message (for [index.js] the object with the
    page's origin and icon, the name, the payload and the id as a string; for
    [part_000] the object with the name, the payload and the id) goes to the
    host whatever [ready] is, and the call stays pending.  If it is not and
    the provider is not ready, the call is rejected with the
    [ProviderRpcError] 4100 "provider is not ready" and the host channel
    receives nothing. *)
Theorem readiness_gate v this w handler id data p :
  map_get (callbacks this) id = Some p →
  promises w !! p = Some None →
  let s' := postMessage_of v this w handler id data in
  let message :=
    match v with
    | Index =>
        WebkitPost
          (VObj [ ("dapp", VObj [ ("origin", VStr (origin w));
                                  ("icon", VStr (icon w)) ]);
                  ("name", VStr handler); ("payload", data);
                  ("id", VStr (to_string id)) ])
    | Legacy =>
        EthWeb3Post
          (VObj [ ("name", VStr handler); ("payload", data); ("id", id) ])
    end in
  (In handler (gate_allows v) →
     s' = (this, with_host_log w (host_log w ++ [message]))
     /\ promise_state (snd s') p = None)
  /\ (~ In handler (gate_allows v) → ready this = false →
        host_log (snd s') = host_log w
        /\ promise_state (snd s') p =
             Some (Rejected (ProviderRpcError 4100 "provider is not ready"))).
Proof.
  intros Hcb Hpend s' message.
  assert (Hallow : match v with
                   | Index => IndexJs.allowed handler
                   | Legacy => Part000.allowed handler
                   end = true <-> In handler (gate_allows v))
    by (destruct v; [apply in_allow_list|apply legacy_in_allow_list]).
  split.
  - intros Hin%Hallow. subst s' message.
    destruct v; simpl in *; unfold IndexJs.postMessage, Part000.postMessage;
      rewrite Hin, orb_true_r; simpl.
    all: split; [done|]. all: unfold promise_state; simpl; by rewrite Hpend.
  - intros Hout Hready.
    assert (Hno : match v with
                  | Index => IndexJs.allowed handler
                  | Legacy => Part000.allowed handler
                  end = false).
    { destruct (match v with
                | Index => IndexJs.allowed handler
                | Legacy => Part000.allowed handler
                end) eqn:E; [|done]. exfalso. by apply Hout, Hallow. }
    subst s'.
    destruct v; simpl in *; unfold IndexJs.postMessage, Part000.postMessage,
      Part000.sendError; rewrite Hno, Hready; simpl.
    + rewrite (sendError_found _ _ _ _ _ Hcb). simpl.
      destruct (callback_logs p (ProviderRpcError 4100 "provider is not ready")
                  VNull w) as (-> & _).
      split; [done|]. by apply callback_rejects.
    + rewrite Hcb. simpl.
      destruct (callback_logs p (ProviderRpcError 4100 "provider is not ready")
                  VNull w) as (-> & _).
      split; [done|]. by apply callback_rejects.
Qed.

(** A provider without address, one registered call, and the actions
    [signTransaction] (gated) and [requestAccounts] (allow-listed), in
    [part_000]. *)
Lemma readiness_gate_witness :
  let this :=
    with_callbacks (Sample.provider_of VUndefined (VNum 1)) {[ 1000 := 0%nat ]} in
  let w := with_promises Sample.page [None] [] in
  (host_log (snd (Part000.postMessage this w "signTransaction" (VNum 1000) (VObj [])))
     = []
   /\ promise_state
        (snd (Part000.postMessage this w "signTransaction" (VNum 1000) (VObj []))) 0
      = Some (Rejected (ProviderRpcError 4100 "provider is not ready")))
  /\ host_log (snd (Part000.postMessage this w "requestAccounts"
                      (VNum 1000) (VObj [])))
     = [ EthWeb3Post (VObj [ ("name", VStr "requestAccounts");
                             ("payload", VObj []); ("id", VNum 1000) ]) ].
Proof.
  intros this w.
  pose proof (readiness_gate Legacy this w "signTransaction" (VNum 1000) (VObj [])
                0%nat eq_refl eq_refl) as T1.
  pose proof (readiness_gate Legacy this w "requestAccounts" (VNum 1000) (VObj [])
                0%nat eq_refl eq_refl) as T2.
  simpl in T1, T2.
  split.
  - apply T1; [|reflexivity].
    intros Hin. repeat (destruct Hin as [Hin|Hin]; [discriminate Hin|]). exact Hin.
  - destruct T2 as [T2 _]. destruct T2 as [-> _]; [|reflexivity].
    simpl. tauto.
Defined.

(** C3 as first stated fails in [part_000]: its gate lists two names, so
    [switchEthereumChain], which the claim's allow-list has, is refused when
    the provider is not ready. *)
Lemma legacy_gate_refuses_switch_chain :
  let this :=
    with_callbacks (Sample.provider_of VUndefined (VNum 1)) {[ 1000 := 0%nat ]} in
  let w := with_promises Sample.page [None] [] in
  let s' :=
    Part000.postMessage this w "switchEthereumChain" (VNum 1000)
      (VObj [("chainId", VStr "0x38")]) in
  In "switchEthereumChain" bootstrap_actions
  /\ ready this = false
  /\ host_log (snd s') = []
  /\ promise_state (snd s') 0 =
       Some (Rejected (ProviderRpcError 4100 "provider is not ready")).
Proof. split; [simpl; tauto|]. vm_compute. done. Qed.

Lemma deliver_host_log this w id result :
  host_log (snd (fst (IndexJs.deliver this w id result))) = host_log w
  /\ rpc_log (snd (fst (IndexJs.deliver this w id result))) = rpc_log w.
Proof.
  unfold IndexJs.deliver. destruct (tryPopId this id) as [this1 popped].
  destruct (map_get (callbacks this1) id); simpl; [|done].
  destruct (truthy _);
    match goal with |- context [callback ?p ?e ?d ?w0] =>
      by destruct (callback_logs p e d w0) as (-> & -> & _) end.
Qed.

Lemma deliver_frames_host_log fs : forall w id result,
  host_log (snd (IndexJs.deliver_frames fs w id result)) = host_log w
  /\ rpc_log (snd (IndexJs.deliver_frames fs w id result)) = rpc_log w.
Proof.
  induction fs as [|[fp|] r IH]; intros w id result; simpl; [done| |].
  - destruct (map_has (callbacks fp) id).
    + destruct (deliver_host_log fp w id result) as [Hh Hr].
      destruct (IndexJs.deliver fp w id result) as [[fp1 w1] b]; simpl in *.
      destruct (IH w1 id result) as [Hh' Hr'].
      destruct (IndexJs.deliver_frames r w1 id result); simpl in *.
      split; congruence.
    + destruct (IH w id result) as [Hh' Hr'].
      by destruct (IndexJs.deliver_frames r w id result).
  - destruct (IH w id result) as [Hh' Hr'].
    by destruct (IndexJs.deliver_frames r w id result).
Qed.

Lemma sendResponse_host_log this w id result :
  host_log (snd (IndexJs.sendResponse this w id result)) = host_log w
  /\ rpc_log (snd (IndexJs.sendResponse this w id result)) = rpc_log w.
Proof.
  unfold IndexJs.sendResponse.
  destruct (deliver_host_log this w id result) as [Hh Hr].
  destruct (IndexJs.deliver this w id result) as [[this1 w1] []]; simpl in *;
    [done|].
  destruct (deliver_frames_host_log (frames w1) w1 id result) as [Hh' Hr'].
  destruct (IndexJs.deliver_frames _ _ _ _); simpl in *. split; congruence.
Qed.

Lemma legacy_deliver_host_log this w id result :
  host_log (snd (fst (fst (Part000.deliver this w id result)))) = host_log w.
Proof.
  unfold Part000.deliver. destruct (tryPopId this id) as [this1 popped].
  destruct (Part000.response_data _ _); simpl; [|done].
  destruct (map_get (callbacks this1) id); simpl; [|done].
  destruct (truthy _);
    match goal with |- context [callback ?p ?e ?d ?w0] =>
      by destruct (callback_logs p e d w0) as (-> & _) end.
Qed.

Lemma legacy_deliver_frames_host_log fs : forall w id result,
  host_log (snd (Part000.deliver_frames fs w id result)) = host_log w.
Proof.
  induction fs as [|[fp|] r IH]; intros w id result; simpl; [done| |].
  - destruct (map_has (callbacks fp) id).
    + pose proof (legacy_deliver_host_log fp w id result) as Hh.
      destruct (Part000.deliver fp w id result) as [[[fp1 w1] c] b]; simpl in *.
      specialize (IH w1 id result).
      destruct (Part000.deliver_frames r w1 id result); simpl in *. congruence.
    + specialize (IH w id result).
      by destruct (Part000.deliver_frames r w id result).
  - specialize (IH w id result).
    by destruct (Part000.deliver_frames r w id result).
Qed.

Lemma legacy_sendResponse_host_log this w id result :
  host_log (snd (fst (Part000.sendResponse this w id result))) = host_log w.
Proof.
  unfold Part000.sendResponse.
  pose proof (legacy_deliver_host_log this w id result) as Hh.
  destruct (Part000.deliver this w id result) as [[[this1 w1] [|e]] []];
    simpl in *; try done.
  pose proof (legacy_deliver_frames_host_log (frames w1) w1 id result) as Hh'.
  destruct (Part000.deliver_frames _ _ _ _); simpl in *. congruence.
Qed.

Section Gate.
Context `{Platform}.

(** Every [postMessage] call of [part_000]'s dispatcher names one of
    [legacy_actions]; the other branches do not touch the host channel. *)
Lemma legacy_dispatch_posts this w payload wrapResult p :
  (exists h id data,
      In h legacy_actions
      /\ Part000.dispatch this w payload wrapResult p
         = (Part000.postMessage this w h id data, Done))
  \/ host_log (snd (fst (Part000.dispatch this w payload wrapResult p)))
     = host_log w.
Proof.
  unfold Part000.dispatch.
  destruct (Part000.route_of (field "method" payload)); simpl;
    try (right; apply legacy_sendResponse_host_log); try (by right).
  all: unfold Part000.eth_sign, Part000.personal_sign, Part000.personal_ecRecover,
         Part000.eth_signTypedData, Part000.eth_sendTransaction,
         Part000.wallet_watchAsset, Part000.wallet_addEthereumChain,
         Part000.eth_requestAccounts.
  all: repeat match goal with
              | |- context [match ?x with _ => _ end] => destruct x eqn:?; simpl
              end; try (by right).
  all: left; do 3 eexists; (split; [|reflexivity]); simpl; tauto.
Qed.

End Gate.

(** Scenario C: not ready, [eth_sendTransaction] is rejected at once with code
    4100 and the host channel stays empty. *)
Example scenario_C :
  let this := Sample.provider_of VUndefined (VNum 1) in
  let payload := [("method", VStr "eth_sendTransaction"); ("params", VArr [VObj []])] in
  let '(_, w', p, _) := IndexJs.request this Sample.page payload in
  promise_state w' p = Some (Rejected (ProviderRpcError 4100 "provider is not ready"))
  /\ host_log w' = [].
Proof. vm_compute. done. Qed.

(** ** Unsupported methods *)

Section Unsupported.
Context `{Platform}.

(** A filter or subscription method rejects the promise with code 4200
    before [_request] returns and reaches neither backend; the entries made
    for the call in [callbacks] and [wrapResults] are still there. *)
Lemma unsupported_rejects_keeps_entry this w payload wrapResult this' w' p payload' :
  IndexJs.route_of (field "method" payload) = R_unsupported →
  IndexJs._request this w payload wrapResult = (this', w', p, payload') →
  promise_state w' p =
    Some (Rejected (ProviderRpcError 4200
                      (unsupported_message "MathWallet" (field "method" payload))))
  /\ host_log w' = host_log w
  /\ rpc_log w' = rpc_log w
  /\ field "id" payload' = VNum (reg_id w)
  /\ callbacks this' !! reg_id w = Some p
  /\ wrapResults this' !! reg_id w = Some (default_true wrapResult).
Proof.
  enter_request wrapResult.
  intros Hroute Hreq. unfold IndexJs._request_body in Hreq.
  destruct (register_eq this w payload wrapResult)
    as (this3 & w3 & payload3 & Hreg & Hid & Hm & _ & Hcb & Hwr & _ & _ & _
        & Hps & _ & _ & Hh & Hr & _).
  rewrite Hreg in Hreq. unfold IndexJs.dispatch in Hreq.
  rewrite Hm, Hroute in Hreq. injection Hreq as <- <- <- <-.
  assert (Hpend : promises w3 !! length (promises w) = Some None).
  { rewrite Hps, lookup_app_r by lia. by rewrite Nat.sub_diag. }
  unfold reject. rewrite settle_pending by done.
  match goal with |- context [settle_promise ?p0 ?o ?w0] =>
    destruct (settle_logs p0 o w0) as (-> & -> & _) end.
  rewrite Hcb, Hwr, !lookup_insert_eq. done.
Qed.

(** The fallback branch, by contrast, removes both entries before it hands
    the call to the upstream client. *)
Lemma upstream_route_unregisters this w payload wrapResult this' w' p payload' :
  IndexJs.route_of (field "method" payload) = R_default →
  isProxyRPC this = false →
  IndexJs._request this w payload wrapResult = (this', w', p, payload') →
  callbacks this' !! reg_id w = None
  /\ wrapResults this' !! reg_id w = None
  /\ rpc_log w' = (rpc_log w ++ [ {| rpc_payload := payload'; rpc_promise := p;
                                     rpc_wrapResult := default_true wrapResult |} ])%list
  /\ host_log w' = host_log w
  /\ promise_state w' p = None.
Proof.
  enter_request wrapResult.
  intros Hroute Hproxy Hreq. unfold IndexJs._request_body in Hreq.
  destruct (register_eq this w payload wrapResult)
    as (this3 & w3 & payload3 & Hreg & Hid & Hm & _ & Hcb & Hwr & _ & _ & Hpx
        & Hps & _ & _ & Hh & Hr & _).
  rewrite Hreg in Hreq. unfold IndexJs.dispatch in Hreq.
  rewrite Hm, Hroute, Hpx, Hproxy, Hid in Hreq. injection Hreq as <- <- <- <-.
  simpl. rewrite Hcb, Hwr, !lookup_delete_eq, Hr, Hh.
  repeat split; try done.
  unfold promise_state. simpl. rewrite Hps, lookup_app_r by lia.
  by rewrite Nat.sub_diag.
Qed.

End Unsupported.

(** C4 (the code departs from it). [request({method: "eth_subscribe"})] is
    rejected at once with code 4200, and neither backend is contacted, but
    [callbacks] and [wrapResults] still hold the entry made for the call
    under [payload.id]. *)
Theorem unsupported_method_keeps_registry_entry :
  let this := Sample.provider_of (VStr "0xabc") (VNum 1) in
  let payload := [("method", VStr "eth_subscribe")] in
  let '(this', w', p, payload') := IndexJs.request this Sample.page payload in
  promise_state w' p =
    Some (Rejected (ProviderRpcError 4200
      "MathWallet does not support calling eth_subscribe. Please use your own solution"))
  /\ host_log w' = [] /\ rpc_log w' = []
  /\ map_get (callbacks this') (field "id" payload') = Some p
  /\ map_get (wrapResults this') (field "id" payload') = Some (VBool false).
Proof. vm_compute. done. Qed.

(** ** Settling twice, settling the unknown *)

Lemma deliver_frames_not_owned fs : forall w id result,
  Forall (fun f => match f with
                   | Some fp => map_get (callbacks fp) id = None
                   | None => True
                   end) fs →
  IndexJs.deliver_frames fs w id result = (fs, w).
Proof.
  induction fs as [|[fp|] r IH]; intros w id result Hall; simpl; [done| |];
    inversion Hall as [|? ? Hhd Htl]; subst.
  - unfold map_has. rewrite Hhd. by rewrite IH.
  - by rewrite IH.
Qed.

Lemma with_frames_same w : with_frames w (frames w) = w.
Proof. by destruct w. Qed.

(** In [index.js], [sendResponse] for an id without a pending call, here or
    in a nested frame, calls nothing and changes neither the page nor the two
    registry maps, whatever the result, [null] included; [sendError] for such
    an id changes nothing at all. *)
Lemma unknown_settlement_is_noop this w id result error :
  map_get (callbacks this) id = None →
  no_frame_owns w id →
  snd (IndexJs.sendResponse this w id result) = w
  /\ callbacks (fst (IndexJs.sendResponse this w id result)) = callbacks this
  /\ wrapResults (fst (IndexJs.sendResponse this w id result)) = wrapResults this
  /\ IndexJs.sendError this w id error = (this, w).
Proof.
  intros Hnone Hframes. unfold IndexJs.sendResponse, IndexJs.deliver, IndexJs.sendError.
  destruct (tryPopId_keeps this id) as (Hc & Hw & _).
  destruct (tryPopId this id) as [this1 popped]; simpl in *.
  rewrite Hc, Hnone. simpl.
  rewrite (deliver_frames_not_owned _ _ _ _ Hframes). simpl.
  by rewrite with_frames_same.
Qed.

(** Whatever the nested frames hold, such a [sendResponse] leaves the two
    registry maps of this provider as they were. *)
Lemma unknown_settlement_keeps_maps this w id result :
  map_get (callbacks this) id = None →
  callbacks (fst (IndexJs.sendResponse this w id result)) = callbacks this
  /\ wrapResults (fst (IndexJs.sendResponse this w id result)) = wrapResults this.
Proof.
  intros Hnone. unfold IndexJs.sendResponse, IndexJs.deliver.
  destruct (tryPopId_keeps this id) as (Hc & Hw & _).
  destruct (tryPopId this id) as [this1 popped]; simpl in *.
  rewrite Hc, Hnone. simpl.
  by destruct (IndexJs.deliver_frames _ _ _ _).
Qed.

(** Once [sendResponse] or [sendError] has found the callback, the id has no
    entry in [callbacks] any more. *)
Lemma settled_call_is_removed this w id result error p :
  map_get (callbacks this) id = Some p →
  map_get (callbacks (fst (IndexJs.sendResponse this w id result))) id = None
  /\ map_get (callbacks (fst (IndexJs.sendError this w id error))) id = None.
Proof.
  intros Hp. rewrite (sendResponse_found _ _ _ _ _ Hp), (sendError_found _ _ _ _ _ Hp).
  destruct id; try discriminate. simpl. by rewrite lookup_delete_eq.
Qed.

(** A second [sendResponse] for the same id does not invoke the settlement
    function again. *)
Lemma second_settlement_is_noop this w id r1 r2 p :
  map_get (callbacks this) id = Some p →
  no_frame_owns w id →
  let '(this1, w1) := IndexJs.sendResponse this w id r1 in
  invocations w1 p = S (invocations w p)
  /\ snd (IndexJs.sendResponse this1 w1 id r2) = w1.
Proof.
  intros Hp Hframes.
  destruct (settled_call_is_removed this w id r1 VNull p Hp) as [Hgone _].
  rewrite (sendResponse_found _ _ _ _ _ Hp) in *. simpl in *.
  match goal with |- context [callback ?p ?e ?d w] =>
    destruct (callback_logs p e d w) as (_ & _ & Hs & Hf);
    set (w1 := callback p e d w) in * end.
  split.
  - unfold invocations. rewrite Hs, List.filter_app, List.length_app. simpl.
    rewrite Nat.eqb_refl. simpl. lia.
  - apply unknown_settlement_is_noop with (error := VNull); [done|].
    unfold no_frame_owns. by rewrite Hf.
Qed.

(** C2 (the code departs from it). In [part_000], [sendResponse(id, null)]
    throws a [TypeError] for every id, registered or not: the test
    [typeof result === "object" && result.jsonrpc] reads a property of
    [null].  No settlement function is invoked and the two registry maps are
    unchanged, but the call does not return normally. *)
Theorem legacy_sendResponse_null_throws this w id :
  snd (Part000.sendResponse this w id VNull) = Thrown TypeError
  /\ snd (fst (Part000.sendResponse this w id VNull)) = w
  /\ callbacks (fst (fst (Part000.sendResponse this w id VNull))) = callbacks this
  /\ wrapResults (fst (fst (Part000.sendResponse this w id VNull))) = wrapResults this.
Proof.
  unfold Part000.sendResponse, Part000.deliver.
  destruct (tryPopId_keeps this id) as (Hc & Hw & _).
  destruct (tryPopId this id) as [this1 popped]; simpl in *. done.
Qed.

(** ** Result shape *)

Section Shape.
Context `{Platform}.

(** [request] registers the call with [wrapResult = false]; [sendAsync] with
    one payload and [send] register it with [true]. *)
Lemma entry_points_shape this w payload :
  IndexJs.request this w payload = IndexJs._request this w payload (VBool false)
  /\ IndexJs.sendAsync this w (IndexJs.Single payload)
     = (fst (fst (IndexJs._request this w payload (VBool true))),
        IndexJs.One (snd (fst (IndexJs._request this w payload (VBool true))))).
Proof.
  split; [done|]. unfold IndexJs.sendAsync.
  by destruct (IndexJs._request _ _ _ _) as [[[? ?] ?] ?].
Qed.

(** For an array, [sendAsync] registers the element at index [k] with
    [wrapResult = k]. *)
Lemma batch_shape_is_index this w payload rest k :
  IndexJs.map_request this w (payload :: rest) k =
    let '((this1, w1), p, _) := IndexJs._request this w payload (VNum (Z.of_nat k)) in
    let '(s, ps) := IndexJs.map_request this1 w1 rest (S k) in
    (s, p :: ps).
Proof. done. Qed.

End Shape.

(** C10 (the code departs from it). [sendAsync] with the array of two
    [eth_chainId] payloads registers them with [wrapResult] 0 and 1, the
    indices [Array.prototype.map] passes along: the callback receives the
    bare ["0x1"] for the first payload and the envelope only for the
    second. *)
Theorem batch_sendAsync_first_reply_is_bare :
  let this := Sample.provider_of (VStr "0xabc") (VNum 1) in
  let batch :=
    IndexJs.Batch [ [("method", VStr "eth_chainId")];
                    [("method", VStr "eth_chainId")] ] in
  let '((this', w'), j) := IndexJs.sendAsync this Sample.page batch in
  IndexJs.sendAsync_callback w' j
    = Some (VNull, VArr [VStr "0x1"; envelope (VNum 1001) (VStr "0x1")])
  /\ wrapResults this' !! 1000 = Some (VNum 0)
  /\ wrapResults this' !! 1001 = Some (VNum 1).
Proof. vm_compute. done. Qed.

(** The same payload sent alone gets the envelope. *)
Example single_sendAsync_reply_is_envelope :
  let this := Sample.provider_of (VStr "0xabc") (VNum 1) in
  let '((this', w'), j) :=
    IndexJs.sendAsync this Sample.page
      (IndexJs.Single [("method", VStr "eth_chainId")]) in
  IndexJs.sendAsync_callback w' j = Some (VNull, envelope (VNum 1000) (VStr "0x1")).
Proof. vm_compute. done. Qed.

(** ** Response shaping *)

(** What [sendResponse] hands to a pending call: the envelope with the
    correlator's id, around the inner result of a non-null object whose
    [jsonrpc] and [result] are both truthy and around the raw result
    otherwise, when the call expects an envelope; the raw result when it does
    not. *)
Lemma response_shaping this w id result p :
  map_get (callbacks this) id = Some p →
  promises w !! p = Some None →
  promise_state (snd (IndexJs.sendResponse this w id result)) p =
    Some (Resolved
            (if truthy (get_or_undefined (wrapResults this) id)
             then envelope (js_or (snd (tryPopId this id)) id)
                    (if IndexJs.envelope_like result
                     then match get_prop result "result" with
                          | Ok r => r
                          | Throw _ => result
                          end
                     else result)
             else result)).
Proof.
  intros Hp Hpend. rewrite (sendResponse_found _ _ _ _ _ Hp). simpl.
  by rewrite callback_resolves.
Qed.

(** An object with truthy [jsonrpc] and [result] is unwrapped. *)
Lemma envelope_is_unwrapped fs :
  truthy (field "jsonrpc" fs) = true → truthy (field "result" fs) = true →
  forall originId,
    IndexJs.response_data originId (VObj fs) = envelope originId (field "result" fs).
Proof.
  intros Hj Hr originId. unfold IndexJs.response_data, IndexJs.envelope_like.
  simpl. by rewrite Hj, Hr.
Qed.

(** A value that is not an object, or an object without [jsonrpc] or
    without [result], is used as it is. *)
Lemma non_envelope_is_kept originId result :
  (typeof_object result = false
   \/ get_prop result "jsonrpc" = Ok VUndefined
   \/ get_prop result "result" = Ok VUndefined) →
  IndexJs.response_data originId result = envelope originId result.
Proof.
  intros Hcase. apply response_data_plain. unfold IndexJs.envelope_like.
  destruct result; try done; simpl in *.
  destruct Hcase as [Ht|[Hj|Hr]]; [done| |].
  - injection Hj as ->. done.
  - injection Hr as ->. simpl. apply andb_false_r.
Qed.

(** C6 (the code departs from it). A pending call that expects an envelope,
    stored under id 1000 and answered by the host with the envelope
    [{jsonrpc: "2.0", id: 1000, result: false}]: the inner [false] is not
    unwrapped, the caller's reply carries the whole object as its result. *)
Theorem falsy_inner_result_is_not_unwrapped :
  let this :=
    with_wrapResults
      (with_callbacks (Sample.provider_of (VStr "0xabc") (VNum 1))
         {[ 1000 := 0%nat ]})
      {[ 1000 := VBool true ]} in
  let w := with_promises Sample.page [None] [] in
  let raw := VObj [("jsonrpc", VStr "2.0"); ("id", VNum 1000); ("result", VBool false)] in
  let w' := snd (IndexJs.sendResponse this w (VNum 1000) raw) in
  promise_state w' 0 = Some (Resolved (envelope (VNum 1000) raw))
  /\ promise_state w' 0 <> Some (Resolved (envelope (VNum 1000) (VBool false))).
Proof. vm_compute. split; [reflexivity|discriminate]. Qed.

(** ** Signing methods *)



Section Signing.
Context `{Platform}.


End Signing.


(** ** The two files compared *)

Lemma legacy_response_data_eq originId result :
  result <> VNull →
  Part000.response_data originId result
  = Ok (IndexJs.response_data originId result).
Proof.
  intros Hnn. unfold Part000.response_data, Part000.envelope_like,
    IndexJs.response_data, IndexJs.envelope_like.
  destruct result; try done; simpl.
  destruct (truthy (field "jsonrpc" fs)); simpl; [|done].
  by destruct (truthy (field "result" fs)).
Qed.

Lemma legacy_deliver_eq this w id result :
  result <> VNull →
  Part000.deliver this w id result
  = (fst (IndexJs.deliver this w id result), Done,
     snd (IndexJs.deliver this w id result)).
Proof.
  intros Hnn. unfold Part000.deliver, IndexJs.deliver.
  destruct (tryPopId this id) as [this1 popped].
  rewrite legacy_response_data_eq by done.
  by destruct (map_get (callbacks this1) id).
Qed.

Lemma legacy_deliver_frames_eq fs : forall w id result,
  result <> VNull →
  Part000.deliver_frames fs w id result = IndexJs.deliver_frames fs w id result.
Proof.
  induction fs as [|[fp|] r IH]; intros w id result Hnn; simpl; [done| |].
  - rewrite legacy_deliver_eq by done. simpl.
    destruct (map_has (callbacks fp) id).
    + destruct (IndexJs.deliver fp w id result) as [[fp1 w1] b]. simpl.
      by rewrite IH.
    + by rewrite IH.
  - by rewrite IH.
Qed.

(** Away from [null], the two [sendResponse] bodies do the same. *)
Lemma legacy_sendResponse_eq this w id result :
  result <> VNull →
  Part000.sendResponse this w id result
  = (IndexJs.sendResponse this w id result, Done).
Proof.
  intros Hnn. unfold Part000.sendResponse, IndexJs.sendResponse.
  rewrite legacy_deliver_eq by done.
  destruct (IndexJs.deliver this w id result) as [[this1 w1] []]; simpl; [done|].
  rewrite legacy_deliver_frames_eq by done.
  by destruct (IndexJs.deliver_frames _ _ _ _).
Qed.

(** On the labels both [switch]es have, the two files choose the same
    branch; the labels only [index.js] has fall to [default] in [part_000]. *)
Lemma legacy_route m :
  Part000.route_of m = IndexJs.route_of m
  \/ (Part000.route_of m = R_default
      /\ In (IndexJs.route_of m)
           [ R_eth_signTypedData_v4; R_wallet_switchEthereumChain;
             R_wallet_getPermissions; R_wallet_requestPermissions ]).
Proof.
  destruct m as [| |b|n|s|xs|fs|c msg]; try (by left).
  unfold Part000.route_of, IndexJs.route_of, Part000.route_table,
    IndexJs.route_table, lookup_route.
  repeat (match goal with
          | |- context [String.eqb s ?k] => destruct (String.eqb s k) eqn:E
          end;
          [ apply String.eqb_eq in E; subst s;
            first [ left; reflexivity
                  | right; split; [reflexivity|simpl; tauto] ]
          | clear E ]).
  by left.
Qed.

Section Compare.
Context `{Platform}.

(** C8, amended. On the four methods answered from the session state, with
    a chain id that is not [null], and on the methods [index.js] hands to the
    upstream client (proxy mode off), the two files do the same: same state,
    same promise, same settlement, same host messages. *)
Theorem variants_agree_locally_and_upstream this w payload wrapResult :
  (exists v, local_value this (IndexJs.route_of (field "method" payload)) = Some v
             /\ v <> VNull)
  \/ (IndexJs.route_of (field "method" payload) = R_default
      /\ isProxyRPC this = false) →
  Part000._request this w payload wrapResult
  = IndexJs._request this w payload wrapResult
  /\ same_behaviour this w payload wrapResult.
Proof.
  intros Hcase.
  assert (Heq : Part000._request this w payload wrapResult
                = IndexJs._request this w payload wrapResult).
  { unfold Part000._request, IndexJs._request, Part000._request_body,
      IndexJs._request_body.
    generalize (default_true wrapResult). clear wrapResult. intros wrapResult.
    destruct (register_eq this w payload wrapResult)
      as (this3 & w3 & payload3 & -> & Hid & Hm & _ & _ & _ & _ & Hs & Hpx & _).
    assert (Hd : Part000.dispatch this3 w3 payload3 wrapResult (length (promises w))
                 = IndexJs.dispatch this3 w3 payload3 wrapResult (length (promises w))).
    { unfold Part000.dispatch, IndexJs.dispatch. rewrite Hm.
      unfold session in Hs. injection Hs as Ha _ Hc Hn.
      destruct Hcase as [(v & Hv & Hnn)|[Hroute Hproxy]].
      - destruct (legacy_route (field "method" payload)) as [->|[_ Hin]].
        + destruct (IndexJs.route_of (field "method" payload));
            try discriminate; simpl in Hv; injection Hv as <-;
            rewrite legacy_sendResponse_eq; try done.
          * unfold Part000.eth_accounts. by destruct (truthy _).
          * unfold Part000.eth_chainId. by rewrite Hc.
        + destruct (IndexJs.route_of (field "method" payload));
            try discriminate; simpl in Hin; intuition discriminate.
      - destruct (legacy_route (field "method" payload)) as [->|[-> _]];
          rewrite Hroute, Hpx, Hproxy; done. }
    by rewrite Hd. }
  split; [done|]. unfold same_behaviour. rewrite Heq.
  by destruct (IndexJs._request _ _ _ _) as [[[? ?] ?] ?].
Qed.

End Compare.

(** C8 as stated fails.  Ready provider, [wallet_switchEthereumChain]:
    [index.js] posts [switchEthereumChain] to the host, [part_000] has no such
    case and sends the request upstream. *)
Lemma variants_differ_on_switch_chain :
  let this := Sample.provider_of (VStr "0xabc") (VNum 1) in
  let payload :=
    [ ("method", VStr "wallet_switchEthereumChain");
      ("params", VArr [VObj [("chainId", VStr "0x38")]]) ] in
  ~ same_behaviour this Sample.page payload (VBool false).
Proof.
  intros this payload. unfold same_behaviour.
  destruct (IndexJs._request this Sample.page payload (VBool false))
    as [[[t1 w1] p1] l1] eqn:E1.
  destruct (Part000._request this Sample.page payload (VBool false))
    as [[[t2 w2] p2] l2] eqn:E2.
  vm_compute in E1, E2. injection E1 as _ <- _ _. injection E2 as _ <- _ _.
  intros [_ Hh]. discriminate Hh.
Qed.

(** What each file does on that request. *)
Example switch_chain_in_both :
  let this := Sample.provider_of (VStr "0xabc") (VNum 1) in
  let payload :=
    [ ("method", VStr "wallet_switchEthereumChain");
      ("params", VArr [VObj [("chainId", VStr "0x38")]]) ] in
  let '(_, w1, _, _) := IndexJs._request this Sample.page payload (VBool false) in
  let '(_, w2, _, _) := Part000._request this Sample.page payload (VBool false) in
  (length (host_log w1) = 1%nat /\ rpc_log w1 = [])
  /\ (host_log w2 = [] /\ length (rpc_log w2) = 1%nat).
Proof. vm_compute. done. Qed.

(** A registered call and the local methods. *)
Lemma variants_agree_locally_and_upstream_witness :
  let this := Sample.provider_of (VStr "0xabc") (VNum 1) in
  same_behaviour this Sample.page [("method", VStr "eth_accounts")] (VBool true)
  /\ same_behaviour this Sample.page [("method", VStr "eth_blockNumber")] (VBool true).
Proof.
  intros this. split.
  - apply (variants_agree_locally_and_upstream this Sample.page
             [("method", VStr "eth_accounts")] (VBool true)).
    left. exists (VArr [VStr "0xabc"]). split; [reflexivity|discriminate].
  - apply (variants_agree_locally_and_upstream this Sample.page
             [("method", VStr "eth_blockNumber")] (VBool true)).
    right. split; reflexivity.
Defined.

(** ** Id round trip *)

Lemma register_clock this w payload wrapResult :
  clock w (ticks w) <> 0 →
  clock (snd (fst (fst (register this w payload wrapResult)))) = clock w
  /\ ticks (snd (fst (fst (register this w payload wrapResult)))) = S (ticks w)
  /\ reg_id w = clock w (ticks w).
Proof.
  intros Hnz. apply Z.eqb_neq in Hnz.
  unfold register, tryIntifyId, genId, new_promise, reg_id. rewrite Hnz.
  destruct (field "id" payload); simpl; rewrite field_set_field_eq; simpl;
    rewrite Hnz; simpl; done.
Qed.

Lemma postMessage_registry this w h id data :
  map_get (callbacks (fst (IndexJs.postMessage this w h id data))) id = None
  \/ fst (IndexJs.postMessage this w h id data) = this.
Proof.
  unfold IndexJs.postMessage, IndexJs.sendError.
  destruct (ready this || IndexJs.allowed h); [by right|].
  destruct (map_get (callbacks this) id) eqn:E; [|by right].
  left. destruct id; try discriminate. simpl. apply lookup_delete_eq.
Qed.

Section RoundTrip.
Context `{Platform}.

(** After the [switch], either the call is no longer in [callbacks], or the
    correlator and [wrapResults] are as they were. *)
Lemma dispatch_registry this w payload wrapResult p p0 :
  map_get (callbacks this) (field "id" payload) = Some p0 →
  let this' := fst (fst (IndexJs.dispatch this w payload wrapResult p)) in
  map_get (callbacks this') (field "id" payload) = None
  \/ (intIds this' = intIds this /\ wrapResults this' = wrapResults this
      /\ callbacks this' = callbacks this).
Proof.
  intros Hp0. unfold IndexJs.dispatch.
  assert (Hgone : forall v,
             map_get (callbacks (fst (IndexJs.sendResponse this w (field "id" payload) v)))
               (field "id" payload) = None).
  { intros v. by destruct (settled_call_is_removed this w _ v VNull p0 Hp0). }
  assert (Hpost : forall w0 h data,
             let t := fst (IndexJs.postMessage this w0 h (field "id" payload) data) in
             map_get (callbacks t) (field "id" payload) = None
             \/ (intIds t = intIds this /\ wrapResults t = wrapResults this
                 /\ callbacks t = callbacks this)).
  { intros w0 h data.
    destruct (postMessage_registry this w0 h (field "id" payload) data) as [?|Heq];
      [by left|right; simpl; by rewrite Heq]. }
  destruct (IndexJs.route_of (field "method" payload)); simpl;
    try (left; apply Hgone); try apply Hpost; try (by right).
  all: unfold IndexJs.eth_sign, IndexJs.personal_sign, IndexJs.personal_ecRecover,
         IndexJs.eth_signTypedData, IndexJs.eth_sendTransaction,
         IndexJs.wallet_watchAsset, IndexJs.wallet_addEthereumChain,
         IndexJs.wallet_switchEthereumChain, IndexJs.wallet_rpcCall.
  all: repeat match goal with
              | |- context [match ?x with _ => _ end] => destruct x eqn:?; simpl
              end; try apply Hpost; try (by right).
  left. destruct (field "id" payload); try discriminate. simpl.
  apply lookup_delete_eq.
Qed.

Lemma reply_id_envelope w p originId result :
  promise_state w p = Some (Resolved (IndexJs.response_data originId result)) →
  reply_id w p = Some originId.
Proof. intros Hs. unfold reply_id. by rewrite Hs. Qed.

End RoundTrip.

(** ** Footprints of the operations *)

Lemma page_kept_refl w : page_kept w w.
Proof. by unfold page_kept. Qed.

Lemma page_kept_trans w1 w2 w3 :
  page_kept w1 w2 → page_kept w2 w3 → page_kept w1 w3.
Proof.
  intros (Hc & Ht & Hl & Hp) (Hc' & Ht' & Hl' & Hp').
  unfold page_kept. repeat split; try congruence. eauto.
Qed.

Lemma settle_page_kept p o w : page_kept w (settle_promise p o w).
Proof.
  unfold settle_promise. destruct (promises w !! p) as [[|]|] eqn:E;
    try apply page_kept_refl.
  unfold page_kept. simpl. rewrite length_insert. repeat split; try done.
  intros q Hq. destruct (decide (q = p)) as [->|Hne]; [done|].
  by rewrite list_lookup_insert_ne in Hq.
Qed.

Lemma callback_page_kept p e d w : page_kept w (callback p e d w).
Proof.
  unfold callback, reject, resolve.
  destruct (truthy e);
    (eapply page_kept_trans; [|apply settle_page_kept]); by unfold page_kept.
Qed.

Lemma touches_only_refl id this : touches_only id this this.
Proof. by unfold touches_only. Qed.

Lemma touches_only_trans id a b c :
  touches_only id a b → touches_only id b c → touches_only id a c.
Proof.
  intros Hab Hbc k Hk. destruct (Hab k Hk) as (? & ? & ?).
  destruct (Hbc k Hk) as (? & ? & ?). repeat split; congruence.
Qed.

Lemma tryPopId_touches id this : touches_only id this (fst (tryPopId this id)).
Proof.
  unfold tryPopId. destruct (map_get (intIds this) id) eqn:E;
    [|apply touches_only_refl].
  intros k Hk. simpl. destruct id; try discriminate. simpl.
  rewrite lookup_delete_ne by congruence. done.
Qed.

Lemma delete_callback_touches id this :
  touches_only id this (with_callbacks this (map_delete (callbacks this) id)).
Proof.
  intros k Hk. simpl. destruct id; try done. simpl.
  rewrite lookup_delete_ne by congruence. done.
Qed.

Lemma deliver_footprint this w id result :
  touches_only id this (fst (fst (IndexJs.deliver this w id result)))
  /\ page_kept w (snd (fst (IndexJs.deliver this w id result))).
Proof.
  unfold IndexJs.deliver.
  pose proof (tryPopId_touches id this) as Ht.
  destruct (tryPopId this id) as [this1 popped]; simpl in *.
  destruct (map_get (callbacks this1) id); simpl.
  - split.
    + eapply touches_only_trans; [exact Ht|apply delete_callback_touches].
    + destruct (truthy _); apply callback_page_kept.
  - split; [done|apply page_kept_refl].
Qed.

Lemma deliver_frames_page_kept fs : forall w id result,
  page_kept w (snd (IndexJs.deliver_frames fs w id result)).
Proof.
  induction fs as [|[fp|] r IH]; intros w id result; simpl;
    [apply page_kept_refl| |].
  - destruct (map_has (callbacks fp) id).
    + destruct (deliver_footprint fp w id result) as [_ Hk].
      destruct (IndexJs.deliver fp w id result) as [[fp1 w1] b]; simpl in *.
      specialize (IH w1 id result).
      destruct (IndexJs.deliver_frames r w1 id result); simpl in *.
      by eapply page_kept_trans.
    + specialize (IH w id result).
      by destruct (IndexJs.deliver_frames r w id result).
  - specialize (IH w id result).
    by destruct (IndexJs.deliver_frames r w id result).
Qed.

Lemma sendResponse_footprint this w id result :
  touches_only id this (fst (IndexJs.sendResponse this w id result))
  /\ page_kept w (snd (IndexJs.sendResponse this w id result)).
Proof.
  unfold IndexJs.sendResponse.
  destruct (deliver_footprint this w id result) as [Ht Hk].
  destruct (IndexJs.deliver this w id result) as [[this1 w1] []]; simpl in *;
    [done|].
  pose proof (deliver_frames_page_kept (frames w1) w1 id result) as Hf.
  destruct (IndexJs.deliver_frames _ _ _ _) as [fs w2]; simpl in *.
  split; [done|]. eapply page_kept_trans; [exact Hk|].
  eapply page_kept_trans; [exact Hf|]. by unfold page_kept.
Qed.

Lemma sendError_footprint this w id error :
  touches_only id this (fst (IndexJs.sendError this w id error))
  /\ page_kept w (snd (IndexJs.sendError this w id error)).
Proof.
  unfold IndexJs.sendError. destruct (map_get (callbacks this) id); simpl.
  - split; [apply delete_callback_touches|apply callback_page_kept].
  - split; [apply touches_only_refl|apply page_kept_refl].
Qed.

Lemma postMessage_footprint this w h id data :
  touches_only id this (fst (IndexJs.postMessage this w h id data))
  /\ page_kept w (snd (IndexJs.postMessage this w h id data)).
Proof.
  unfold IndexJs.postMessage. destruct (ready this || IndexJs.allowed h).
  - split; [apply touches_only_refl|by unfold page_kept].
  - apply sendError_footprint.
Qed.

Section Footprint.
Context `{Platform}.

Lemma dispatch_footprint this w payload wrapResult p :
  touches_only (field "id" payload) this
    (fst (fst (IndexJs.dispatch this w payload wrapResult p)))
  /\ page_kept w (snd (fst (IndexJs.dispatch this w payload wrapResult p))).
Proof.
  unfold IndexJs.dispatch.
  assert (Hnone : touches_only (field "id" payload) this this /\ page_kept w w)
    by (split; [apply touches_only_refl|apply page_kept_refl]).
  destruct (IndexJs.route_of (field "method" payload)); simpl;
    try apply sendResponse_footprint; try apply postMessage_footprint;
    try exact Hnone.
  all: unfold IndexJs.eth_sign, IndexJs.personal_sign, IndexJs.personal_ecRecover,
         IndexJs.eth_signTypedData, IndexJs.eth_sendTransaction,
         IndexJs.wallet_watchAsset, IndexJs.wallet_addEthereumChain,
         IndexJs.wallet_switchEthereumChain, IndexJs.wallet_rpcCall.
  all: repeat match goal with
              | |- context [match ?x with _ => _ end] => destruct x eqn:?; simpl
              end; try apply postMessage_footprint; try exact Hnone.
  split; [|by unfold page_kept].
  intros k Hk. simpl. destruct (field "id" payload); try done. simpl.
  rewrite !lookup_delete_ne by congruence. done.
Qed.

End Footprint.

(** ** Independent settlement *)

Lemma tryPopId_result this id :
  snd (tryPopId this id) = get_or_undefined (intIds this) id.
Proof.
  unfold tryPopId, get_or_undefined. by destruct (map_get (intIds this) id).
Qed.

Lemma sendResponse_reply this w i result p :
  callbacks this !! i = Some p →
  IndexJs.sendResponse this w (VNum i) result =
    (with_callbacks (fst (tryPopId this (VNum i))) (delete i (callbacks this)),
     callback p VNull (reply_for this i result) w).
Proof.
  intros Hp. rewrite (sendResponse_found this w (VNum i) result p) by done.
  unfold reply_for. by rewrite tryPopId_result.
Qed.

Lemma callback_other p q e d w :
  p <> q → promises (callback p e d w) !! q = promises w !! q.
Proof.
  intros Hne. unfold callback, reject, resolve, settle_promise.
  destruct (truthy e); simpl; destruct (promises w !! p) as [[|]|]; simpl;
    try done; by rewrite list_lookup_insert_ne.
Qed.

(** Two pending calls stored under different internal ids: answering the
    second and then the first settles each with its own reply. *)
Lemma independent_settlement this w i1 i2 p1 p2 r1 r2 :
  i1 <> i2 → p1 <> p2 →
  callbacks this !! i1 = Some p1 → callbacks this !! i2 = Some p2 →
  promises w !! p1 = Some None → promises w !! p2 = Some None →
  let s' := IndexJs.sendResponse this w (VNum i2) r2 in
  let s'' := IndexJs.sendResponse (fst s') (snd s') (VNum i1) r1 in
  promise_state (snd s'') p1 = Some (Resolved (reply_for this i1 r1))
  /\ promise_state (snd s'') p2 = Some (Resolved (reply_for this i2 r2)).
Proof.
  intros Hi Hp Hc1 Hc2 Hq1 Hq2 s' s''.
  subst s''. subst s'. rewrite (sendResponse_reply this w i2 r2 p2 Hc2). simpl.
  destruct (tryPopId_keeps this (VNum i2)) as (Hcb & Hwr & _).
  pose proof (tryPopId_touches (VNum i2) this) as Ht.
  destruct (Ht i1) as (_ & Hint & _); [congruence|].
  set (this' := with_callbacks (fst (tryPopId this (VNum i2))) (delete i2 (callbacks this))).
  assert (Hc1' : callbacks this' !! i1 = Some p1)
    by (subst this'; simpl; by rewrite lookup_delete_ne).
  rewrite (sendResponse_reply this' _ i1 r1 p1 Hc1'). simpl.
  assert (Hsame : reply_for this' i1 r1 = reply_for this i1 r1).
  { unfold reply_for, get_or_undefined. subst this'. simpl. by rewrite Hwr, Hint. }
  rewrite Hsame. split.
  - apply callback_resolves. by rewrite callback_other.
  - unfold promise_state. rewrite callback_other by done.
    fold (promise_state (callback p2 VNull (reply_for this i2 r2) w) p2).
    by apply callback_resolves.
Qed.

Section RequestEffect.
Context `{Platform}.

(** What one [_request] does to the registry and to the page. *)
Lemma request_effect this w payload wrapResult this1 w1 p pl :
  clock w (ticks w) <> 0 →
  IndexJs._request this w payload wrapResult = (this1, w1, p, pl) →
  p = length (promises w)
  /\ length (promises w1) = S (length (promises w))
  /\ clock w1 = clock w /\ ticks w1 = S (ticks w)
  /\ reg_id w = clock w (ticks w)
  /\ (forall q, promises w1 !! q = Some None → q <> p → promises w !! q = Some None)
  /\ (forall k, k <> reg_id w →
        callbacks this1 !! k = callbacks this !! k
        /\ intIds this1 !! k = intIds this !! k
        /\ wrapResults this1 !! k = wrapResults this !! k)
  /\ (forall q, callbacks this1 !! reg_id w = Some q →
        q = p
        /\ wrapResults this1 !! reg_id w = Some (default_true wrapResult)
        /\ intIds this1 !! reg_id w =
             match field "id" payload with
             | VUndefined => intIds this !! reg_id w
             | e => Some e
             end).
Proof.
  enter_request wrapResult.
  intros Hnz Hreq. unfold IndexJs._request_body in Hreq.
  destruct (register_clock this w payload wrapResult Hnz) as (Hck & Htk & Hrid).
  destruct (register_eq this w payload wrapResult)
    as (this3 & w3 & payload3 & Hreg & Hid & Hm & _ & Hcb & Hwr & Hint & _ & _
        & Hps & _).
  rewrite Hreg in Hreq, Hck, Htk. simpl in Hck, Htk.
  destruct (dispatch_footprint this3 w3 payload3 wrapResult (length (promises w)))
    as [Htouch Hkept].
  assert (Hp0 : map_get (callbacks this3) (field "id" payload3) = Some (length (promises w)))
    by (rewrite Hid; simpl; rewrite Hcb; apply lookup_insert_eq).
  pose proof (dispatch_registry this3 w3 payload3 wrapResult
                (length (promises w)) _ Hp0) as Hreg'.
  simpl in Hreg'. rewrite Hid in Htouch, Hreg'.
  assert (Hfinal : exists w4,
             (this1, w1, p) = (fst (fst (IndexJs.dispatch this3 w3 payload3 wrapResult
                                    (length (promises w)))), w4, length (promises w))
             /\ page_kept w3 w4).
  { destruct (IndexJs.dispatch _ _ _ _ _) as [[this4 w4] [|e]]; simpl in *.
    - injection Hreq as <- <- <- <-. by exists w4.
    - injection Hreq as <- <- <- <-. eexists. split; [reflexivity|].
      eapply page_kept_trans; [exact Hkept|apply settle_page_kept]. }
  destruct Hfinal as (w4 & Heq & (Hc4 & Ht4 & Hl4 & Hp4)).
  injection Heq as -> -> ->.
  split; [done|]. split; [rewrite Hl4, Hps, length_app; simpl; lia|].
  split; [congruence|]. split; [congruence|]. split; [done|].
  split; [|split].
  - intros q Hq Hne. apply Hp4 in Hq. rewrite Hps in Hq.
    destruct (decide (q < length (promises w))%nat) as [Hlt|Hge].
    + by rewrite lookup_app_l in Hq.
    + rewrite lookup_app_r in Hq by lia.
      destruct (q - length (promises w))%nat as [|n] eqn:E; [lia|].
      simpl in Hq. by rewrite lookup_nil in Hq.
  - intros k Hk. destruct (Htouch k) as (Ha & Hb & Hc); [congruence|].
    rewrite Ha, Hb, Hc, Hcb, Hwr, Hint.
    rewrite !lookup_insert_ne by congruence.
    split; [done|]. split; [|done].
    destruct (field "id" payload); try done;
      rewrite lookup_insert_ne by congruence; done.
  - intros q Hq. simpl in Hreg'. destruct Hreg' as [Hnone|(Hi & Hw & Hc)];
      [congruence|].
    rewrite Hc, Hcb, lookup_insert_eq in Hq. injection Hq as <-.
    split; [done|]. rewrite Hw, Hwr, lookup_insert_eq. split; [done|].
    rewrite Hi, Hint, Hrid.
    destruct (field "id" payload); try done; by rewrite lookup_insert_eq.
Qed.

End RequestEffect.

Section IdRoundTrip.
Context `{Platform}.

Lemma reply_for_id this i result w p :
  truthy (get_or_undefined (wrapResults this) (VNum i)) = true →
  promise_state w p = Some (Resolved (reply_for this i result)) →
  reply_id w p = Some (js_or (get_or_undefined (intIds this) (VNum i)) (VNum i)).
Proof.
  intros Hwrap Hs. unfold reply_for in Hs. rewrite Hwrap in Hs.
  by eapply reply_id_envelope.
Qed.

(** The id the correlator gives back for a call registered by [_request]. *)
Lemma correlator_gives_expected this w payload m :
  clock w (ticks w) <> 0 →
  (field "id" payload = VUndefined /\ intIds this !! clock w (ticks w) = None)
  \/ truthy (field "id" payload) = true →
  m !! reg_id w = match field "id" payload with
                  | VUndefined => intIds this !! reg_id w
                  | e => Some e
                  end →
  js_or (get_or_undefined m (VNum (reg_id w))) (VNum (reg_id w))
  = expected_reply_id payload w.
Proof.
  intros Hnz Hext Hm.
  assert (Hrid : reg_id w = clock w (ticks w)).
  { unfold reg_id. apply Z.eqb_neq in Hnz. by rewrite Hnz. }
  unfold expected_reply_id, get_or_undefined. simpl. rewrite Hm.
  destruct Hext as [[-> Hfresh]|Ht].
  - by rewrite Hrid, Hfresh.
  - destruct (field "id" payload); try discriminate; unfold js_or; by rewrite Ht.
Qed.

(** The entry under which [_request] leaves a call that is still
    registered. *)
Lemma request_registers this w payload wrapResult this1 w1 p pl q :
  IndexJs._request this w payload wrapResult = (this1, w1, p, pl) →
  callbacks this1 !! reg_id w = Some q →
  q = p /\ wrapResults this1 !! reg_id w = Some (default_true wrapResult).
Proof.
  enter_request wrapResult.
  intros Hreq Hq. unfold IndexJs._request_body in Hreq.
  destruct (register_eq this w payload wrapResult)
    as (this3 & w3 & payload3 & Hreg & Hid & _ & _ & Hcb & Hwr & _).
  rewrite Hreg in Hreq.
  assert (Hp0 : map_get (callbacks this3) (field "id" payload3)
                = Some (length (promises w)))
    by (rewrite Hid; simpl; rewrite Hcb; apply lookup_insert_eq).
  pose proof (dispatch_registry this3 w3 payload3 wrapResult
                (length (promises w)) _ Hp0) as Hreg'.
  simpl in Hreg'. rewrite Hid in Hreg'. simpl in Hreg'.
  assert (Heq : this1 = fst (fst (IndexJs.dispatch this3 w3 payload3 wrapResult
                                    (length (promises w))))
                /\ p = length (promises w)).
  { destruct (IndexJs.dispatch _ _ _ _ _) as [[this4 w4] [|e]]; simpl in *;
      by injection Hreq as <- <- <- <-. }
  destruct Heq as [-> ->].
  destruct Hreg' as [Hnone|(_ & Hw & Hc)]; [congruence|].
  rewrite Hc, Hcb, lookup_insert_eq in Hq. injection Hq as <-.
  by rewrite Hw, Hwr, lookup_insert_eq.
Qed.

(** A call handed to the upstream client, and what the client's answer does
    to it. *)
Lemma upstream_settles this w payload wrapResult this' w' p payload' :
  IndexJs.route_of (field "method" payload) = R_default →
  isProxyRPC this = false →
  IndexJs._request this w payload wrapResult = (this', w', p, payload') →
  exists call,
    rpc_log w' = (rpc_log w ++ [call])%list
    /\ rpc_payload call = payload'
    /\ field "id" payload' = VNum (reg_id w)
    /\ (forall response,
          promise_state (rpc_settle call (Fulfilled response) w') p =
            Some (if truthy (default_true wrapResult) then Resolved response
                  else match get_prop response "result" with
                       | Ok r => Resolved r
                       | Throw e => Rejected e
                       end))
    /\ (forall e, promise_state (rpc_settle call (Failed e) w') p
                  = Some (Rejected e)).
Proof.
  enter_request wrapResult.
  intros Hroute Hproxy Hreq. unfold IndexJs._request_body in Hreq.
  destruct (register_eq this w payload wrapResult)
    as (this3 & w3 & payload3 & Hreg & Hid & Hm & _ & Hcb & Hwr & _ & _ & Hpx
        & Hps & _ & _ & Hh & Hr & _).
  assert (Hpend : promises w3 !! length (promises w) = Some None).
  { rewrite Hps, lookup_app_r by lia. by rewrite Nat.sub_diag. }
  rewrite Hreg in Hreq. unfold IndexJs.dispatch in Hreq.
  rewrite Hm, Hroute, Hpx, Hproxy, Hid in Hreq. injection Hreq as <- <- <- <-.
  eexists. simpl. rewrite Hr. split; [done|]. split; [done|]. split; [done|].
  unfold rpc_fulfilled, rpc_failed, resolve, reject. simpl.
  split; [intros response|intros e].
  - destruct (truthy wrapResult); [by apply settle_pending|].
    destruct (get_prop response "result"); by apply settle_pending.
  - by apply settle_pending.
Qed.

(** C1, amended. (1) A call whose shape flag is truthy or left out, made
    with a truthy external id, or with none while the correlator has no entry
    under the generated id, the generated id being non-zero: if it is
    answered locally, or if it is still pending and [sendResponse] is called
    with its internal id, the reply's [id] is the external id, or the
    generated id when none was supplied.  (2) Two pending calls that supplied
    the same truthy external id and were given different generated ids:
    answered in either order, each caller gets its own result, inside an
    envelope with that external id, or bare when the call's shape flag is
    falsy.  (3) When the correlator has no entry for the id given to
    [sendResponse], the reply's [id] is that id.  (4) A pending call made
    through [request()] is resolved by [sendResponse] with the result itself,
    without envelope and [id].  (5) A call that goes to the upstream client is
    sent with the generated id, and a caller that expects the envelope
    receives the upstream response as it is, whatever its [id]. *)
Theorem id_round_trip :
  (forall this w payload wrapResult this1 w1 p pl,
      truthy (default_true wrapResult) = true →
      clock w (ticks w) <> 0 →
      (field "id" payload = VUndefined /\ intIds this !! clock w (ticks w) = None)
      \/ truthy (field "id" payload) = true →
      IndexJs._request this w payload wrapResult = (this1, w1, p, pl) →
      (is_Some (local_value this (IndexJs.route_of (field "method" payload))) →
         reply_id w1 p = Some (expected_reply_id payload w))
      /\ (callbacks this1 !! reg_id w = Some p →
          promises w1 !! p = Some None →
          forall result,
            reply_id (snd (IndexJs.sendResponse this1 w1 (VNum (reg_id w)) result)) p
            = Some (expected_reply_id payload w)))
  /\ (forall this w payloadA payloadB wrapA wrapB external rA rB
             thisA wA pA plA thisB wB pB plB,
        field "id" payloadA = external → field "id" payloadB = external →
        truthy external = true →
        clock w (ticks w) <> 0 → clock w (S (ticks w)) <> 0 →
        clock w (ticks w) <> clock w (S (ticks w)) →
        IndexJs._request this w payloadA wrapA = (thisA, wA, pA, plA) →
        IndexJs._request thisA wA payloadB wrapB = (thisB, wB, pB, plB) →
        callbacks thisB !! reg_id w = Some pA →
        callbacks thisB !! reg_id wA = Some pB →
        promises wB !! pA = Some None → promises wB !! pB = Some None →
        let shape wrap r :=
          if truthy (default_true wrap)
          then envelope external
                 (if IndexJs.envelope_like r
                  then match get_prop r "result" with
                       | Ok inner => inner
                       | Throw _ => r
                       end
                  else r)
          else r in
        (let s' := IndexJs.sendResponse thisB wB (VNum (reg_id wA)) rB in
         let s'' := IndexJs.sendResponse (fst s') (snd s') (VNum (reg_id w)) rA in
         promise_state (snd s'') pA = Some (Resolved (shape wrapA rA))
         /\ promise_state (snd s'') pB = Some (Resolved (shape wrapB rB)))
        /\ (let s' := IndexJs.sendResponse thisB wB (VNum (reg_id w)) rA in
            let s'' := IndexJs.sendResponse (fst s') (snd s') (VNum (reg_id wA)) rB in
            promise_state (snd s'') pA = Some (Resolved (shape wrapA rA))
            /\ promise_state (snd s'') pB = Some (Resolved (shape wrapB rB))))
  /\ (forall this w id result p,
        map_get (intIds this) id = None →
        map_get (callbacks this) id = Some p →
        promises w !! p = Some None →
        truthy (get_or_undefined (wrapResults this) id) = true →
        reply_id (snd (IndexJs.sendResponse this w id result)) p = Some id)
  /\ (forall this w payload this1 w1 p pl result,
        IndexJs.request this w payload = (this1, w1, p, pl) →
        callbacks this1 !! reg_id w = Some p →
        promises w1 !! p = Some None →
        promise_state
          (snd (IndexJs.sendResponse this1 w1 (VNum (reg_id w)) result)) p
        = Some (Resolved result))
  /\ (forall this w payload wrapResult this1 w1 p pl,
        truthy (default_true wrapResult) = true →
        IndexJs.route_of (field "method" payload) = R_default →
        isProxyRPC this = false →
        IndexJs._request this w payload wrapResult = (this1, w1, p, pl) →
        exists call,
          rpc_log w1 = (rpc_log w ++ [call])%list
          /\ field "id" (rpc_payload call) = VNum (reg_id w)
          /\ (forall response,
                promise_state (rpc_settle call (Fulfilled response) w1) p
                = Some (Resolved response))).
Proof.
  split; [|split; [|split; [|split]]].
  - intros this w payload wrapResult this1 w1 p pl Hwrap Hnz Hext Hreq.
    split.
    + intros [v Hv]. unfold IndexJs._request, IndexJs._request_body in Hreq.
      destruct (register_eq this w payload (default_true wrapResult))
        as (this3 & w3 & payload3 & Hreg & Hid & Hm & _ & Hcb & Hwr & Hint & Hs & _
            & Hps & _).
      rewrite Hreg in Hreq.
      assert (Hv3 : local_value this3 (IndexJs.route_of (field "method" payload3)) = Some v).
      { rewrite Hm, <- Hv. unfold session in Hs. injection Hs as Ha _ Hc Hn.
        destruct (IndexJs.route_of (field "method" payload)); simpl;
          rewrite ?Ha, ?Hc, ?Hn; done. }
      rewrite (dispatch_local _ _ _ _ _ _ Hv3), Hid in Hreq.
      assert (Hp : callbacks this3 !! reg_id w = Some (length (promises w)))
        by (rewrite Hcb; apply lookup_insert_eq).
      rewrite (sendResponse_reply _ _ _ _ _ Hp) in Hreq.
      injection Hreq as <- <- <- <-.
      assert (Hpend : promises w3 !! length (promises w) = Some None).
      { rewrite Hps, lookup_app_r by lia. by rewrite Nat.sub_diag. }
      erewrite reply_for_id; [| |by apply callback_resolves].
      * f_equal. apply (correlator_gives_expected this); try done.
        rewrite Hint. unfold reg_id. apply Z.eqb_neq in Hnz. rewrite Hnz.
        destruct (field "id" payload); try done; by rewrite lookup_insert_eq.
      * unfold get_or_undefined. simpl. by rewrite Hwr, lookup_insert_eq.
    + intros Hcb Hpend result.
      destruct (request_effect _ _ _ _ _ _ _ _ Hnz Hreq)
        as (_ & _ & _ & _ & _ & _ & _ & Hmine).
      destruct (Hmine p Hcb) as (_ & Hwr & Hint).
      rewrite (sendResponse_reply _ _ _ _ _ Hcb). simpl.
      erewrite reply_for_id; [| |by apply callback_resolves].
      * f_equal. by apply (correlator_gives_expected this).
      * unfold get_or_undefined. simpl. by rewrite Hwr.
  - intros this w payloadA payloadB wrapA wrapB external rA rB
      thisA wA pA plA thisB wB pB plB HidA HidB Hext HnzA HnzB Hdiff HreqA HreqB
      HcbA HcbB HpendA HpendB shape.
    destruct (request_effect _ _ _ _ _ _ _ _ HnzA HreqA)
      as (HpA & HlenA & HckA & HtkA & HridA & _ & _ & HmineA).
    assert (HnzB' : clock wA (ticks wA) <> 0) by (by rewrite HckA, HtkA).
    destruct (request_effect _ _ _ _ _ _ _ _ HnzB' HreqB)
      as (HpB & HlenB & _ & _ & HridB & _ & HotherB & HmineB).
    assert (Hids : reg_id w <> reg_id wA).
    { rewrite HridA, HridB, HckA, HtkA. done. }
    assert (Hps : pA <> pB) by (rewrite HpA, HpB, HlenA; lia).
    destruct (HotherB (reg_id w) Hids) as (HcA & HiA & HwA).
    rewrite HcA in HcbA.
    destruct (HmineA pA HcbA) as (_ & HwrA & HintA).
    destruct (HmineB pB HcbB) as (_ & HwrB & HintB).
    rewrite <- HcA in HcbA.
    assert (HrA : reply_for thisB (reg_id w) rA = shape wrapA rA).
    { unfold reply_for, get_or_undefined. simpl.
      rewrite HwA, HwrA, HiA, HintA, HidA.
      subst shape. simpl.
      destruct external; try discriminate; unfold js_or; by rewrite Hext. }
    assert (HrB : reply_for thisB (reg_id wA) rB = shape wrapB rB).
    { unfold reply_for, get_or_undefined. simpl.
      rewrite HwrB, HintB, HidB.
      subst shape. simpl.
      destruct external; try discriminate; unfold js_or; by rewrite Hext. }
    split.
    + rewrite <- HrA, <- HrB. by apply independent_settlement.
    + rewrite <- HrA, <- HrB.
      apply and_comm. apply independent_settlement; try done; congruence.
  - intros this w id result p Hint Hcb Hpend Hwrap.
    rewrite (sendResponse_found _ _ _ _ _ Hcb). rewrite Hwrap.
    erewrite reply_id_envelope; [|by apply callback_resolves].
    rewrite tryPopId_result. unfold get_or_undefined. by rewrite Hint.
  - intros this w payload this1 w1 p pl result Hreq Hcb Hpend.
    unfold IndexJs.request in Hreq.
    destruct (request_registers _ _ _ _ _ _ _ _ _ Hreq Hcb) as [_ Hwr].
    rewrite (sendResponse_reply _ _ _ _ _ Hcb). simpl.
    unfold reply_for, get_or_undefined. simpl. rewrite Hwr. simpl.
    by apply callback_resolves.
  - intros this w payload wrapResult this1 w1 p pl Hwrap Hroute Hproxy Hreq.
    destruct (upstream_settles _ _ _ _ _ _ _ _ Hroute Hproxy Hreq)
      as (call & Hlog & Hpl & Hid & Hok & _).
    exists call. split; [done|]. split; [by rewrite Hpl|].
    intros response. by rewrite Hok, Hwrap.
Qed.

End IdRoundTrip.

(** Scenario B: [personal_sign] with the external id ["abc"] is posted to the
    host under the internal id 1000; the reply to [sendResponse(1000, "0xsig")]
    carries ["abc"]. *)
Lemma id_round_trip_witness :
  let this := Sample.provider_of (VStr "0xabc") (VNum 1) in
  let payload :=
    [ ("id", VStr "abc"); ("method", VStr "personal_sign");
      ("params", VArr [VStr "0xdeadbeef"; VStr "0xabc"]) ] in
  reply_id
    (snd (IndexJs.sendResponse
            (fst (fst (fst (IndexJs._request this Sample.page payload (VBool true)))))
            (snd (fst (fst (IndexJs._request this Sample.page payload (VBool true)))))
            (VNum 1000) (VStr "0xsig")))
    (snd (fst (IndexJs._request this Sample.page payload (VBool true))))
  = Some (VStr "abc").
Proof.
  intros this payload.
  destruct (IndexJs._request this Sample.page payload (VBool true))
    as [[[this1 w1] p] pl] eqn:E.
  pose proof (proj1 id_round_trip this Sample.page payload (VBool true)
                this1 w1 p pl eq_refl) as T.
  destruct T as [_ T].
  - discriminate.
  - right. reflexivity.
  - exact E.
  - simpl. apply T.
    + vm_compute in E. injection E as <- _ <- _. reflexivity.
    + vm_compute in E. injection E as _ <- <- _. reflexivity.
Defined.

(** Why the two generated ids have to differ: [Utils.genId] is a time stamp
    plus a random offset and can repeat.  When it does, the second of two
    pending calls is stored over the first: the response settles the second
    caller, the registry is then empty, and the first call stays pending. *)
Example repeated_id_replaces_pending_call :
  let this := Sample.provider_of (VStr "0xabc") (VNum 1) in
  let w := with_ticks Sample.page 0 in
  let stuck :=
    {| promises := promises w; history := history w;
       settlements := settlements w; host_log := host_log w;
       rpc_log := rpc_log w; clock := fun _ => 1000; ticks := 0;
       frames := frames w; origin := origin w; icon := icon w |} in
  let call := [ ("id", VStr "a"); ("method", VStr "eth_sendTransaction");
                ("params", VArr [VObj []]) ] in
  let '(thisA, wA, pA, _) := IndexJs._request this stuck call (VBool true) in
  let '(thisB, wB, pB, _) := IndexJs._request thisA wA call (VBool true) in
  let '(this', w') := IndexJs.sendResponse thisB wB (VNum 1000) (VStr "0x1") in
  pA <> pB
  /\ promise_state w' pB = Some (Resolved (envelope (VStr "a") (VStr "0x1")))
  /\ promise_state w' pA = None
  /\ callbacks this' = ∅.
Proof. vm_compute. repeat split; discriminate. Qed.

(** C1 as stated fails.  A call with external id ["abc"] for a method that
    goes upstream is sent with the internal id 1000; when the upstream
    client returns the response that echoes that id, the caller of
    [sendAsync] receives it unchanged: its [id] is 1000, not ["abc"]. *)
Lemma upstream_reply_carries_internal_id :
  let this := Sample.provider_of (VStr "0xabc") (VNum 1) in
  let payload := [("id", VStr "abc"); ("method", VStr "eth_blockNumber")] in
  let '(_, w1, p, _) := IndexJs._request this Sample.page payload (VBool true) in
  match rpc_log w1 with
  | [c] =>
      field "id" (rpc_payload c) = VNum 1000
      /\ (let w2 := rpc_fulfilled c (envelope (VNum 1000) (VStr "0x2a")) w1 in
          reply_id w2 p = Some (VNum 1000)
          /\ reply_id w2 p <> Some (VStr "abc"))
  | _ => False
  end.
Proof. vm_compute. repeat split; discriminate. Qed.

(** A call made through [request] is answered with the bare result, which
    has no [id]. *)
Example bare_reply_has_no_id :
  let this := Sample.provider_of (VStr "0xabc") (VNum 1) in
  let payload := [("id", VNum 7); ("method", VStr "eth_chainId")] in
  let '(_, w1, p, _) := IndexJs.request this Sample.page payload in
  promise_state w1 p = Some (Resolved (VStr "0x1"))
  /\ reply_id w1 p = Some VUndefined.
Proof. vm_compute. done. Qed.

(** The external id 0 is taken for a missing one: the reply carries the
    generated id. *)
Example zero_external_id_is_replaced :
  let this := Sample.provider_of (VStr "0xabc") (VNum 1) in
  let payload := [("id", VNum 0); ("method", VStr "eth_chainId")] in
  let '(_, w1, p, _) := IndexJs._request this Sample.page payload (VBool true) in
  reply_id w1 p = Some (VNum 1000).
Proof. vm_compute. done. Qed.

(** Scenario D: an unknown method with proxy mode off goes upstream; from the
    upstream envelope the bare-value caller receives ["0x2a"] and the
    envelope caller the envelope. *)
Example scenario_D :
  let this := Sample.provider_of (VStr "0xabc") (VNum 1) in
  let payload := [("method", VStr "foo_bar")] in
  let upstream := envelope (VNum 1000) (VStr "0x2a") in
  (let '(_, w1, p, _) := IndexJs.request this Sample.page payload in
   match rpc_log w1 with
   | [c] => promise_state (rpc_fulfilled c upstream w1) p
            = Some (Resolved (VStr "0x2a"))
   | _ => False
   end)
  /\ (let '(_, w1, p, _) := IndexJs._request this Sample.page payload (VBool true) in
      match rpc_log w1 with
      | [c] => promise_state (rpc_fulfilled c upstream w1) p
               = Some (Resolved upstream)
      | _ => False
      end).
Proof. vm_compute. done. Qed.

(** Scenario E: two calls with external id 1, answered in reverse order. *)
Example scenario_E :
  let this := Sample.provider_of (VStr "0xabc") (VNum 1) in
  let payload := [("id", VNum 1); ("method", VStr "eth_requestAccounts")] in
  let '(thisA, wA, pA, _) := IndexJs._request this Sample.page payload (VBool true) in
  let '(thisB, wB, pB, _) := IndexJs._request thisA wA payload (VBool true) in
  let '(this1, w1) := IndexJs.sendResponse thisB wB (VNum 1001) (VStr "b") in
  let '(this2, w2) := IndexJs.sendResponse this1 w1 (VNum 1000) (VStr "a") in
  promise_state w2 pA = Some (Resolved (envelope (VNum 1) (VStr "a")))
  /\ promise_state w2 pB = Some (Resolved (envelope (VNum 1) (VStr "b")))
  /\ length (host_log w2) = 2%nat.
Proof. vm_compute. done. Qed.

(** [eth_sign] of bytes that are not UTF-8 goes to [signMessage], of bytes
    that are to [signPersonalMessage]. *)
Example eth_sign_by_utf8 :
  let this := Sample.provider_of (VStr "0xabc") (VNum 1) in
  let sign m := [("method", VStr "eth_sign"); ("params", VArr [VStr "0xabc"; VStr m])] in
  host_log (snd (fst (fst (IndexJs.request this Sample.page (sign "0xff00")))))
  = [ IndexJs.host_message Sample.page "signMessage" (VNum 1000)
        (VObj [("data", VStr "0xff00")]) ]
  /\ host_log (snd (fst (fst (IndexJs.request this Sample.page (sign "0x6869")))))
     = [ IndexJs.host_message Sample.page "signPersonalMessage" (VNum 1000)
           (VObj [("data", VStr "0x6869")]) ].
Proof. vm_compute. done. Qed.

(** * Further properties of the code *)

(** ** [Utils.intRange] and [Utils.flatMap] *)

Lemma safe_integer_spec n : safe_integer n = true <-> - 2 ^ 53 < n < 2 ^ 53.
Proof. unfold safe_integer. rewrite andb_true_iff, !Z.ltb_lt. done. Qed.

(** X1. [intRange(from, to)] for safe integers [from] and [to].  It is
    empty when [from >= to] and throws a [RangeError] when [to - from] is
    [2^32] or more.  Otherwise it is the list [from, from + 1, ..., to - 1]:
    it has [to - from] elements, the element at index [i] is [from + i],
    which is a safe integer, so that the sum is exact, and it holds exactly
    the integers [x] with [from <= x < to]. *)
Theorem intRange_contents from to :
  safe_integer from = true → safe_integer to = true →
  (to <= from → intRange from to = Ok [])
  /\ (2 ^ 32 <= to - from → intRange from to = Throw RangeError)
  /\ (from < to → to - from < 2 ^ 32 →
      exists l,
        intRange from to = Ok l
        /\ length l = Z.to_nat (to - from)
        /\ (forall i, (i < Z.to_nat (to - from))%nat →
              nth i l 0 = from + Z.of_nat i
              /\ safe_integer (from + Z.of_nat i) = true)
        /\ (forall x, In x l <-> from <= x < to)).
Proof.
  intros Hfrom%safe_integer_spec Hto%safe_integer_spec. unfold intRange.
  split; [|split].
  - intros Hle. apply Z.leb_le in Hle. by rewrite Hle.
  - intros Hbig. assert (E : (to <=? from) = false) by (apply Z.leb_gt; lia).
    apply Z.leb_le in Hbig. by rewrite E, Hbig.
  - intros Hlt Hsmall.
    assert (E : (to <=? from) = false) by (by apply Z.leb_gt).
    assert (E' : (2 ^ 32 <=? to - from) = false) by (by apply Z.leb_gt).
    rewrite E, E'. eexists. split; [reflexivity|]. split; [|split].
    + by rewrite length_map, length_seq.
    + intros i Hi. split; [|apply safe_integer_spec; lia].
      rewrite (nth_indep _ 0 ((fun j => Z.of_nat j + from) 0%nat))
        by (by rewrite length_map, length_seq).
      rewrite (List.map_nth (fun j => Z.of_nat j + from)), seq_nth by done. lia.
    + intros x. rewrite in_map_iff. split.
      * intros (i & <- & Hin). apply in_seq in Hin. lia.
      * intros Hx. exists (Z.to_nat (x - from)). split; [lia|].
        apply in_seq. lia.
Qed.

Lemma intRange_contents_witness :
  intRange 3 7 = Ok [3; 4; 5; 6]
  /\ intRange 7 3 = Ok []
  /\ intRange 0 (2 ^ 32) = Throw RangeError.
Proof.
  destruct (intRange_contents 3 7 eq_refl eq_refl) as (_ & _ & _).
  destruct (intRange_contents 7 3 eq_refl eq_refl) as (H1 & _).
  destruct (intRange_contents 0 (2 ^ 32) eq_refl eq_refl) as (_ & H2 & _).
  split; [reflexivity|]. split; [apply H1; lia|apply H2; lia].
Defined.

Lemma concat_spread_app xs ys :
  concat_spread (xs ++ ys) = (concat_spread xs ++ concat_spread ys)%list.
Proof.
  induction xs as [|v r IH]; simpl; [done|].
  destruct v; simpl; rewrite IH; try done. by rewrite <- app_assoc.
Qed.

Lemma map_from_app f xs : forall i ys,
  map_from f i (xs ++ ys)
  = (map_from f i xs ++ map_from f (i + Z.of_nat (length xs)) ys)%list.
Proof.
  induction xs as [|x r IH]; intros i ys; simpl.
  - by rewrite Z.add_0_r.
  - rewrite IH. do 3 f_equal. lia.
Qed.

Lemma map_from_shift f k xs : forall i,
  map_from f (i + k) xs = map_from (fun x j => f x (j + k)) i xs.
Proof.
  induction xs as [|x r IH]; intros i; simpl; [done|].
  f_equal. rewrite <- IH. f_equal. lia.
Qed.

(** X2. [flatMap] works through the array in order, giving each call its index:
    on [xs ++ ys] it yields the result on [xs] followed by the result on
    [ys] with the indices continued; and it flattens one level only, so a
    function that returns no array makes it a plain [map]. *)
Theorem flatMap_in_order xs ys func :
  flatMap (xs ++ ys) func
  = (flatMap xs func
     ++ flatMap ys (fun x i => func x (i + Z.of_nat (length xs))))%list
  /\ ((forall x i l, func x i <> VArr l) →
      flatMap xs func = map_from func 0 xs).
Proof.
  unfold flatMap. split.
  - rewrite map_from_app, concat_spread_app. f_equal.
    by rewrite <- (map_from_shift func (Z.of_nat (length xs)) ys 0).
  - intros Hflat. generalize 0. induction xs as [|x r IH]; intros i; simpl; [done|].
    pose proof (Hflat x i) as Hx.
    destruct (func x i) as [| | | | |l| |]; rewrite IH; try done.
    by destruct (Hx l).
Qed.

(** ** [Utils.intToHex] and [Utils.hexToInt] *)

Ltac digit_arith :=
  match goal with
  | |- context [nat_of_ascii ?c] =>
      let v := eval vm_compute in (nat_of_ascii c) in
      change (nat_of_ascii c) with v
  end; lia.

Lemma hex_prefix_acc d : forall p,
  hex_prefix (HexadecimalString.NilEmpty.string_of_uint d) (Z.pos p) true
  = Some (Z.pos (Pos.of_hex_uint_acc d p)).
Proof.
  induction d; intros p; simpl; try done.
  all: match goal with
       | |- hex_prefix _ ?a true = Some (Z.pos (Pos.of_hex_uint_acc _ ?q)) =>
           replace a with (Z.pos q) by digit_arith
       end; apply IHd.
Qed.

Lemma hex_prefix_uint d :
  hex_prefix (HexadecimalString.NilEmpty.string_of_uint d) 0 true
  = Some (Z.of_N (Pos.of_hex_uint d)).
Proof.
  induction d; simpl; try done.
  all: match goal with
       | |- hex_prefix _ ?a true = Some (Z.of_N (Pos.of_hex_uint _)) =>
           replace a with 0 by digit_arith; exact IHd
       | |- hex_prefix _ ?a true = Some (Z.pos (Pos.of_hex_uint_acc _ ?q)) =>
           replace a with (Z.pos q) by digit_arith; apply hex_prefix_acc
       end.
Qed.

(** [parseInt] reads back what [toString(16)] prints. *)
Lemma parse_hex_string n :
  0 <= n → hex_prefix (hex_string n) 0 false = Some n.
Proof.
  intros Hn. unfold hex_string. destruct (n <? 0) eqn:E;
    [apply Z.ltb_lt in E; lia|].
  pose proof (HexadecimalN.Unsigned.of_to (Z.to_N n)) as Hof.
  unfold N.of_hex_uint in Hof.
  pose proof (hex_prefix_uint (N.to_hex_uint (Z.to_N n))) as Hp.
  rewrite Hof, Z2N.id in Hp by done.
  unfold HexadecimalString.NilZero.string_of_uint.
  destruct (N.to_hex_uint (Z.to_N n)) eqn:Hd; simpl in *;
    exact Hp.
Qed.

Lemma parseInt16_0x s :
  parseInt16 ("0x" +:+ s) = match hex_prefix s 0 false with
                            | Some n => Some (1 * n)
                            | None => None
                            end.
Proof. reflexivity. Qed.

(** X3. For a safe integer that is not negative, [hexToInt] undoes
    [intToHex]; for a negative one [intToHex] gives ["0x-..."], which
    [hexToInt] reads as [NaN]; [undefined] and [null] pass through both. *)
Theorem hexToInt_intToHex n :
  safe_integer n = true →
  hexToInt (intToHex (VNum n)) = (if 0 <=? n then Parsed (VNum n) else NaN)
  /\ hexToInt (intToHex VUndefined) = Parsed VUndefined
  /\ hexToInt (intToHex VNull) = Parsed VNull.
Proof.
  intros Hsafe. split; [|done]. unfold hexToInt, intToHex, toString16.
  change (to_string (VStr ?s)) with s. rewrite parseInt16_0x.
  destruct (0 <=? n) eqn:E.
  - apply Z.leb_le in E. by rewrite (parse_hex_string n E), Z.mul_1_l, Hsafe.
  - apply Z.leb_gt in E. unfold hex_string.
    apply Z.ltb_lt in E. rewrite E. done.
Qed.

Lemma hexToInt_intToHex_witness :
  hexToInt (intToHex (VNum 56)) = Parsed (VNum 56)
  /\ hexToInt (intToHex (VNum (-1))) = NaN.
Proof.
  split.
  - exact (proj1 (hexToInt_intToHex 56 eq_refl)).
  - exact (proj1 (hexToInt_intToHex (-1) eq_refl)).
Defined.

(** ** [Utils.handleSignParams] *)

(** X4. The message of a sign request is found whichever way round the caller
    put it: of two string parameters of which one is the provider's address
    (compared without regard to case) and the other is not, the other one is
    the message. *)
Theorem handleSignParams_either_order address a m :
  toLowerCase a = toLowerCase address →
  toLowerCase m <> toLowerCase address →
  handleSignParams address (VArr [VStr a; VStr m]) = Ok (VStr m)
  /\ handleSignParams address (VArr [VStr m; VStr a]) = Ok (VStr m).
Proof.
  intros Ha Hm. unfold handleSignParams. simpl. rewrite Ha, String.eqb_refl.
  split; [done|].
  destruct (String.eqb (toLowerCase address) (toLowerCase m)) eqn:E; [|done].
  apply String.eqb_eq in E. congruence.
Qed.

Lemma handleSignParams_either_order_witness :
  handleSignParams "0xabc" (VArr [VStr "0xABC"; VStr "0xdeadbeef"])
    = Ok (VStr "0xdeadbeef")
  /\ handleSignParams "0xabc" (VArr [VStr "0xdeadbeef"; VStr "0xABC"])
     = Ok (VStr "0xdeadbeef").
Proof.
  apply (handleSignParams_either_order "0xabc" "0xABC" "0xdeadbeef");
    [reflexivity|discriminate].
Defined.

Lemma length_lt_2_two a b rest : length_lt_2 (VArr (a :: b :: rest)) = false.
Proof. unfold length_lt_2. simpl. apply Z.ltb_ge. lia. Qed.

(** X5. Missing parameters give the empty message; a single parameter is the
    message, whatever it is, and an empty array gives [undefined]; with two
    or more parameters the first must be a string, or the comparison with
    the address throws; and when both parameters are the address, the second
    is taken. *)
Theorem handleSignParams_edges address :
  (forall params, truthy params = false →
     handleSignParams address params = Ok (VStr ""))
  /\ handleSignParams address (VArr []) = Ok VUndefined
  /\ (forall x, handleSignParams address (VArr [x]) = Ok x)
  /\ (forall p0 p1 rest,
        (forall s, p0 <> VStr s) →
        handleSignParams address (VArr (p0 :: p1 :: rest)) = Throw TypeError)
  /\ (forall a b rest,
        toLowerCase a = toLowerCase address →
        handleSignParams address (VArr (VStr a :: b :: rest)) = Ok b).
Proof.
  unfold handleSignParams. split; [|split; [|split; [|split]]]; try done.
  - intros params Hf. by rewrite Hf.
  - intros p0 p1 rest Hp0. rewrite length_lt_2_two. simpl.
    destruct p0 as [| | | |s0| | |]; try done. exfalso. by apply (Hp0 s0).
  - intros a b rest Ha. rewrite length_lt_2_two. simpl.
    by rewrite Ha, String.eqb_refl.
Qed.

(** ** [Utils.getIconLink] *)

Lemma favicons_skip pre : forall post,
  Forall (fun n => is_favicon n = false) pre →
  favicons (pre ++ post) = favicons post.
Proof.
  induction pre as [|n r IH]; intros post Hall; simpl; [done|].
  inversion Hall as [|? ? Hn Hr]; subst. unfold is_favicon in Hn.
  destruct (link_rel n), (link_href n); try (by apply IH).
  rewrite Hn. by apply IH.
Qed.

(** X6. The icon is the first [<link>] whose [rel] is [icon] or
    [shortcut icon] and that has an [href]: the links before it and all the
    links after it make no difference.  Without such a link the icon is
    [origin + "/favicon.ico"]. *)
Theorem getIconLink_first_icon origin pre node post :
  Forall (fun n => is_favicon n = false) pre →
  (is_favicon node = true →
     getIconLink origin (pre ++ node :: post) = getIconLink origin [node])
  /\ getIconLink origin pre = origin +:+ "/favicon.ico".
Proof.
  intros Hpre. unfold getIconLink. split.
  - intros Hnode. rewrite favicons_skip by done. simpl.
    unfold is_favicon in Hnode.
    destruct (link_rel node), (link_href node); try discriminate.
    by rewrite Hnode.
  - rewrite <- (app_nil_r pre), favicons_skip by done. done.
Qed.

Lemma getIconLink_first_icon_witness :
  let png := {| link_rel := Some "icon"; link_href := Some "/a.png";
                link_sizes := None |} in
  let css := {| link_rel := Some "stylesheet"; link_href := Some "/s.css";
                link_sizes := None |} in
  let bare := {| link_rel := Some "icon"; link_href := None;
                 link_sizes := None |} in
  getIconLink "https://d.app" [css; bare; png; css] = "https://d.app/a.png"
  /\ getIconLink "https://d.app" [css; bare] = "https://d.app/favicon.ico".
Proof.
  intros png css bare.
  destruct (getIconLink_first_icon "https://d.app" [css; bare] png [css])
    as [H1 H2].
  - repeat constructor.
  - split; [exact (eq_trans (H1 eq_refl) eq_refl)|exact H2].
Defined.

Lemma starts_with_append p s : starts_with p (p +:+ s) = true.
Proof.
  induction p as [|c r IH]; simpl; [done|]. by rewrite Ascii.eqb_refl, IH.
Qed.

(** X7. What [getIconLink] returns is never a relative path: it either begins
    with the page's origin or is an [href] that has ["://"] after its first
    character. *)
Theorem getIconLink_is_absolute origin nodeList :
  starts_with origin (getIconLink origin nodeList) = true
  \/ exists i, index_of "://" (getIconLink origin nodeList) = Some (S i).
Proof.
  unfold getIconLink. destruct (favicons nodeList) as [|[url sizes] r].
  - left. apply starts_with_append.
  - destruct (index_of "://" url) as [[|i]|] eqn:E.
    + left. apply starts_with_append.
    + right. by exists i.
    + left. apply starts_with_append.
Qed.

Lemma index_of_cons needle c r :
  index_of needle (String c r)
  = if starts_with needle (String c r) then Some 0%nat
    else match index_of needle r with
         | Some i => Some (S i)
         | None => None
         end.
Proof. reflexivity. Qed.

(** X8. A relative [href] is joined to the origin with exactly one slash:
    [path] and ["/" + path] name the same icon. *)
Theorem getIconLink_relative origin path rel sizes :
  rel = "icon" \/ rel = "shortcut icon" →
  index_of "://" path = None →
  starts_with "/" path = false →
  let node url := {| link_rel := Some rel; link_href := Some url;
                     link_sizes := sizes |} in
  getIconLink origin [node path] = origin +:+ "/" +:+ path
  /\ getIconLink origin [node ("/" +:+ path)] = origin +:+ "/" +:+ path.
Proof.
  intros Hrel Hscheme Hslash node. subst node. unfold getIconLink.
  cbn [favicons link_rel link_href link_sizes].
  assert (Hicon : String.eqb rel "icon" || String.eqb rel "shortcut icon" = true)
    by (destruct Hrel as [->| ->]; reflexivity).
  rewrite Hicon.
  assert (Hscheme' : index_of "://" ("/" +:+ path) = None)
    by (change ("/" +:+ path) with (String "/" path);
        rewrite index_of_cons, Hscheme; reflexivity).
  assert (Hslash' : index_of "/" path <> Some 0%nat).
  { destruct path as [|c r]; [done|]. rewrite index_of_cons, Hslash.
    by destruct (index_of "/" r). }
  rewrite Hscheme, Hscheme'. split.
  - by destruct (index_of "/" path) as [[|i]|].
  - change ("/" +:+ path) with (String "/" path). by rewrite index_of_cons.
Qed.

Lemma getIconLink_relative_witness :
  getIconLink "https://d.app"
    [ {| link_rel := Some "shortcut icon"; link_href := Some "img/a.png";
         link_sizes := None |} ]
  = "https://d.app/img/a.png".
Proof.
  apply (getIconLink_relative "https://d.app" "img/a.png" "shortcut icon" None);
    [right; reflexivity|reflexivity|reflexivity].
Defined.

(** ** Settlement *)

Lemma invocations_callback p e d w :
  invocations (callback p e d w) p = S (invocations w p).
Proof.
  destruct (callback_logs p e d w) as (_ & _ & Hs & _).
  unfold invocations. rewrite Hs, List.filter_app, List.length_app. simpl.
  rewrite Nat.eqb_refl. simpl. lia.
Qed.




(** X10. What a settlement of [index.js] removes, for a call stored under the
    internal id [i].  [sendResponse] deletes the entry of [callbacks] and the
    correlator's entry, and leaves [wrapResults] as it is: the shape flag
    of a settled call stays in the map.  [sendError] deletes only the entry of
    [callbacks]: the correlator's entry and the shape flag both stay.  No
    entry under another id is touched. *)
Theorem settlement_cleanup this w i result error p :
  callbacks this !! i = Some p →
  let byResponse := fst (IndexJs.sendResponse this w (VNum i) result) in
  let byError := fst (IndexJs.sendError this w (VNum i) error) in
  (callbacks byResponse = delete i (callbacks this)
   /\ intIds byResponse = delete i (intIds this)
   /\ wrapResults byResponse = wrapResults this)
  /\ (callbacks byError = delete i (callbacks this)
      /\ intIds byError = intIds this
      /\ wrapResults byError = wrapResults this).
Proof.
  intros Hp.
  assert (Hp' : map_get (callbacks this) (VNum i) = Some p) by done.
  cbv zeta.
  rewrite (sendResponse_found _ _ _ _ _ Hp'), (sendError_found _ _ _ _ _ Hp').
  simpl. split; [|done].
  destruct (tryPopId_keeps this (VNum i)) as (_ & Hw & _).
  split; [done|]. split; [|done].
  unfold tryPopId. simpl. destruct (intIds this !! i) eqn:E; simpl; [done|].
  symmetry. by apply delete_id.
Qed.

Lemma settlement_cleanup_witness :
  let this :=
    with_intIds
      (with_wrapResults
         (with_callbacks (Sample.provider_of (VStr "0xabc") (VNum 1))
            {[ 1000 := 0%nat ]})
         {[ 1000 := VBool true ]})
      {[ 1000 := VStr "a" ]} in
  let w := with_promises Sample.page [None] [] in
  wrapResults (fst (IndexJs.sendResponse this w (VNum 1000) VNull)) !! 1000
  = Some (VBool true)
  /\ intIds (fst (IndexJs.sendError this w (VNum 1000) VNull)) !! 1000
     = Some (VStr "a").
Proof.
  intros this w.
  destruct (settlement_cleanup this w 1000 VNull VNull 0%nat eq_refl)
    as ((_ & _ & H1) & (_ & H2 & _)).
  rewrite H1, H2. split; reflexivity.
Defined.

(** X11. At most one settlement per call in [index.js], whatever the host
    sends: of two settlement attempts for the same id, each a [sendResponse]
    or a [sendError], the first invokes the stored settlement function once
    and the second invokes nothing, changes nothing outside the provider and
    leaves [callbacks] as the first left it (no nested frame holding the
    id). *)
Theorem settles_at_most_once this w id first second p :
  map_get (callbacks this) id = Some p →
  no_frame_owns w id →
  let s1 := settle first id (this, w) in
  let s2 := settle second id s1 in
  invocations (snd s1) p = S (invocations w p)
  /\ map_get (callbacks (fst s1)) id = None
  /\ snd s2 = snd s1
  /\ callbacks (fst s2) = callbacks (fst s1).
Proof.
  intros Hp Hframes. cbv zeta.
  assert (H1 : invocations (snd (settle first id (this, w))) p = S (invocations w p)
               /\ map_get (callbacks (fst (settle first id (this, w)))) id = None
               /\ frames (snd (settle first id (this, w))) = frames w).
  { destruct first as [r|e]; simpl.
    - rewrite (sendResponse_found _ _ _ _ _ Hp). simpl.
      match goal with |- context [callback ?p ?e ?d w] =>
        destruct (callback_logs p e d w) as (_ & _ & _ & Hf) end.
      rewrite invocations_callback. split; [done|]. split; [|done].
      destruct id; try discriminate. simpl. by rewrite lookup_delete_eq.
    - rewrite (sendError_found _ _ _ _ _ Hp). simpl.
      destruct (callback_logs p (as_Error e) VNull w) as (_ & _ & _ & Hf).
      rewrite invocations_callback. split; [done|]. split; [|done].
      destruct id; try discriminate. simpl. by rewrite lookup_delete_eq. }
  destruct H1 as (Hi & Hgone & Hf).
  destruct (settle first id (this, w)) as [this1 w1]; simpl in *.
  split; [done|]. split; [done|].
  assert (Hframes1 : no_frame_owns w1 id) by (unfold no_frame_owns; by rewrite Hf).
  destruct (unknown_settlement_is_noop this1 w1 id VNull VNull Hgone Hframes1)
    as (_ & _ & _ & He).
  destruct second as [r|e]; simpl.
  - destruct (unknown_settlement_is_noop this1 w1 id r VNull Hgone Hframes1)
      as (Hw & Hc & _). done.
  - unfold IndexJs.sendError in *. by rewrite Hgone.
Qed.

Lemma settles_at_most_once_witness :
  let this :=
    with_callbacks (Sample.provider_of (VStr "0xabc") (VNum 1)) {[ 1000 := 0%nat ]} in
  let w := with_promises Sample.page [None] [] in
  let s1 := IndexJs.sendError this w (VNum 1000) (VStr "denied") in
  promise_state (snd (IndexJs.sendResponse (fst s1) (snd s1) (VNum 1000) (VStr "0x1"))) 0
  = Some (Rejected (VErr None "denied")).
Proof.
  intros this w s1.
  destruct (settles_at_most_once this w (VNum 1000) (ByError (VStr "denied"))
              (ByResponse (VStr "0x1")) 0%nat eq_refl) as (_ & _ & H & _).
  - unfold no_frame_owns. simpl. constructor.
  - simpl in H. unfold s1. rewrite H. reflexivity.
Defined.

(** ** What a delivery leaves of the promises *)

Lemma outcome_kept_refl w : outcome_kept w w.
Proof. by intros p o. Qed.

Lemma outcome_kept_trans w1 w2 w3 :
  outcome_kept w1 w2 → outcome_kept w2 w3 → outcome_kept w1 w3.
Proof. intros H1 H2 p o Hp. by apply H2, H1. Qed.

Lemma outcome_kept_promises w w' :
  promises w' = promises w → outcome_kept w w'.
Proof. intros E p o. unfold promise_state. by rewrite E. Qed.

Lemma settle_outcome_kept p o w : outcome_kept w (settle_promise p o w).
Proof.
  intros q o' Hq. unfold settle_promise.
  destruct (promises w !! p) as [[?|]|] eqn:E; try done.
  unfold promise_state in *. simpl.
  destruct (decide (p = q)) as [->|Hne].
  - by rewrite E in Hq.
  - by rewrite list_lookup_insert_ne.
Qed.

Lemma callback_outcome_kept p e d w : outcome_kept w (callback p e d w).
Proof.
  unfold callback, reject, resolve.
  destruct (truthy e);
    (eapply outcome_kept_trans; [|apply settle_outcome_kept]);
    by apply outcome_kept_promises.
Qed.

Lemma deliver_outcome_kept this w id result :
  outcome_kept w (snd (fst (IndexJs.deliver this w id result))).
Proof.
  unfold IndexJs.deliver. destruct (tryPopId this id) as [this1 popped].
  destruct (map_get (callbacks this1) id); simpl; [|apply outcome_kept_refl].
  destruct (truthy _); apply callback_outcome_kept.
Qed.

Lemma deliver_frames_outcome_kept fs : forall w id result,
  outcome_kept w (snd (IndexJs.deliver_frames fs w id result)).
Proof.
  induction fs as [|[fp|] r IH]; intros w id result; simpl;
    [apply outcome_kept_refl| |].
  - destruct (map_has (callbacks fp) id).
    + pose proof (deliver_outcome_kept fp w id result) as Hk.
      destruct (IndexJs.deliver fp w id result) as [[fp1 w1] b]; simpl in *.
      specialize (IH w1 id result).
      destruct (IndexJs.deliver_frames r w1 id result); simpl in *.
      by eapply outcome_kept_trans.
    + specialize (IH w id result).
      by destruct (IndexJs.deliver_frames r w id result).
  - specialize (IH w id result).
    by destruct (IndexJs.deliver_frames r w id result).
Qed.

(** ** The two registry maps *)

Lemma registry_shrinks_refl this : registry_shrinks this this.
Proof. by intros k Hk. Qed.

Lemma registry_shrinks_trans a b c :
  registry_shrinks a b → registry_shrinks b c → registry_shrinks a c.
Proof.
  intros H1 H2 k Hk. destruct (H2 k Hk) as [Hb Hw].
  destruct (H1 k Hb) as [Ha Hw']. split; [done|congruence].
Qed.

Lemma registry_shrinks_maps a b :
  callbacks b = callbacks a → wrapResults b = wrapResults a →
  registry_shrinks a b.
Proof. intros Hc Hw k. rewrite Hc, Hw. done. Qed.

Lemma registry_shrinks_ok a b :
  registry_ok a → registry_shrinks a b → registry_ok b.
Proof.
  intros Ha Hs k Hk. destruct (Hs k Hk) as [Hc Hw]. rewrite Hw. by apply Ha.
Qed.

Lemma tryPopId_shrinks this id : registry_shrinks this (fst (tryPopId this id)).
Proof.
  destruct (tryPopId_keeps this id) as (Hc & Hw & _).
  by apply registry_shrinks_maps.
Qed.

Lemma delete_callback_shrinks this id :
  registry_shrinks this (with_callbacks this (map_delete (callbacks this) id)).
Proof.
  intros k Hk. simpl in *. split; [|done].
  destruct id; simpl in Hk; try done.
  destruct (decide (k = n)) as [->|Hne].
  - rewrite lookup_delete_eq in Hk. by destruct Hk.
  - by rewrite lookup_delete_ne in Hk.
Qed.

Lemma unregister_shrinks this id :
  registry_shrinks this
    (with_wrapResults (with_callbacks this (map_delete (callbacks this) id))
       (map_delete (wrapResults this) id)).
Proof.
  intros k Hk. simpl in *.
  destruct id; simpl in *; try done.
  destruct (decide (k = n)) as [->|Hne].
  - rewrite lookup_delete_eq in Hk. by destruct Hk.
  - rewrite lookup_delete_ne in Hk by done.
    by rewrite lookup_delete_ne.
Qed.

Lemma sendError_shrinks this w id error :
  registry_shrinks this (fst (IndexJs.sendError this w id error)).
Proof.
  unfold IndexJs.sendError. destruct (map_get (callbacks this) id); simpl;
    [apply delete_callback_shrinks|apply registry_shrinks_refl].
Qed.

Lemma postMessage_shrinks this w h id data :
  registry_shrinks this (fst (IndexJs.postMessage this w h id data)).
Proof.
  unfold IndexJs.postMessage. destruct (ready this || IndexJs.allowed h); simpl;
    [apply registry_shrinks_refl|apply sendError_shrinks].
Qed.

Lemma sendResponse_shrinks this w id result :
  registry_shrinks this (fst (IndexJs.sendResponse this w id result)).
Proof.
  unfold IndexJs.sendResponse, IndexJs.deliver.
  pose proof (tryPopId_shrinks this id) as Ht.
  destruct (tryPopId this id) as [this1 popped]; simpl in *.
  destruct (map_get (callbacks this1) id); simpl.
  - eapply registry_shrinks_trans; [exact Ht|apply delete_callback_shrinks].
  - by destruct (IndexJs.deliver_frames _ _ _ _).
Qed.

Lemma legacy_sendError_shrinks this w id error :
  registry_shrinks this (fst (Part000.sendError this w id error)).
Proof.
  unfold Part000.sendError. destruct (map_get (callbacks this) id); simpl;
    [apply delete_callback_shrinks|apply registry_shrinks_refl].
Qed.

Lemma legacy_postMessage_shrinks this w h id data :
  registry_shrinks this (fst (Part000.postMessage this w h id data)).
Proof.
  unfold Part000.postMessage. destruct (ready this || Part000.allowed h); simpl;
    [apply registry_shrinks_refl|apply legacy_sendError_shrinks].
Qed.

Lemma legacy_sendResponse_shrinks this w id result :
  registry_shrinks this (fst (fst (Part000.sendResponse this w id result))).
Proof.
  unfold Part000.sendResponse, Part000.deliver.
  pose proof (tryPopId_shrinks this id) as Ht.
  destruct (tryPopId this id) as [this1 popped]; simpl in *.
  destruct (Part000.response_data _ _); simpl; [|done].
  destruct (map_get (callbacks this1) id); simpl.
  - eapply registry_shrinks_trans; [exact Ht|apply delete_callback_shrinks].
  - by destruct (Part000.deliver_frames _ _ _ _).
Qed.

Lemma register_registry_ok this w payload wrapResult :
  registry_ok this →
  registry_ok (fst (fst (fst (register this w payload wrapResult)))).
Proof.
  intros Hok.
  destruct (register_eq this w payload wrapResult)
    as (this3 & w3 & payload3 & -> & _ & _ & _ & Hc & Hw & _).
  simpl. intros k. rewrite Hc, Hw.
  destruct (decide (k = reg_id w)) as [->|Hne].
  - rewrite !lookup_insert_eq. eauto.
  - rewrite !lookup_insert_ne by done. apply Hok.
Qed.

Lemma setAddress_maps this a this' :
  IndexJs.setAddress this a = Ok this' →
  callbacks this' = callbacks this /\ wrapResults this' = wrapResults this.
Proof.
  unfold IndexJs.setAddress. destruct (js_or a (VStr "")); try done.
  by intros [= <-].
Qed.

Lemma legacy_setAddress_maps this a this' :
  Part000.setAddress this a = Ok this' →
  callbacks this' = callbacks this /\ wrapResults this' = wrapResults this.
Proof.
  unfold Part000.setAddress. destruct (js_or a (VStr "")); try done.
  by intros [= <-].
Qed.

Lemma setConfig_maps this c this' :
  IndexJs.setConfig this c = Ok this' →
  callbacks this' = callbacks this /\ wrapResults this' = wrapResults this.
Proof.
  unfold IndexJs.setConfig.
  destruct (IndexJs.setAddress this (cfg_address c)) as [this1|] eqn:E; [|done].
  simpl. intros [= <-]. simpl. by apply setAddress_maps in E.
Qed.

Lemma legacy_setConfig_maps this c this' :
  Part000.setConfig this c = Ok this' →
  callbacks this' = callbacks this /\ wrapResults this' = wrapResults this.
Proof.
  unfold Part000.setConfig.
  destruct (Part000.setAddress this (cfg_address c)) as [this1|] eqn:E; [|done].
  simpl. intros [= <-]. simpl. by apply legacy_setAddress_maps in E.
Qed.

Ltac crunch_shrinks :=
  repeat match goal with
         | |- context [IndexJs.postMessage ?a ?b ?c ?d ?e] =>
             generalize (postMessage_shrinks a b c d e);
             generalize (IndexJs.postMessage a b c d e); intros ? ?
         | |- context [Part000.postMessage ?a ?b ?c ?d ?e] =>
             generalize (legacy_postMessage_shrinks a b c d e);
             generalize (Part000.postMessage a b c d e); intros ? ?
         | |- context [match ?x with _ => _ end] => destruct x eqn:?; simpl
         end; try done; try apply registry_shrinks_refl;
  try apply unregister_shrinks.

Section Registry.
Context `{Platform}.

Lemma dispatch_shrinks this w payload wrapResult p :
  registry_shrinks this (fst (fst (IndexJs.dispatch this w payload wrapResult p))).
Proof.
  unfold IndexJs.dispatch.
  destruct (IndexJs.route_of (field "method" payload)); simpl;
    try apply sendResponse_shrinks;
    try apply registry_shrinks_refl;
    unfold IndexJs.eth_sign, IndexJs.personal_sign, IndexJs.personal_ecRecover,
      IndexJs.eth_signTypedData, IndexJs.eth_sendTransaction,
      IndexJs.eth_requestAccounts, IndexJs.wallet_watchAsset,
      IndexJs.wallet_addEthereumChain, IndexJs.wallet_switchEthereumChain,
      IndexJs.wallet_getPermissions, IndexJs.wallet_requestPermissions,
      IndexJs.wallet_rpcCall;
    crunch_shrinks.
Qed.

Lemma legacy_dispatch_shrinks this w payload wrapResult p :
  registry_shrinks this (fst (fst (Part000.dispatch this w payload wrapResult p))).
Proof.
  unfold Part000.dispatch.
  destruct (Part000.route_of (field "method" payload)); simpl;
    try apply legacy_sendResponse_shrinks;
    try apply registry_shrinks_refl;
    unfold Part000.eth_sign, Part000.personal_sign, Part000.personal_ecRecover,
      Part000.eth_signTypedData, Part000.eth_sendTransaction,
      Part000.eth_requestAccounts, Part000.wallet_watchAsset,
      Part000.wallet_addEthereumChain;
    crunch_shrinks.
Qed.

Lemma _request_registry_ok this w payload wrapResult :
  registry_ok this →
  registry_ok (fst (fst (fst (IndexJs._request this w payload wrapResult)))).
Proof.
  enter_request wrapResult.
  intros Hok. unfold IndexJs._request_body.
  pose proof (register_registry_ok this w payload wrapResult Hok) as Hr.
  destruct (register this w payload wrapResult) as [[[this3 w3] payload3] p].
  simpl in Hr.
  pose proof (dispatch_shrinks this3 w3 payload3 wrapResult p) as Hd.
  destruct (IndexJs.dispatch this3 w3 payload3 wrapResult p) as [[this4 w4] [|e]];
    simpl in *; by eapply registry_shrinks_ok.
Qed.

Lemma legacy_request_registry_ok this w payload wrapResult :
  registry_ok this →
  registry_ok (fst (fst (fst (Part000._request this w payload wrapResult)))).
Proof.
  enter_request wrapResult.
  intros Hok. unfold Part000._request_body.
  pose proof (register_registry_ok this w payload wrapResult Hok) as Hr.
  destruct (register this w payload wrapResult) as [[[this3 w3] payload3] p].
  simpl in Hr.
  pose proof (legacy_dispatch_shrinks this3 w3 payload3 wrapResult p) as Hd.
  destruct (Part000.dispatch this3 w3 payload3 wrapResult p) as [[this4 w4] [|e]];
    simpl in *; by eapply registry_shrinks_ok.
Qed.

Lemma map_request_registry_ok payloads : forall this w index,
  registry_ok this →
  registry_ok (fst (fst (IndexJs.map_request this w payloads index))).
Proof.
  induction payloads as [|payload rest IH]; intros this w index Hok; simpl;
    [done|].
  pose proof (_request_registry_ok this w payload (VNum (Z.of_nat index)) Hok)
    as Hr.
  destruct (IndexJs._request this w payload _) as [[[this1 w1] p] pl].
  specialize (IH this1 w1 (S index) Hr).
  by destruct (IndexJs.map_request this1 w1 rest (S index)) as [s ps].
Qed.

Lemma legacy_map_request_registry_ok payloads : forall this w index,
  registry_ok this →
  registry_ok (fst (fst (Part000.map_request this w payloads index))).
Proof.
  induction payloads as [|payload rest IH]; intros this w index Hok; simpl;
    [done|].
  pose proof (legacy_request_registry_ok this w payload (VNum (Z.of_nat index)) Hok)
    as Hr.
  destruct (Part000._request this w payload _) as [[[this1 w1] p] pl].
  specialize (IH this1 w1 (S index) Hr).
  by destruct (Part000.map_request this1 w1 rest (S index)) as [s ps].
Qed.

Lemma send_registry_ok this w pm arg :
  registry_ok this →
  registry_ok (fst (fst (IndexJs.send this w pm arg))).
Proof.
  intros Hok. unfold IndexJs.send, genId.
  repeat match goal with
         | |- context [if truthy ?x then _ else _] => destruct (truthy x); simpl
         | |- context [IndexJs._request this ?b ?c (VBool true)] =>
             generalize (_request_registry_ok this b c (VBool true) Hok);
             destruct (IndexJs._request this b c (VBool true)) as [[[? ?] ?] ?];
             simpl; intros ?
         | |- context [match ?x with _ => _ end] => destruct x eqn:?; simpl
         end;
    done.
Qed.

(** X13. The registry invariant of both files: every call stored in
    [callbacks] has its shape flag stored in [wrapResults].  The constructor
    establishes it and every operation of the provider object keeps it, so
    [sendResponse] never finds a callback without the flag that tells it
    whether to hand over the envelope or the raw result. *)
Theorem registry_invariant v o this w :
  let this' := fst (fst (run v o (this, w))) in
  (registry_ok this → registry_ok this')
  /\ (forall c, o = Construct c → snd (run v o (this, w)) = Done →
      registry_ok this').
Proof.
  cbv zeta. split.
  - intros Hok. destruct v, o; simpl;
      try (unfold configure;
           match goal with |- context [match ?r with _ => _ end] =>
             destruct r as [this'|] eqn:E end; simpl; [|done]);
      try (by eapply registry_shrinks_ok;
             [exact Hok|first [apply sendResponse_shrinks
                              |apply legacy_sendResponse_shrinks
                              |apply sendError_shrinks
                              |apply legacy_sendError_shrinks
                              |apply postMessage_shrinks
                              |apply legacy_postMessage_shrinks]]);
      try (by apply _request_registry_ok);
      try (by apply legacy_request_registry_ok).
    + unfold IndexJs.constructor in E.
      destruct (IndexJs.setConfig IndexJs.blank c); [|done].
      injection E as <-. by intros k [x Hx].
    + apply setAddress_maps in E as [Hc Hw]. intros k. rewrite Hc, Hw. apply Hok.
    + apply setConfig_maps in E as [Hc Hw]. intros k. rewrite Hc, Hw. apply Hok.
    + pose proof (send_registry_ok this w payloadOrMethod arg Hok) as Hs.
      destruct (IndexJs.send this w payloadOrMethod arg) as [s' []]; done.
    + destruct payload; simpl.
      * pose proof (_request_registry_ok this w payload (VBool true) Hok) as Hr.
        by destruct (IndexJs._request this w payload (VBool true)) as [[? ?] ?].
      * pose proof (map_request_registry_ok payloads this w 0%nat Hok) as Hr.
        by destruct (IndexJs.map_request this w payloads 0) as [? ?].
    + unfold Part000.constructor in E.
      destruct (Part000.setConfig IndexJs.blank c); [|done].
      injection E as <-. by intros k [x Hx].
    + apply legacy_setAddress_maps in E as [Hc Hw]. intros k. rewrite Hc, Hw. apply Hok.
    + apply legacy_setConfig_maps in E as [Hc Hw]. intros k. rewrite Hc, Hw. apply Hok.
    + destruct (get_prop payloadOrMethod "id"); [|done].
      by destruct (Part000.send _ _).
    + destruct payload; simpl.
      * pose proof (legacy_request_registry_ok this w payload (VBool true) Hok)
          as Hr.
        by destruct (Part000._request this w payload (VBool true)) as [[? ?] ?].
      * pose proof (legacy_map_request_registry_ok payloads this w 0%nat Hok)
          as Hr.
        by destruct (Part000.map_request this w payloads 0) as [? ?].
  - intros c -> Hdone. destruct v; simpl in *; unfold configure in *.
    + unfold IndexJs.constructor in *.
      destruct (IndexJs.setConfig IndexJs.blank c); [|done].
      simpl. by intros k [x Hx].
    + unfold Part000.constructor in *.
      destruct (Part000.setConfig IndexJs.blank c); [|done].
      simpl. by intros k [x Hx].
Qed.
End Registry.

Lemma registry_invariant_witness :
  registry_ok
    (fst (fst (run Index (Request [("method", VStr "eth_sendTransaction")])
                 (Sample.provider_of (VStr "0xabc") (VNum 1), Sample.page)))).
Proof.
  apply (registry_invariant Index (Request [("method", VStr "eth_sendTransaction")])
           (Sample.provider_of (VStr "0xabc") (VNum 1)) Sample.page).
  intros k [x Hx]. vm_compute in Hx. discriminate.
Defined.

(** ** Requests *)


Lemma register_fields this w payload wrapResult :
  let payload' := snd (fst (register this w payload wrapResult)) in
  field "jsonrpc" payload' =
    (if truthy (field "jsonrpc" payload) then field "jsonrpc" payload
     else VStr "2.0")
  /\ (forall k, k ≠ "id" → k ≠ "jsonrpc" → field k payload' = field k payload).
Proof.
  unfold register, tryIntifyId, genId, new_promise. cbv zeta.
  assert (Hset : forall i, field "jsonrpc" (set_field "id" i payload)
                           = field "jsonrpc" payload)
    by (intros i; by rewrite field_set_field_ne).
  destruct (field "id" payload); simpl;
    rewrite field_set_field_eq; simpl;
    destruct (negb (negb (clock w (ticks w) =? 0))); simpl;
    rewrite ?field_set_field_ne by done;
    destruct (truthy (field "jsonrpc" payload)) eqn:Ej; simpl;
    (split; [by rewrite ?field_set_field_eq, ?field_set_field_ne by done|]);
    intros k Hk1 Hk2; by rewrite ?field_set_field_ne by done.
Qed.

Section Requests.
Context `{Platform}.

Lemma _request_payload this w payload wrapResult :
  snd (IndexJs._request this w payload wrapResult)
  = snd (fst (register this w payload (default_true wrapResult)))
  /\ snd (Part000._request this w payload wrapResult)
     = snd (fst (register this w payload (default_true wrapResult))).
Proof.
  enter_request wrapResult.
  unfold IndexJs._request_body, Part000._request_body.
  destruct (register this w payload wrapResult) as [[[this3 w3] payload3] p].
  simpl.
  destruct (IndexJs.dispatch _ _ _ _ _) as [[? ?] [|?]];
    destruct (Part000.dispatch _ _ _ _ _) as [[? ?] [|?]]; done.
Qed.

(** X14. What [_request] of either file does to the payload object before
    the [switch]: [jsonrpc] is set to ["2.0"] only when the caller's value is
    falsy (a caller's ["1.0"] is kept), and no field other than [id] and
    [jsonrpc] is changed, so the method, the parameters and every extra field
    reach the handler, the host or the upstream client as the caller wrote
    them. *)
Theorem request_normalises_payload this w payload wrapResult payload' :
  snd (IndexJs._request this w payload wrapResult) = payload'
  \/ snd (Part000._request this w payload wrapResult) = payload' →
  field "jsonrpc" payload' =
    (if truthy (field "jsonrpc" payload) then field "jsonrpc" payload
     else VStr "2.0")
  /\ (forall k, k ≠ "id" → k ≠ "jsonrpc" → field k payload' = field k payload).
Proof.
  destruct (_request_payload this w payload wrapResult) as [-> ->].
  intros [<-|<-]; apply register_fields.
Qed.



(** X17. How an upstream call of [index.js] settles.  For a method without a
    [case], proxy mode off, the call goes to the upstream client and leaves
    the registry; when the client answers with [response], a caller whose
    shape flag is truthy or was left out ([send], [sendAsync]) receives
    [response] as it is and a caller with a falsy flag ([request]) receives
    [response.result]; a [response] of [null] or [undefined] makes the
    handler of a [request] call throw, which rejects the promise; a failure
    of the client rejects it with the client's error. *)
Theorem upstream_call_settlement this w payload wrapResult this' w' p payload' :
  IndexJs.route_of (field "method" payload) = R_default →
  isProxyRPC this = false →
  IndexJs._request this w payload wrapResult = (this', w', p, payload') →
  exists call,
    rpc_log w' = (rpc_log w ++ [call])%list
    /\ rpc_payload call = payload'
    /\ (forall response,
          promise_state (rpc_settle call (Fulfilled response) w') p =
            Some (if match wrapResult with
                     | VUndefined => true
                     | _ => truthy wrapResult
                     end
                  then Resolved response
                  else match get_prop response "result" with
                       | Ok r => Resolved r
                       | Throw e => Rejected e
                       end))
    /\ (forall e, promise_state (rpc_settle call (Failed e) w') p
                  = Some (Rejected e)).
Proof.
  intros Hroute Hproxy Hreq.
  destruct (upstream_settles _ _ _ _ _ _ _ _ Hroute Hproxy Hreq)
    as (call & Hlog & Hpl & _ & Hok & Hfail).
  exists call. split; [done|]. split; [done|]. split; [|done].
  intros response. rewrite Hok. by destruct wrapResult.
Qed.

End Requests.


Lemma upstream_call_settlement_witness :
  let this := Sample.provider_of (VStr "0xabc") (VNum 1) in
  let '(this', w', p, payload') :=
    IndexJs.request this Sample.page [("method", VStr "eth_blockNumber")] in
  exists call,
    rpc_log w' = [call]
    /\ promise_state (rpc_settle call (Fulfilled VNull) w') p
       = Some (Rejected TypeError).
Proof.
  pose proof (upstream_call_settlement
    (Sample.provider_of (VStr "0xabc") (VNum 1))
    Sample.page [("method", VStr "eth_blockNumber")] (VBool false))
    as Hx.
  cbv zeta. unfold IndexJs.request.
  destruct (IndexJs._request _ _ _ _) as [[[this' w'] p] payload'].
  destruct (Hx this' w' p payload' eq_refl eq_refl eq_refl)
    as (call & Hr & _ & Hf & _).
  exists call. split; [exact Hr|]. exact (Hf VNull).
Defined.

Lemma request_normalises_payload_witness :
  field "jsonrpc"
    (snd (IndexJs._request (Sample.provider_of (VStr "0xabc") (VNum 1)) Sample.page
            [("method", VStr "eth_chainId"); ("jsonrpc", VStr "1.0")]
            (VBool true)))
  = VStr "1.0".
Proof.
  exact (proj1 (request_normalises_payload
                  (Sample.provider_of (VStr "0xabc") (VNum 1)) Sample.page
                  [("method", VStr "eth_chainId"); ("jsonrpc", VStr "1.0")]
                  (VBool true) _ (or_introl eq_refl))).
Defined.

(** ** Methods that go to the host *)

Section Bridge.
Context `{Platform}.

End Bridge.


(** ** Nested frames *)

Lemma deliver_found this w id result p :
  map_get (callbacks this) id = Some p →
  fst (IndexJs.deliver this w id result) =
    (with_callbacks (fst (tryPopId this id)) (map_delete (callbacks this) id),
     callback p VNull
       (if truthy (get_or_undefined (wrapResults this) id)
        then IndexJs.response_data (js_or (snd (tryPopId this id)) id) result
        else result) w).
Proof.
  intros Hp. unfold IndexJs.deliver.
  destruct (tryPopId_keeps this id) as (Hc & Hw & _).
  destruct (tryPopId this id) as [this1 popped]; simpl in *.
  rewrite Hc, Hw, Hp. by destruct (truthy _).
Qed.

Lemma deliver_frames_skip pre : forall rest w id result,
  Forall (fun f => match f with
                   | Some fp => map_get (callbacks fp) id = None
                   | None => True
                   end) pre →
  IndexJs.deliver_frames (pre ++ rest) w id result =
    ((pre ++ fst (IndexJs.deliver_frames rest w id result))%list,
     snd (IndexJs.deliver_frames rest w id result)).
Proof.
  induction pre as [|[fp|] r IH]; intros rest w id result Hall; simpl.
  - by destruct (IndexJs.deliver_frames rest w id result).
  - inversion Hall as [|? ? Hfp Hr]; subst. unfold map_has. rewrite Hfp.
    by rewrite (IH rest w id result Hr).
  - inversion Hall as [|? ? _ Hr]; subst.
    by rewrite (IH rest w id result Hr).
Qed.

(** X19. The frame fallback of [sendResponse] in [index.js].  When the
    provider has no call under [id] and the provider of a nested frame has,
    the response is handed to that frame's [sendResponse]: the frame's
    caller is settled with the reply shaped by the frame's own shape flag and
    correlator, the frame's entry is removed, and the registry of the outer
    provider and the host log are unchanged.  Frames without a reachable
    provider are skipped. *)
Theorem response_is_forwarded_to_frame this w id result pre fp post p :
  map_get (callbacks this) id = None →
  frames w = (pre ++ Some fp :: post)%list →
  Forall (fun f => match f with
                   | Some g => map_get (callbacks g) id = None
                   | None => True
                   end) pre →
  map_get (callbacks fp) id = Some p →
  promises w !! p = Some None →
  let s' := IndexJs.sendResponse this w id result in
  promise_state (snd s') p =
    Some (Resolved
            (if truthy (get_or_undefined (wrapResults fp) id)
             then IndexJs.response_data
                    (js_or (get_or_undefined (intIds fp) id) id) result
             else result))
  /\ callbacks (fst s') = callbacks this
  /\ wrapResults (fst s') = wrapResults this
  /\ (exists fp', frames (snd s') !! length pre = Some (Some fp')
                  /\ map_get (callbacks fp') id = None)
  /\ host_log (snd s') = host_log w.
Proof.
  intros Hnone Hframes Hpre Hp Hpend. cbv zeta.
  destruct (sendResponse_host_log this w id result) as [Hh _].
  split; [|split; [|split; [|split; [|exact Hh]]]];
    try (unfold IndexJs.sendResponse, IndexJs.deliver;
         destruct (tryPopId_keeps this id) as (Hc & Hw & _);
         destruct (tryPopId this id) as [this1 popped]; simpl in *;
         rewrite Hc, Hnone;
         destruct (IndexJs.deliver_frames _ _ _ _); done).
  - unfold IndexJs.sendResponse, IndexJs.deliver.
    destruct (tryPopId_keeps this id) as (Hc & _).
    destruct (tryPopId this id) as [this1 popped]; simpl in *.
    rewrite Hc, Hnone, Hframes, (deliver_frames_skip pre _ _ _ _ Hpre). simpl.
    unfold map_has. rewrite Hp, (deliver_found _ _ _ _ _ Hp), tryPopId_result.
    match goal with |- context [callback p VNull ?d w] =>
      pose proof (callback_resolves p d w Hpend) as Hres;
      set (w1 := callback p VNull d w) in * end.
    pose proof (deliver_frames_outcome_kept post w1 id result) as Hk.
    destruct (IndexJs.deliver_frames post w1 id result) as [post' w2].
    simpl. by apply Hk.
  - unfold IndexJs.sendResponse, IndexJs.deliver.
    destruct (tryPopId_keeps this id) as (Hc & _).
    destruct (tryPopId this id) as [this1 popped]; simpl in *.
    rewrite Hc, Hnone, Hframes, (deliver_frames_skip pre _ _ _ _ Hpre). simpl.
    unfold map_has. rewrite Hp, (deliver_found _ _ _ _ _ Hp).
    destruct (IndexJs.deliver_frames post _ id result) as [post' w2].
    simpl. eexists. rewrite lookup_app_r, Nat.sub_diag by lia. simpl.
    split; [done|]. destruct id; try done. simpl. by rewrite lookup_delete_eq.
Qed.

Lemma response_is_forwarded_to_frame_witness :
  let this := Sample.provider_of (VStr "0xabc") (VNum 1) in
  let fp :=
    with_wrapResults (with_callbacks this {[ 1000 := 0%nat ]})
      {[ 1000 := VBool false ]} in
  let w := with_frames (with_promises Sample.page [None] []) [None; Some fp] in
  promise_state (snd (IndexJs.sendResponse this w (VNum 1000) (VStr "0x1"))) 0
  = Some (Resolved (VStr "0x1")).
Proof.
  intros this fp w.
  refine (proj1 (response_is_forwarded_to_frame this w (VNum 1000) (VStr "0x1")
                   [None] fp [] 0%nat eq_refl eq_refl _ eq_refl eq_refl)).
  constructor; [exact I|constructor].
Defined.

(** ** Ids on the host channel *)

Lemma to_int_nonnil z : Z.to_int z ≠ Decimal.Pos Decimal.Nil
                        /\ Z.to_int z ≠ Decimal.Neg Decimal.Nil.
Proof.
  destruct z as [|q|q]; simpl; split; try discriminate;
    intros [= E]; by apply DecimalPos.Unsigned.to_uint_nonnil in E.
Qed.

Lemma dec_string_inj a b : dec_string a = dec_string b → a = b.
Proof.
  unfold dec_string. intros E.
  destruct (to_int_nonnil a) as [Ha1 Ha2], (to_int_nonnil b) as [Hb1 Hb2].
  apply (f_equal DecimalString.NilZero.int_of_string) in E.
  rewrite !DecimalString.NilZero.isi in E by done.
  injection E as E. by apply DecimalZ.to_int_inj.
Qed.

(** X20. The id on the host channel of [index.js].  [postMessage] sends the
    id as a string, [["" + id]], and that string determines the id: two calls
    with different internal ids reach the host under different strings.  The
    registry is keyed by the number, so a [sendResponse] or [sendError] that
    is given the string back settles nothing and changes nothing: the host
    has to answer with the number. *)
Theorem host_id_is_a_string w handler i data :
  exists s dapp,
    IndexJs.host_message w handler (VNum i) data =
      WebkitPost (VObj [ ("dapp", dapp); ("name", VStr handler);
                         ("payload", data); ("id", VStr s) ])
    /\ (forall w' handler' j data',
          IndexJs.host_message w' handler' (VNum j) data' =
            WebkitPost (VObj [ ("dapp", dapp); ("name", VStr handler);
                               ("payload", data); ("id", VStr s) ]) →
          j = i)
    /\ (forall this page result error,
          IndexJs.sendResponse this page (VStr s) result = (this, page)
          /\ IndexJs.sendError this page (VStr s) error = (this, page)).
Proof.
  eexists _, _. split; [reflexivity|]. split.
  - intros w' handler' j data' [= _ _ _ _ E]. by apply dec_string_inj.
  - intros this page result error. split; [|done].
    unfold IndexJs.sendResponse, IndexJs.deliver, tryPopId. simpl.
    rewrite deliver_frames_not_owned.
    + by rewrite with_frames_same.
    + apply Forall_forall. by intros [fp|] _.
Qed.

(** ** The deprecated entry points *)

Section Deprecated.
Context `{Platform}.

Lemma _request_promise this w payload wrapResult :
  snd (fst (IndexJs._request this w payload wrapResult)) = length (promises w)
  /\ length (promises (snd (fst (fst (IndexJs._request this w payload wrapResult)))))
     = S (length (promises w)).
Proof.
  enter_request wrapResult.
  unfold IndexJs._request_body.
  destruct (register_eq this w payload wrapResult)
    as (this3 & w3 & payload3 & -> & _ & _ & _ & _ & _ & _ & _ & _ & Hp & _).
  destruct (dispatch_footprint this3 w3 payload3 wrapResult (length (promises w)))
    as [_ (_ & _ & Hlen & _)].
  destruct (IndexJs.dispatch this3 w3 payload3 wrapResult _) as [[this4 w4] [|e]];
    simpl in *; (split; [done|]).
  - rewrite Hlen, Hp, length_app. simpl. lia.
  - destruct (settle_page_kept (length (promises w)) (Rejected e) w4)
      as (_ & _ & Hlen' & _).
    unfold reject. rewrite Hlen', Hlen, Hp, length_app. simpl. lia.
Qed.

(** X21. The two calling modes of [send] in [index.js].  A payload object
    comes with a callback and a method name comes without one; in those two
    modes [send] does not throw and starts one call, whose promise is new.
    In the two mixed modes (a method name with a callback, a payload object
    without one) and for a payload of [null] or [undefined], [send] throws,
    and it does so before anything is registered: the provider, the
    promises, the host and the upstream client are untouched. *)
Theorem send_modes this w payloadOrMethod callbackOrParams :
  let isPayload := match payloadOrMethod with VStr _ => false | _ => true end in
  let hasCallback :=
    match callbackOrParams with
    | IndexJs.ArgFunction _ => true
    | IndexJs.ArgValue _ => false
    end in
  let nullish :=
    match payloadOrMethod with VUndefined | VNull => true | _ => false end in
  let r := IndexJs.send this w payloadOrMethod callbackOrParams in
  if Bool.eqb isPayload hasCallback && negb nullish
  then snd r = match callbackOrParams with
               | IndexJs.ArgFunction k =>
                   IndexJs.SendCallback (length (promises w)) k
               | IndexJs.ArgValue _ => IndexJs.SendPromise (length (promises w))
               end
       /\ length (promises (snd (fst r))) = S (length (promises w))
  else (exists e, snd r = IndexJs.SendThrows e)
       /\ fst (fst r) = this
       /\ promises (snd (fst r)) = promises w
       /\ host_log (snd (fst r)) = host_log w
       /\ rpc_log (snd (fst r)) = rpc_log w.
Proof.
  cbv zeta. unfold IndexJs.send, genId.
  destruct payloadOrMethod as [| |b|n|s|xs|fs|c m], callbackOrParams as [k|params];
    simpl; eauto 6;
    repeat match goal with
           | |- context [if truthy ?x then _ else _] =>
               destruct (truthy x); simpl
           | |- context [if String.eqb ?a ?b then _ else _] =>
               destruct (String.eqb a b); simpl
           | |- context [IndexJs._request this ?b ?c (VBool true)] =>
               let Hp := fresh "Hp" in
               destruct (_request_promise this b c (VBool true)) as [Hp ?];
               simpl in Hp;
               destruct (IndexJs._request this b c (VBool true))
                 as [[[? ?] ?] ?]; simpl in *
           end;
    try (split; congruence); eauto 6.
Qed.

(** X22. [send] of [part_000] is synchronous and answers only from the
    session state: for the four local methods it returns
    [{jsonrpc: "2.0", id, result}] with the caller's [id] as given (also
    when there is none) and the value that [request] of [index.js] resolves
    with; every other method, including those that [_request] bridges to the
    host or sends upstream, throws error 4200. *)
Theorem legacy_send_answers_locally this payload :
  Part000.send this payload =
    match local_value this (IndexJs.route_of (field "method" payload)) with
    | Some v => Ok (envelope (field "id" payload) v)
    | None => Throw (ProviderRpcError 4200
                       ("Trust does not support calling "
                        +:+ to_string (field "method" payload)
                        +:+ " synchronously without a callback. Please provide a callback parameter to call "
                        +:+ to_string (field "method" payload)
                        +:+ " asynchronously."))
    end.
Proof.
  unfold Part000.send.
  destruct (legacy_route (field "method" payload)) as [->|[-> Hin]].
  - destruct (IndexJs.route_of (field "method" payload)); simpl; try done.
    unfold Part000.eth_accounts, envelope. simpl.
    by destruct (String.eqb (address this) "").
  - simpl in Hin. destruct Hin as [<-|[<-|[<-|[<-|[]]]]]; done.
Qed.
End Deprecated.

(** ** Configuration *)

(** X23. The chain numbers that [setConfig] of either file stores.  For a
    [config.chainId] that is a safe integer, [eth_chainId] answers ["0x"]
    followed by its hexadecimal digits and [net_version] answers the decimal
    digits, and when it is not negative [Utils.hexToInt] reads the stored
    [chainId] back as the number.  For a [config] without [chainId],
    [eth_chainId] answers [undefined] and [net_version] answers the string
    ["undefined"]. *)
Theorem setConfig_chain_numbers this c this' :
  IndexJs.setConfig this c = Ok this' \/ Part000.setConfig this c = Ok this' →
  (forall n, cfg_chainId c = VNum n → safe_integer n = true →
     IndexJs.eth_chainId this' = VStr ("0x" +:+ hex_string n)
     /\ IndexJs.net_version this' = VStr (dec_string n)
     /\ (0 <= n → hexToInt (chainId this') = Parsed (VNum n)))
  /\ (cfg_chainId c = VUndefined →
      IndexJs.eth_chainId this' = VUndefined
      /\ IndexJs.net_version this' = VStr "undefined").
Proof.
  intros Hcfg.
  assert (Hc : chainId this' = intToHex (cfg_chainId c)
               /\ networkVersion this' = to_string (cfg_chainId c)).
  { destruct Hcfg as [E|E];
      unfold IndexJs.setConfig, Part000.setConfig in E;
      [destruct (IndexJs.setAddress this (cfg_address c))
      |destruct (Part000.setAddress this (cfg_address c))];
      simpl in E; try done; by injection E as <-. }
  destruct Hc as [Hc Hn].
  unfold IndexJs.eth_chainId, IndexJs.net_version. rewrite Hc, Hn.
  split.
  - intros n -> Hsafe. simpl. split; [done|]. split; [done|]. intros Hpos.
    unfold hexToInt, toString16.
    change (to_string (VStr ?s)) with s. rewrite parseInt16_0x.
    by rewrite (parse_hex_string n Hpos), Z.mul_1_l, Hsafe.
  - by intros ->.
Qed.

Lemma setConfig_chain_numbers_witness :
  hexToInt (chainId (Sample.provider_of (VStr "0xabc") (VNum 56)))
  = Parsed (VNum 56).
Proof.
  refine (proj2 (proj2 (proj1 (setConfig_chain_numbers IndexJs.blank
            (Sample.cfg (VStr "0xabc") (VNum 56))
            (Sample.provider_of (VStr "0xabc") (VNum 56)) _) 56 eq_refl eq_refl))
            _).
  - left. reflexivity.
  - lia.
Defined.
